(** * Portfolio site and browser CMS: a shallow embedding

    The repository holds two programs: a single-file Express server
    (routes, an SQLite store with the tables [messages] and [posts], and
    HTML rendered by template strings) and a single-file React application
    that keeps its posts in browser storage.

    Part I embeds the code: JavaScript text and the regular expressions the
    server uses, [escapeHtml], [markdownToHtml], the page templates, the
    store, the routes, and the browser's post list.  Part II states and
    proves the properties. *)

From Stdlib Require Import String Ascii DecimalString.
From Stdlib Require Import ZArith Bool Lia List Sorted Permutation.
Import ListNotations.

Set Implicit Arguments.

(* ================================================================= *)
(** * Part I.  The programs *)
(* ================================================================= *)

(** ** Characters and where they come from

    A JavaScript string is modelled by the bytes of its UTF-8 encoding.
    Every character the server tests for is an ASCII character, and a byte
    below 128 occurs in UTF-8 only as that character, so nothing is lost.

    The functions that build text are written once, over any type [A] of
    characters that has a byte ([code]) and can be made from a byte
    together with the place the byte comes from ([glyph]).  With [A] the
    bytes themselves this is the program; with [A] bytes paired with their
    origin, the very same definitions say, for each character of a page,
    whether it was written in the program text or copied from a row of the
    store. *)

Module Provenance.

(** The row fields (and other run-time data) a page interpolates. *)
Inductive field : Type :=
| PostId | PostSlug | PostTitle | PostExcerpt | PostContent | PostCreatedAt
| MessageId | MessageName | MessageEmail | MessageBody | MessageCreatedAt
| Environment.

Inductive origin : Type :=
| Program             (* written in server.js: templates, entities, escapes *)
| Data (f : field).   (* copied from a value of this field *)

Class Glyphs (A : Type) : Type := {
  code : A -> ascii;
  glyph : origin -> ascii -> A;
  code_glyph : forall o c, code (glyph o c) = c
}.

(** The program itself: characters are bytes. *)
#[export] Instance plain : Glyphs ascii :=
  {| code := fun c => c; glyph := fun _ c => c; code_glyph := fun _ _ => eq_refl |}.

(** The same program, remembering where each character came from. *)
#[export] Instance traced : Glyphs (ascii * origin) :=
  {| code := fst; glyph := fun o c => (c, o); code_glyph := fun _ _ => eq_refl |}.

Definition origin_of (x : ascii * origin) : origin := snd x.

(** The fields whose text a visitor or the administrator typed: the
    slug, title, excerpt and content of a post and the fields of a
    message. *)
Definition user_supplied (f : field) : bool :=
  match f with
  | PostSlug | PostTitle | PostExcerpt | PostContent
  | MessageName | MessageEmail | MessageBody => true
  | _ => false
  end.

(** The five characters [escapeHtml] is there for. *)
Definition special (c : ascii) : bool :=
  existsb (Ascii.eqb c) ["&"; "<"; ">"; "034"; "'"]%char.

Definition field_eqb (f g : field) : bool :=
  match f, g with
  | PostId, PostId | PostSlug, PostSlug | PostTitle, PostTitle
  | PostExcerpt, PostExcerpt | PostContent, PostContent
  | PostCreatedAt, PostCreatedAt | MessageId, MessageId
  | MessageName, MessageName | MessageEmail, MessageEmail
  | MessageBody, MessageBody | MessageCreatedAt, MessageCreatedAt
  | Environment, Environment => true
  | _, _ => false
  end.

(** No character of a traced text is both copied from a user-supplied
    field and one of the five special characters. *)
Definition escaped (x : ascii * origin) : Prop :=
  forall f, origin_of x = Data f -> user_supplied f = true ->
            special (fst x) = false.

Definition no_raw_special (page : list (ascii * origin)) : Prop :=
  Forall escaped page.

(** A single quote copied from the slug of a post. *)
Definition quote_of_slug (x : ascii * origin) : Prop :=
  origin_of x = Data PostSlug /\ fst x = "'"%char.

(** The same, but for the single quotes of slugs. *)
Definition no_raw_special_but_slug_quote (page : list (ascii * origin))
  : Prop :=
  Forall (fun x => escaped x \/ quote_of_slug x) page.

(** Forgetting the origins gives back the text itself. *)
Definition erase (page : list (ascii * origin)) : list ascii := map fst page.

End Provenance.
Export Provenance.

(** ** Text and regular expressions *)

Module Text.

(** String literals of this development hold no double quote: a template
    writes a backquote where server.js has a double quote (no template of
    server.js contains a backquote), and [chars] puts the quotes back. *)
Definition dquote : ascii := "034"%char.

Definition unquote (c : ascii) : ascii :=
  if Ascii.eqb c "`"%char then dquote else c.

Definition chars (s : string) : list ascii :=
  map unquote (list_ascii_of_string s).

Definition text (l : list ascii) : string := string_of_list_ascii l.

(** [Z] to its decimal form, as [String(n)] gives it for an integer. *)
Definition decimal (z : Z) : string := NilZero.string_of_int (Z.to_int z).

Section Engine.

Context {A : Type} `{Glyphs A}.

(** A literal of the program text. *)
Definition lit (s : string) : list A := map (glyph Program) (chars s).

(** A value read from the store (or the environment), unchanged. *)
Definition data (f : field) (s : string) : list A :=
  map (glyph (Data f)) (list_ascii_of_string s).

Definition at_char (a : ascii) (x : A) : bool := Ascii.eqb (code x) a.

(** The line terminators of ECMAScript: LF, CR, U+2028 and U+2029 (the last
    two are E2 80 A8 and E2 80 A9 in UTF-8). *)
Definition newline_at (s : list A) : bool :=
  match s with
  | x :: s' =>
      at_char "010" x || at_char "013" x ||
      (at_char "226" x &&
       match s' with
       | y :: z :: _ => at_char "128" y && (at_char "168" z || at_char "169" z)
       | _ => false
       end)
  | [] => false
  end.

(** The same, read backwards from the current position. *)
Definition newline_before (p : list A) : bool :=
  match p with
  | x :: p' =>
      at_char "010" x || at_char "013" x ||
      ((at_char "168" x || at_char "169" x) &&
       match p' with
       | y :: z :: _ => at_char "128" y && at_char "226" z
       | _ => false
       end)
  | [] => false
  end.

(** The regular expressions server.js uses, all without alternation.  The
    flag [m] is built into [Bol] and [Eol]; the flag [i] changes nothing
    where it is set, since those patterns contain no letter. *)
Inductive regex : Type :=
| Eps                                (* the empty pattern *)
| Chr (c : ascii)                    (* a literal character *)
| Dot                                (* [.]: anything but a line terminator *)
| Bol                                (* [^] under the flag m *)
| Eol                                (* [$] under the flag m *)
| Cat (r1 r2 : regex)
| Star (greedy : bool) (r : regex)   (* [r*] and [r*?] *)
| Group (n : nat) (r : regex).       (* the n-th capturing group *)

Definition Plus (r : regex) : regex := Cat r (Star true r).

(** A position in the subject: the text before it (nearest character
    first), the text from it on, and the groups captured so far. *)
Record cursor : Type := {
  before : list A;
  rest : list A;
  groups : list (nat * list A)
}.

Definition advance (x : A) (xs : list A) (c : cursor) : cursor :=
  {| before := x :: before c; rest := xs; groups := groups c |}.

Definition capture (n : nat) (c c' : cursor) : cursor :=
  {| before := before c';
     rest := rest c';
     groups := (n, firstn (length (rest c) - length (rest c')) (rest c)) :: groups c' |}.

Section Iterate.

Variable body : cursor -> list cursor.
Variable greedy : bool.

(** The ways to match [body] zero or more times from [c], best first.  An
    iteration that consumes nothing is dropped, as ECMAScript does; [n]
    bounds the number of iterations by the length of the text left. *)
Fixpoint iterate (n : nat) (c : cursor) : list cursor :=
  match n with
  | O => [c]
  | S n' =>
      let again :=
        flat_map (fun c' =>
                    if length (rest c') <? length (rest c)
                    then iterate n' c' else [])
                 (body c) in
      if greedy then again ++ [c] else c :: again
  end.

End Iterate.

(** All the ways [r] matches at the cursor, in the order a backtracking
    matcher tries them: the first one is the match ECMAScript reports. *)
Fixpoint run (r : regex) (c : cursor) : list cursor :=
  match r with
  | Eps => [c]
  | Chr a =>
      match rest c with
      | x :: xs => if at_char a x then [advance x xs c] else []
      | [] => []
      end
  | Dot =>
      match rest c with
      | x :: xs => if newline_at (rest c) then [] else [advance x xs c]
      | [] => []
      end
  | Bol =>
      match before c with
      | [] => [c]
      | _ => if newline_before (before c) then [c] else []
      end
  | Eol =>
      match rest c with
      | [] => [c]
      | _ => if newline_at (rest c) then [c] else []
      end
  | Cat r1 r2 => flat_map (run r2) (run r1 c)
  | Star g r' => iterate (run r') g (length (rest c)) c
  | Group n r' => map (capture n c) (run r' c)
  end.

Definition exec_at (r : regex) (p s : list A) : option cursor :=
  hd_error (run r {| before := p; rest := s; groups := [] |}).

(** The leftmost match at or after the current position: the text skipped
    over and the cursor at the end of the match. *)
Fixpoint search (r : regex) (p s : list A) : option (list A * cursor) :=
  match exec_at r p s with
  | Some c => Some ([], c)
  | None =>
      match s with
      | [] => None
      | x :: xs =>
          match search r (x :: p) xs with
          | Some (skipped, c) => Some (x :: skipped, c)
          | None => None
          end
      end
  end.

Definition digit (d : ascii) : option nat :=
  let n := nat_of_ascii d in
  if (49 <=? n) && (n <=? 57) then Some (n - 48) else None.

Fixpoint lookup (n : nat) (gs : list (nat * list A)) : option (list A) :=
  match gs with
  | [] => None
  | (m, g) :: gs' => if Nat.eqb n m then Some g else lookup n gs'
  end.

(** The replacement text: [$1] to [$9] stand for the captured groups, all
    other characters for themselves (server.js uses no other [$] form). *)
Fixpoint expand (t : list ascii) (gs : list (nat * list A)) : list A :=
  match t with
  | [] => []
  | a :: t1 =>
      let verbatim := glyph Program a :: expand t1 gs in
      if Ascii.eqb a "$" then
        match t1 with
        | d :: t2 =>
            match digit d with
            | Some n =>
                match lookup n gs with
                | Some g => g ++ expand t2 gs
                | None => verbatim
                end
            | None => verbatim
            end
        | [] => verbatim
        end
      else verbatim
  end.

(** [s.replace(/r/g, t)]: every match, left to right, each search starting
    where the previous match ended (one character further after an empty
    match). *)
Fixpoint replace_from (fuel : nat) (r : regex) (t : list ascii) (p s : list A)
  : list A :=
  match fuel with
  | O => s
  | S fuel' =>
      match search r p s with
      | None => s
      | Some (skipped, c) =>
          skipped ++ expand t (groups c) ++
          (if length (skipped) + length (rest c) <? length s
           then replace_from fuel' r t (before c) (rest c)
           else match rest c with
                | [] => []
                | x :: xs => x :: replace_from fuel' r t (x :: before c) xs
                end)
      end
  end.

Definition replace (r : regex) (t : string) (s : list A) : list A :=
  replace_from (S (length s)) r (chars t) [] s.

(** What [s.replace(/a/g, t)] comes to for one character, when the
    pattern is the single character [a]. *)
Definition substitute (a : ascii) (t : string) (x : A) : list A :=
  if at_char a x then lit t else [x].

(** [s.split(/r/)] for a pattern without groups: ECMAScript tries the
    pattern at each position [q] before the end; a match that is empty and
    starts where the current piece starts is passed over. *)
Fixpoint split_from (fuel : nat) (r : regex) (p piece s : list A)
  : list (list A) :=
  match fuel with
  | O => [rev piece ++ s]
  | S fuel' =>
      match s with
      | [] => [rev piece]
      | x :: xs =>
          match exec_at r p s with
          | Some c =>
              if (length (rest c) =? length s) &&
                 match piece with [] => true | _ => false end
              then split_from fuel' r (x :: p) (x :: piece) xs
              else rev piece :: split_from fuel' r (before c) [] (rest c)
          | None => split_from fuel' r (x :: p) (x :: piece) xs
          end
      end
  end.

Definition split (r : regex) (s : list A) : list (list A) :=
  match s with
  | [] => match exec_at r [] [] with Some _ => [] | None => [[]] end
  | _ => split_from (2 * length s + 2) r [] [] s
  end.

(** [pieces.join('')]. *)
Definition join (pieces : list (list A)) : list A := concat pieces.

(** A property of characters holds all over a cursor: of the text on
    either side and of every captured group. *)
Definition sound (Q : A -> Prop) (c : cursor) : Prop :=
  Forall Q (before c) /\ Forall Q (rest c) /\
  Forall (fun g => Forall Q (snd g)) (groups c).

(** A pattern that can match only where the text goes on with the
    character [a]. *)
Definition needs (a : ascii) (r : regex) : Prop :=
  forall c : cursor,
    match rest c with x :: _ => at_char a x = false | [] => True end ->
    run r c = [].

End Engine.

(** [h] applied to every character of a cursor. *)
Definition map_cursor {A B : Type} (h : A -> B) (c : @cursor A) : @cursor B :=
  {| before := map h (before c);
     rest := map h (rest c);
     groups := map (fun g => (fst g, map h (snd g))) (groups c) |}.

End Text.

(** ** The rows of the store, projects and sessions *)

Module Rows.

(** [messages]: id INTEGER PRIMARY KEY AUTOINCREMENT; name, email, message
    TEXT NOT NULL; created_at DATETIME DEFAULT CURRENT_TIMESTAMP. *)
Record Message : Type := {
  msg_id : Z;
  msg_name : string;
  msg_email : string;
  msg_message : string;
  msg_created_at : string
}.

(** [posts]: id INTEGER PRIMARY KEY AUTOINCREMENT; slug TEXT UNIQUE NOT
    NULL; title TEXT NOT NULL; excerpt TEXT; content TEXT; created_at
    DATETIME DEFAULT CURRENT_TIMESTAMP.  [None] is SQL NULL. *)
Record Post : Type := {
  post_id : Z;
  post_slug : string;
  post_title : string;
  post_excerpt : option string;
  post_content : option string;
  post_created_at : string
}.

Record Project : Type := {
  proj_id : Z;
  proj_title : string;
  proj_description : string;
  proj_tech : list string
}.

(** What the routes keep in [req.session]: [isAdmin] is either unset or
    [true], so a boolean holds it. *)
Record Session : Type := {
  isAdmin : bool;
  adminEmail : option string
}.

(** [x || ''] for a nullable text column. *)
Definition or_empty (x : option string) : string :=
  match x with
  | Some s => s
  | None => EmptyString
  end.

End Rows.
Export Rows.

(** ** Rendering: escapeHtml, markdownToHtml and the page templates *)

Module Html.
Import Text.

Section Render.

Context {A : Type} `{Glyphs A}.

(** The literal text [s] as a pattern. *)
Definition Str (s : string) : regex :=
  fold_right (fun a k => Cat (Chr a) k) Eps (chars s).

(** The five replacements of [escapeHtml], in its order:
    [.replace(/&/g, '&amp;')], then [<], [>], the double quote and ['] . *)
Definition entities (s : list A) : list A :=
  replace (Chr "'") "&#039;"
    (replace (Chr dquote) "&quot;"
       (replace (Chr ">") "&gt;"
          (replace (Chr "<") "&lt;"
             (replace (Chr "&") "&amp;" s)))).

(** What the five replacements come to for one character: its entity if
    it is one of the five, the character itself otherwise. *)
Definition entity (x : A) : list A :=
  if at_char "&" x then lit "&amp;"
  else if at_char "<" x then lit "&lt;"
  else if at_char ">" x then lit "&gt;"
  else if at_char dquote x then lit "&quot;"
  else if at_char "'" x then lit "&#039;"
  else [x].

(** [escapeHtml] on a string argument, which is what every template
    passes.  The guard [!s && s !== 0] holds of a string exactly when it
    is empty.  ([JS.escapeHtml_value] below is the function on an
    arbitrary value.) *)
Definition escapeHtml (s : list A) : list A :=
  match s with
  | [] => []
  | _ => entities s
  end.

(** The patterns of [markdownToHtml], as written in server.js:
    [/^### (.*$)/gim], [/^## (.*$)/gim], [/^# (.*$)/gim],
    [/\*\*(.*?)\*\*/gim], [/\*(.*?)\*/gim], [/\[(.*?)\]\((.*?)\)/gim]. *)
Definition heading (marks : string) : regex :=
  Cat Bol (Cat (Str marks) (Group 1 (Cat (Star true Dot) Eol))).

Definition re_h3 : regex := heading "### ".
Definition re_h2 : regex := heading "## ".
Definition re_h1 : regex := heading "# ".

Definition re_strong : regex :=
  Cat (Str "**") (Cat (Group 1 (Star false Dot)) (Str "**")).

Definition re_em : regex :=
  Cat (Chr "*") (Cat (Group 1 (Star false Dot)) (Chr "*")).

Definition re_link : regex :=
  Cat (Chr "[") (Cat (Group 1 (Star false Dot))
    (Cat (Str "](") (Cat (Group 2 (Star false Dot)) (Chr ")")))).

(** [/\\n\\n+/] and [/\\n/g].  In a regular expression literal [\\] is an
    escaped backslash: these patterns match the two characters backslash
    and n, not a line feed. *)
Definition re_paragraphs : regex :=
  Cat (Chr "\") (Cat (Chr "n") (Cat (Chr "\") (Plus (Chr "n")))).

Definition re_linebreak : regex := Cat (Chr "\") (Chr "n").

(** A character other than the backslash. *)
Definition not_backslash (x : A) : Prop := at_char "\" x = false.

(** The six inline replacements of [markdownToHtml], in its order. *)
Definition inline (md : list A) : list A :=
  replace re_link "<a href=`$2` target=`_blank`>$1</a>"
    (replace re_em "<em>$1</em>"
       (replace re_strong "<strong>$1</strong>"
          (replace re_h1 "<h1>$1</h1>"
             (replace re_h2 "<h2>$1</h2>"
                (replace re_h3 "<h3>$1</h3>" md))))).

Definition paragraph (p : list A) : list A :=
  lit "<p>" ++ replace re_linebreak "<br/>" p ++ lit "</p>".

Definition markdownToHtml (md : list A) : list A :=
  match md with
  | [] => []
  | _ => join (map paragraph (split re_paragraphs (inline md)))
  end.

(** [encodeURIComponent]: the unreserved characters stay, every other byte
    of the UTF-8 encoding becomes [%XX]. *)
Definition unreserved (c : ascii) : bool :=
  let n := nat_of_ascii c in
  ((65 <=? n) && (n <=? 90)) || ((97 <=? n) && (n <=? 122)) ||
  ((48 <=? n) && (n <=? 57)) ||
  existsb (Ascii.eqb c) (list_ascii_of_string "-_.!~*'()").

Definition hex_digit (n : nat) : ascii :=
  nth n (list_ascii_of_string "0123456789ABCDEF") "0"%char.

Definition percent (x : A) : list A :=
  let n := nat_of_ascii (code x) in
  [glyph Program "%"%char; glyph Program (hex_digit (n / 16));
   glyph Program (hex_digit (n mod 16))].

Definition encodeURIComponent (s : list A) : list A :=
  flat_map (fun x => if unreserved (code x) then [x] else percent x) s.

(** *** Templates *)

Definition renderPage (title bodyHtml : list A) (year : Z) : list A :=
  lit "<!doctype html>
<html lang=`en`>
<head>
  <meta charset=`utf-8` />
  <meta name=`viewport` content=`width=device-width,initial-scale=1` />
  <title>"
  ++ escapeHtml title ++
  lit " — Yusuf</title>
  <style>
    /* Minimal Tailwind-like utility classes (small subset) */
    :root { --max:1100px; --muted:#6b7280; --accent:#0f172a; }
    *{box-sizing:border-box}
    body{font-family:Inter, Arial, sans-serif; margin:0; color:#111; background:#f8fafc}
    .container{max-width:var(--max); margin:0 auto; padding:1rem}
    header{background:var(--accent); color:white}
    header .bar{display:flex; align-items:center; justify-content:space-between; gap:1rem}
    header a{color:#cbd5e1; text-decoration:none; margin-left:1rem}
    .hero{padding:2rem 0}
    .grid{display:grid; gap:1rem; grid-template-columns:repeat(auto-fill,minmax(240px,1fr))}
    .card{background:white; padding:1rem; border-radius:8px; box-shadow:0 1px 2px rgba(0,0,0,.04)}
    .footer{background:#fff; padding:1rem 0; margin-top:2rem; border-top:1px solid #e6e9ef; color:var(--muted)}
    form input, form textarea {width:100%; padding:.6rem; border-radius:6px; border:1px solid #ddd; margin-top:.25rem}
    .btn {background:var(--accent); color:white; padding:.5rem .8rem; border-radius:6px; border:none; cursor:pointer}
    .muted{color:var(--muted)}
    .prose img{max-width:100%}
    .admin-panel{display:flex; gap:1rem; flex-wrap:wrap}
    .small{font-size:.9rem; color:var(--muted)}
  </style>
</head>
<body>
  <header>
    <div class=`container bar`>
      <div><strong>Yusuf — Programmer</strong></div>
      <nav>
        <a href=`/`>Home</a>
        <a href=`/#projects`>Projects</a>
        <a href=`/#blog`>Blog</a>
        <a href=`/admin/login`>Admin</a>
      </nav>
    </div>
  </header>

  <main class=`container`>
    "
  ++ bodyHtml ++
  lit "
  </main>

  <footer class=`footer`>
    <div class=`container small`>© "
  ++ data Environment (decimal year) ++
  lit " Yusuf Abdulsalam — Built with Node.js</div>
  </footer>

  <script>
    // Client-side helper: contact form submit
    async function submitContact(e){
      e.preventDefault();
      const f = e.target;
      const data = { name: f.name.value.trim(), email: f.email.value.trim(), message: f.message.value.trim() };
      if(!data.name || !data.email || !data.message){ alert('Please fill all fields'); return; }
      try {
        const res = await fetch('/api/contact', { method:'POST', headers:{'Content-Type':'application/json'}, body: JSON.stringify(data) });
        const j = await res.json();
        if(j && j.success){ alert('Message sent — thank you'); f.reset(); }
        else alert('Error sending message');
      } catch(err) { alert('Network error'); }
    }
  </script>
</body>
</html>".

(** One card of the project grid. *)
Definition project_card (p : Project) : list A :=
  lit "<div class=`card`><h3>" ++ escapeHtml (lit (proj_title p)) ++
  lit "</h3><p class=`muted`>" ++ escapeHtml (lit (proj_description p)) ++
  lit "</p><small class=`small`>Tech: " ++
  escapeHtml (lit (String.concat ", " (proj_tech p))) ++
  lit "</small></div>".

(** One card of the blog list on the home page. *)
Definition post_card (post : Post) : list A :=
  lit "<div class=`card` style=`margin-bottom:.6rem`><h3><a href=`/post/" ++
  encodeURIComponent (data PostSlug (post_slug post)) ++
  lit "`>" ++ escapeHtml (data PostTitle (post_title post)) ++
  lit "</a></h3><p class=`muted`>" ++
  escapeHtml (data PostExcerpt (or_empty (post_excerpt post))) ++
  lit "</p></div>".

Definition renderHome (projects : list Project) (posts : list Post)
  (session : option Session) : list A :=
  lit "
  <section class=`hero`>
    <h1 style=`font-size:2rem; margin-bottom:.25rem`>Hello — I'm Yusuf</h1>
    <p class=`muted`>Freelance programmer building web apps and APIs. I specialize in modern web development.</p>
  </section>

  <section id=`projects` style=`margin-top:2rem`>
    <h2>Selected Projects</h2>
    <div class=`grid` style=`margin-top:.75rem`>
      "
  ++ join (map project_card projects) ++
  lit "
    </div>
  </section>

  <section id=`blog` style=`margin-top:2rem`>
    <h2>Blog</h2>
    <div style=`margin-top:.75rem`>
      "
  ++ (match posts with
      | [] => lit "<p class=`muted`>No posts yet.</p>"
      | _ => join (map post_card posts)
      end) ++
  lit "
    </div>
  </section>

  <section id=`contact` style=`margin-top:2rem`>
    <h2>Contact</h2>
    <form onsubmit=`submitContact(event)` style=`max-width:700px; margin-top:.5rem`>
      <label>Name <input name=`name` required /></label><br/>
      <label>Email <input name=`email` type=`email` required /></label><br/>
      <label>Message <textarea name=`message` rows=`6` required></textarea></label><br/>
      <button class=`btn` type=`submit`>Send message</button>
    </form>
  </section>

  "
  ++ (match session with
      | Some s =>
          if isAdmin s
          then lit "<p style=`margin-top:1rem`><a href=`/admin`>Go to admin</a></p>"
          else []
      | None => []
      end) ++
  lit "
  ".

Definition renderAdminLogin (ADMIN_EMAIL : string) (error : option string)
  : list A :=
  lit "
    <h2>Admin Login</h2>
    "
  ++ (match error with
      | None | Some EmptyString => []
      | Some _ => lit "<p class=`muted` style=`color:#a00`>Invalid credentials</p>"
      end) ++
  lit "
    <form method=`POST` action=`/admin/login` style=`max-width:400px`>
      <label>Email <input name=`email` type=`email` required value=`"
  ++ escapeHtml (data Environment ADMIN_EMAIL) ++
  lit "` /></label><br/>
      <label>Password <input name=`password` type=`password` required /></label><br/>
      <button class=`btn` type=`submit`>Login</button>
    </form>
  ".

(** One message of the dashboard. *)
Definition message_card (m : Message) : list A :=
  lit "
        <div class=`card` style=`margin-top:.5rem`>
          <div class=`small`>"
  ++ escapeHtml (data MessageEmail (msg_email m)) ++
  lit " — " ++
  escapeHtml (data MessageCreatedAt (msg_created_at m)) ++
  lit "</div>
          <div style=`margin-top:.5rem`>"
  ++ escapeHtml (data MessageBody (msg_message m)) ++
  lit "</div>
          <form method=`POST` action=`/admin/messages/delete` style=`margin-top:.5rem`>
            <input type=`hidden` name=`id` value=`"
  ++ data MessageId (decimal (msg_id m)) ++
  lit "` />
            <button class=`btn` type=`submit`>Delete message</button>
          </form>
        </div>".

(** One post of the dashboard's list. *)
Definition post_item (p : Post) : list A :=
  lit "<li style=`margin-bottom:.5rem`><strong>"
  ++ escapeHtml (data PostTitle (post_title p)) ++
  lit "</strong> — <span class=`small`>"
  ++ escapeHtml (data PostSlug (post_slug p)) ++
  lit "</span>
          <form method=`POST` action=`/admin/posts/delete` style=`display:inline-block; margin-left:.5rem`>
            <input type=`hidden` name=`slug` value=`"
  ++ escapeHtml (data PostSlug (post_slug p)) ++
  lit "` />
            <button class=`btn` type=`submit`>Delete</button>
          </form>
        </li>".

Definition renderAdminDashboard (messages : list Message) (posts : list Post)
  : list A :=
  lit "
    <div style=`display:flex; justify-content:space-between; align-items:center; gap:1rem`>
      <h2>Admin Dashboard</h2>
      <div><a href=`/admin/logout`>Logout</a></div>
    </div>

    <section style=`margin-top:1rem`>
      <h3>Messages</h3>
      "
  ++ (match messages with
      | [] => lit "<p class=`muted`>No messages yet.</p>"
      | _ => join (map message_card messages)
      end) ++
  lit "
    </section>

    <section style=`margin-top:1.5rem`>
      <h3>Manage Posts</h3>
      <div class=`card` style=`margin-top:.5rem`>
        <form method=`POST` action=`/admin/posts` style=`display:grid; gap:.5rem`>
          <label>Slug (unique) <input name=`slug` placeholder=`my-first-post` required /></label>
          <label>Title <input name=`title` required /></label>
          <label>Excerpt <input name=`excerpt` /></label>
          <label>Content (plain text or markdown) <textarea name=`content` rows=`6` required></textarea></label>
          <div style=`display:flex; gap:.5rem`>
            <button class=`btn` type=`submit`>Create / Update</button>
          </div>
        </form>
      </div>

      <div style=`margin-top:.75rem`>
        <h4>Existing posts</h4>
        "
  ++ (match posts with
      | [] => lit "<p class=`muted`>No posts.</p>"
      | _ => lit "<ul>" ++ join (map post_item posts) ++ lit "</ul>"
      end) ++
  lit "
      </div>
    </section>
  ".

(** The body of GET /post/:slug for a row that exists. *)
Definition renderPost (row : Post) : list A :=
  lit "<article class=`prose max-w-none`><h1>"
  ++ escapeHtml (data PostTitle (post_title row)) ++
  lit "</h1><p class=`text-gray-600`>"
  ++ escapeHtml (data PostExcerpt (or_empty (post_excerpt row))) ++
  lit "</p><div>"
  ++ markdownToHtml
       (escapeHtml (data PostContent (or_empty (post_content row)))) ++
  lit "</div><p><a href=`/`>Back</a></p></article>".

(** The body of GET /post/:slug when no row has the slug. *)
Definition renderNotFound : list A :=
  lit "<h2>Post not found</h2><p><a href=`/`>Back</a></p>".

End Render.

End Html.

(** ** JavaScript values, and escapeHtml on any of them *)

Module JS.
Import Text.
Local Open Scope string_scope.

Inductive exception : Type :=
| TypeError
| Raised (what : string).   (* thrown by a method of the argument *)

Inductive completion (T : Type) : Type :=
| Normal (v : T)
| Throw (e : exception).
Arguments Throw {T} e.

(** A double: not-a-number, the two infinities, the two zeros, and the
    other finite values [(-1)^s * m * 2^e]. *)
Inductive number : Type :=
| NaN
| Infinity (negative : bool)
| Zero (negative : bool)
| Finite (negative : bool) (m : positive) (e : Z).

(** An object (arrays and functions included) is given by what converting
    it to a string yields: ToPrimitive runs its [toString] and [valueOf],
    which may return a string or throw; an object without either, such as
    [Object.create(null)], throws a TypeError. *)
Inductive value : Type :=
| Undefined
| Null
| Boolean (b : bool)
| Number (x : number)
| BigInt (z : Z)
| JString (s : string)
| Symbol (description : string)
| Object (conversion : completion string).

Definition ToBoolean (v : value) : bool :=
  match v with
  | Undefined | Null => false
  | Boolean b => b
  | Number NaN | Number (Zero _) => false
  | Number _ => true
  | BigInt z => negb (Z.eqb z 0)
  | JString s => negb (String.eqb s EmptyString)
  | Symbol _ | Object _ => true
  end.

(** [v !== 0]: strict inequality with the number zero ([-0 === 0]). *)
Definition strict_neq_zero (v : value) : bool :=
  match v with
  | Number (Zero _) => false
  | _ => true
  end.

Section Conversions.

(** Number::toString on a finite number other than zero (the shortest
    digits that read back as the same double) belongs to the engine; it is
    a parameter here. *)
Variable finite_to_string : bool -> positive -> Z -> string.

Definition Number_toString (x : number) : string :=
  match x with
  | NaN => "NaN"
  | Infinity false => "Infinity"
  | Infinity true => "-Infinity"
  | Zero _ => "0"
  | Finite s m e => finite_to_string s m e
  end.

(** [String(v)]. *)
Definition ToString (v : value) : completion string :=
  match v with
  | Undefined => Normal "undefined"
  | Null => Normal "null"
  | Boolean true => Normal "true"
  | Boolean false => Normal "false"
  | Number x => Normal (Number_toString x)
  | BigInt z => Normal (decimal z)
  | JString s => Normal s
  | Symbol d => Normal ("Symbol(" ++ d ++ ")")
  | Object conversion => conversion
  end.

(** [escapeHtml(s)] as server.js has it:
    [if (!s && s !== 0) return ''; return String(s).replace(...)...]. *)
Definition escapeHtml_value (s : value) : completion string :=
  if negb (ToBoolean s) && strict_neq_zero s then Normal EmptyString
  else
    match ToString s with
    | Normal str => Normal (text (Html.entities (list_ascii_of_string str)))
    | Throw e => Throw e
    end.

End Conversions.

End JS.

(** ** The store: the two SQLite tables and the statements server.js runs *)

Module Store.

(** The database is modelled in memory: the rows of each table in rowid
    order, and integers without bound.  A statement fails only when it
    violates a constraint of the schema; failures of the file underneath
    are outside the model.

    A table declared with AUTOINCREMENT has an entry in [sqlite_sequence]
    holding the largest rowid it has ever assigned. *)
Record DB : Type := {
  messages : list Message;
  messages_seq : Z;
  posts : list Post;
  posts_seq : Z
}.

Inductive sql_error : Type :=
| SQLITE_CONSTRAINT.

(** The rowid of a new row of an AUTOINCREMENT table: one more than the
    largest rowid in the table or in [sqlite_sequence]. *)
Definition next_rowid (ids : list Z) (seq : Z) : Z :=
  Z.max (fold_right Z.max 0%Z ids) seq + 1.

(** [ORDER BY created_at DESC] on a TEXT column: values compare byte by
    byte; rows with equal values stay in table order. *)
Section OrderBy.

Variable Row : Type.
Variable key : Row -> string.

Fixpoint insert_desc (x : Row) (l : list Row) : list Row :=
  match l with
  | [] => [x]
  | y :: l' =>
      if String.leb (key y) (key x) then x :: y :: l'
      else y :: insert_desc x l'
  end.

Definition order_by_desc (l : list Row) : list Row :=
  fold_right insert_desc [] l.

(** [a] may stand before [b] in a list that is newest first. *)
Definition not_older (a b : Row) : Prop := String.leb (key b) (key a) = true.

(** Every row is at least as new as each row after it. *)
Definition newest_first (l : list Row) : Prop := StronglySorted not_older l.

End OrderBy.

(** [SELECT id, name, email, message, created_at FROM messages
     ORDER BY created_at DESC]. *)
Definition all_messages (db : DB) : list Message :=
  order_by_desc msg_created_at (messages db).

(** A row of [posts] without the column [content]. *)
Definition without_content (p : Post) : Post :=
  {| post_id := post_id p; post_slug := post_slug p;
     post_title := post_title p; post_excerpt := post_excerpt p;
     post_content := None; post_created_at := post_created_at p |}.

(** [SELECT id, slug, title, excerpt, created_at FROM posts
     ORDER BY created_at DESC]. *)
Definition all_posts (db : DB) : list Post :=
  order_by_desc post_created_at (map without_content (posts db)).

(** [SELECT * FROM posts WHERE slug = ?]. *)
Definition get_post (db : DB) (slug : string) : option Post :=
  find (fun p => String.eqb (post_slug p) slug) (posts db).

(** [INSERT INTO messages (name, email, message) VALUES (?, ?, ?)] with
    [now] the value of CURRENT_TIMESTAMP; the result carries [lastID].
    A parameter that is not bound is NULL. *)
Definition insert_message (name email message : option string) (now : string)
  (db : DB) : sql_error + (DB * Z) :=
  match name, email, message with
  | Some n, Some e, Some m =>
      let id := next_rowid (map msg_id (messages db)) (messages_seq db) in
      inr ({| messages := messages db ++
                [{| msg_id := id; msg_name := n; msg_email := e;
                    msg_message := m; msg_created_at := now |}];
              messages_seq := id;
              posts := posts db;
              posts_seq := posts_seq db |}, id)
  | _, _, _ => inl SQLITE_CONSTRAINT
  end.

(** [INSERT OR REPLACE INTO posts (slug, title, excerpt, content)
     VALUES (?, ?, ?, ?)]: a row that has the new row's slug is deleted,
    then the new row is inserted, with a new rowid and the current time. *)
Definition upsert_post (slug title excerpt content : option string)
  (now : string) (db : DB) : sql_error + (DB * Z) :=
  match slug, title with
  | Some s, Some t =>
      let id := next_rowid (map post_id (posts db)) (posts_seq db) in
      inr ({| messages := messages db;
              messages_seq := messages_seq db;
              posts :=
                filter (fun p => negb (String.eqb (post_slug p) s)) (posts db)
                ++ [{| post_id := id; post_slug := s; post_title := t;
                       post_excerpt := excerpt; post_content := content;
                       post_created_at := now |}];
              posts_seq := id |}, id)
  | _, _ => inl SQLITE_CONSTRAINT
  end.

(** [DELETE FROM posts WHERE slug = ?]. *)
Definition delete_post (slug : string) (db : DB) : DB :=
  {| messages := messages db;
     messages_seq := messages_seq db;
     posts := filter (fun p => negb (String.eqb (post_slug p) slug)) (posts db);
     posts_seq := posts_seq db |}.

(** The invariants of the tables: no two posts share a slug, and no row
    has an id above the one [sqlite_sequence] records for its table. *)
Definition unique_slugs (db : DB) : Prop := NoDup (map post_slug (posts db)).

Definition ids_recorded (db : DB) : Prop :=
  Forall (fun m => (msg_id m <= messages_seq db)%Z) (messages db) /\
  Forall (fun p => (post_id p <= posts_seq db)%Z) (posts db).

(** From [db] to [db'] ids are only added: [db'] keeps the invariant, no
    sequence has gone down, and a row of [db'] that is not a row of [db]
    has an id above the sequence of [db]. *)
Definition ids_grow (db db' : DB) : Prop :=
  ids_recorded db' /\
  (messages_seq db <= messages_seq db')%Z /\
  (posts_seq db <= posts_seq db')%Z /\
  (forall m, In m (messages db') ->
             In m (messages db) \/ (messages_seq db < msg_id m)%Z) /\
  (forall p, In p (posts db') ->
             In p (posts db) \/ (posts_seq db < post_id p)%Z).

Section Affinity.

(** [id] is an INTEGER column and the parameter arrives as text, so SQLite
    compares after giving the text NUMERIC affinity: [as_rowid] is the
    integer a text value then stands for, if it stands for one.  The
    conversion is SQLite's; the statements below hold for any. *)
Variable as_rowid : string -> option Z.

Definition rowid_is (id : string) (rowid : Z) : bool :=
  match as_rowid id with
  | Some k => Z.eqb k rowid
  | None => false
  end.

(** [DELETE FROM messages WHERE id = ?]. *)
Definition delete_message (id : string) (db : DB) : DB :=
  {| messages := filter (fun m => negb (rowid_is id (msg_id m))) (messages db);
     messages_seq := messages_seq db;
     posts := posts db;
     posts_seq := posts_seq db |}.

End Affinity.

(** The text of a decimal integer; an instance of [as_rowid] to run the
    model with (the dashboard's forms send ids in this form). *)
Fixpoint digits_value (acc : Z) (l : list ascii) : option Z :=
  match l with
  | [] => Some acc
  | c :: l' =>
      let n := nat_of_ascii c in
      if (48 <=? n) && (n <=? 57)
      then digits_value (10 * acc + Z.of_nat (n - 48)) l'
      else None
  end.

Definition decimal_rowid (s : string) : option Z :=
  match list_ascii_of_string s with
  | [] => None
  | l => digits_value 0 l
  end.

End Store.

(** ** The routes of server.js *)

Module Server.
Import Text Html Store.

(** ADMIN_EMAIL and ADMIN_PASSWORD, read from the environment. *)
Record Config : Type := {
  ADMIN_EMAIL : string;
  ADMIN_PASSWORD : string
}.

(** The in-memory [projects] of server.js. *)
Definition projects : list Project :=
  [ {| proj_id := 1; proj_title := "Portfolio Website";
       proj_description := "Responsive portfolio with contact form and blog";
       proj_tech := ["HTML"; "CSS"; "Node"]%string |};
    {| proj_id := 2; proj_title := "API Backend";
       proj_description := "Express + SQLite backend for small apps";
       proj_tech := ["Node"; "Express"; "SQLite"]%string |} ].

(** The routes the application declares, by method and path. *)
Inductive route : Type :=
| GET_home                          (* GET / *)
| GET_post (slug : string)          (* GET /post/:slug *)
| POST_api_contact                  (* POST /api/contact *)
| GET_favicon                       (* GET /favicon.ico *)
| GET_admin_login                   (* GET /admin/login *)
| POST_admin_login                  (* POST /admin/login *)
| GET_admin_logout                  (* GET /admin/logout *)
| GET_admin                         (* GET /admin *)
| POST_admin_posts                  (* POST /admin/posts *)
| POST_admin_posts_delete           (* POST /admin/posts/delete *)
| POST_admin_messages_delete.       (* POST /admin/messages/delete *)

(** A field of a parsed body.  The forms of the pages and the script of
    the contact form send text.  [bodyParser.urlencoded({ extended: true })]
    also gives an array for a key that is sent more than once and an
    object for a key written with brackets, and [bodyParser.json()] gives
    any JSON value. *)
#[warnings="-register-all"]
Inductive field_value : Type :=
| Text (s : string)
| Array (items : list field_value)
| Dict (fields : list (string * field_value))
| Num (x : JS.number)
| Flag (b : bool)
| Null.

(** A request as a handler sees it: the route, the session found for its
    cookie ([None]: [req.session] is not set), the fields of the parsed
    body, [req.query.error], and the clock: the text of CURRENT_TIMESTAMP
    and the year of [new Date()]. *)
Record request : Type := {
  target : route;
  session : option Session;
  body : list (string * field_value);
  query_error : option string;
  now : string;
  year : Z
}.

(** [req.body.k]: [None] is [undefined]. *)
Fixpoint param (k : string) (b : list (string * field_value))
  : option field_value :=
  match b with
  | [] => None
  | (k', v) :: b' => if String.eqb k k' then Some v else param k b'
  end.

(** Truthiness of a body field: [!x] is false for a text that is not
    empty, for every array and object, for a number other than zero and
    for [true]. *)
Definition truthy (x : option field_value) : bool :=
  match x with
  | Some (Text s) => negb (String.eqb s EmptyString)
  | Some (Array _) | Some (Dict _) => true
  | Some (Num x) => JS.ToBoolean (JS.Number x)
  | Some (Flag b) => b
  | Some Null | None => false
  end.

(** [x === s] for a string [s]: only a text is strictly equal to one. *)
Definition is_text (x : option field_value) (s : string) : bool :=
  match x with
  | Some (Text t) => String.eqb t s
  | _ => false
  end.

(** The arguments of a call whose values are all text or [undefined], as
    the parameters of its statement; [None] when one of them is neither. *)
Fixpoint texts (args : list (option field_value))
  : option (list (option string)) :=
  match args with
  | [] => Some []
  | None :: args' => option_map (cons None) (texts args')
  | Some (Text s) :: args' => option_map (cons (Some s)) (texts args')
  | Some _ :: _ => None
  end.

(** The value of the [i]-th placeholder: one that is not bound is NULL. *)
Definition parameter (i : nat) (ps : list (option string)) : option string :=
  nth i ps None.

Inductive json : Type :=
| error_json (error : string)   (* [{ error: ... }] *)
| success_json (id : Z).        (* [{ success: true, id: ... }] *)

Inductive reply : Type :=
| Redirect (location : string)        (* [res.redirect(location)], a 302 *)
| Json (status : Z) (j : json)        (* [res.status(s).json(j)] *)
| Send (status : Z) (html : string)   (* [res.status(s).send(html)] *)
| End_ (status : Z)                   (* [res.status(s).end()] *)
| Fault (e : JS.exception).           (* the handler threw *)

(** What handling a request leaves behind: the reply, the store and the
    session. *)
Record outcome : Type := {
  answer : reply;
  store : DB;
  session_after : option Session
}.

(** The documents the routes send, with [y] the year of [new Date()]. *)
Section Pages.

Context {A : Type} `{Glyphs A}.

Definition home_page (db : DB) (session : option Session) (y : Z) : list A :=
  renderPage (lit "Home") (renderHome projects (all_posts db) session) y.

Definition post_document (row : Post) (y : Z) : list A :=
  renderPage (data PostTitle (post_title row)) (renderPost row) y.

Definition not_found_page (y : Z) : list A :=
  renderPage (lit "Not found") renderNotFound y.

Definition login_page (email : string) (error : option string) (y : Z)
  : list A :=
  renderPage (lit "Admin Login") (renderAdminLogin email error) y.

Definition dashboard_page (db : DB) (y : Z) : list A :=
  renderPage (lit "Admin Dashboard")
    (renderAdminDashboard (all_messages db) (all_posts db)) y.

End Pages.

Section Routes.

Variable cfg : Config.
Variable as_rowid : string -> option Z.

(** What the sqlite3 driver makes of the arguments of a call when they are
    not all text: [None] when the call fails with an error, otherwise the
    values it binds to the placeholders of the statement, in their order
    ([None] for a placeholder it leaves unbound).  The binding is the
    driver's; the statements below hold for any. *)
Variable driver : list (option field_value) -> option (list (option string)).

(** [stmt.run(a, b, c, callback)]: arguments that are text are bound in
    their order, and an [undefined] one is left unbound. *)
Definition bind (args : list (option field_value))
  : option (list (option string)) :=
  match texts args with
  | Some ps => Some ps
  | None => driver args
  end.

(** [db.run(sql, [a], callback)]: the call has one argument, an array that
    holds the parameters. *)
Definition bind_array (items : list field_value)
  : option (list (option string)) :=
  match texts (map Some items) with
  | Some ps => Some ps
  | None => driver [Some (Array items)]
  end.

(** A reply that changes neither the store nor the session. *)
Definition reply_with (req : request) (db : DB) (r : reply) : outcome :=
  {| answer := r; store := db; session_after := session req |}.

(** The middleware:
    [if (req.session && req.session.isAdmin) return next();
     return res.redirect('/admin/login');] *)
Definition requireAdmin (req : request) (db : DB)
  (next : request -> DB -> outcome) : outcome :=
  match session req with
  | Some s =>
      if isAdmin s then next req db
      else reply_with req db (Redirect "/admin/login")
  | None => reply_with req db (Redirect "/admin/login")
  end.

Definition home (req : request) (db : DB) : outcome :=
  reply_with req db
    (Send 200 (text (home_page db (session req) (year req)))).

Definition post_page (slug : string) (req : request) (db : DB) : outcome :=
  match get_post db slug with
  | None => reply_with req db (Send 404 (text (not_found_page (year req))))
  | Some row => reply_with req db (Send 200 (text (post_document row (year req))))
  end.

Definition api_contact (req : request) (db : DB) : outcome :=
  let name := param "name" (body req) in
  let email := param "email" (body req) in
  let message := param "message" (body req) in
  if negb (truthy name) || negb (truthy email) || negb (truthy message)
  then reply_with req db
         (Json 400 (error_json "name, email and message required"))
  else
    match bind [name; email; message] with
    | None => reply_with req db (Json 500 (error_json "db error"))
    | Some ps =>
        match insert_message (parameter 0 ps) (parameter 1 ps)
                (parameter 2 ps) (now req) db with
        | inl _ => reply_with req db (Json 500 (error_json "db error"))
        | inr (db', lastID) =>
            {| answer := Json 200 (success_json lastID);
               store := db';
               session_after := session req |}
        end
    end.

Definition favicon (req : request) (db : DB) : outcome :=
  reply_with req db (End_ 204).

Definition admin_login_page (req : request) (db : DB) : outcome :=
  match session req with
  | Some {| isAdmin := true |} => reply_with req db (Redirect "/admin")
  | _ =>
      reply_with req db
        (Send 200 (text (login_page (ADMIN_EMAIL cfg) (query_error req)
                           (year req))))
  end.

(** [req.session.isAdmin = true] throws when there is no session.  The
    email that is stored in the session is strictly equal to ADMIN_EMAIL. *)
Definition admin_login (req : request) (db : DB) : outcome :=
  if is_text (param "email" (body req)) (ADMIN_EMAIL cfg) &&
     is_text (param "password" (body req)) (ADMIN_PASSWORD cfg)
  then
    match session req with
    | Some s =>
        {| answer := Redirect "/admin";
           store := db;
           session_after :=
             Some {| isAdmin := true;
                     adminEmail := Some (ADMIN_EMAIL cfg) |} |}
    | None => reply_with req db (Fault JS.TypeError)
    end
  else reply_with req db (Redirect "/admin/login?error=invalid").

(** [req.session.destroy(() => res.redirect('/'))]. *)
Definition admin_logout (req : request) (db : DB) : outcome :=
  match session req with
  | Some _ =>
      {| answer := Redirect "/"; store := db; session_after := None |}
  | None => reply_with req db (Fault JS.TypeError)
  end.

Definition admin (req : request) (db : DB) : outcome :=
  reply_with req db (Send 200 (text (dashboard_page db (year req)))).

Definition admin_posts (req : request) (db : DB) : outcome :=
  let slug := param "slug" (body req) in
  let title := param "title" (body req) in
  let excerpt := param "excerpt" (body req) in
  let content := param "content" (body req) in
  if negb (truthy slug) || negb (truthy title) || negb (truthy content)
  then reply_with req db (Redirect "/admin?msg=missing")
  else
    match bind [slug; title; excerpt; content] with
    | None => reply_with req db (Redirect "/admin?msg=error")
    | Some ps =>
        match upsert_post (parameter 0 ps) (parameter 1 ps) (parameter 2 ps)
                (parameter 3 ps) (now req) db with
        | inl _ => reply_with req db (Redirect "/admin?msg=error")
        | inr (db', _) =>
            {| answer := Redirect "/admin?msg=ok";
               store := db';
               session_after := session req |}
        end
    end.

(** The two deletes.  Their callback does not look at [err]: when the
    call fails the store is as it was and the reply is the same.  A
    parameter that is NULL is equal to no slug and to no id. *)
Definition admin_posts_delete (req : request) (db : DB) : outcome :=
  match param "slug" (body req) with
  | Some slug =>
      if negb (truthy (Some slug))
      then reply_with req db (Redirect "/admin?msg=missing")
      else {| answer := Redirect "/admin?msg=deleted";
              store :=
                match bind_array [slug] with
                | Some ps =>
                    match parameter 0 ps with
                    | Some s => delete_post s db
                    | None => db
                    end
                | None => db
                end;
              session_after := session req |}
  | None => reply_with req db (Redirect "/admin?msg=missing")
  end.

Definition admin_messages_delete (req : request) (db : DB) : outcome :=
  match param "id" (body req) with
  | Some id =>
      if negb (truthy (Some id))
      then reply_with req db (Redirect "/admin?msg=missing")
      else {| answer := Redirect "/admin?msg=deleted";
              store :=
                match bind_array [id] with
                | Some ps =>
                    match parameter 0 ps with
                    | Some s => delete_message as_rowid s db
                    | None => db
                    end
                | None => db
                end;
              session_after := session req |}
  | None => reply_with req db (Redirect "/admin?msg=missing")
  end.

(** The application: each route with its middleware and handler. *)
Definition handle (req : request) (db : DB) : outcome :=
  match target req with
  | GET_home => home req db
  | GET_post slug => post_page slug req db
  | POST_api_contact => api_contact req db
  | GET_favicon => favicon req db
  | GET_admin_login => admin_login_page req db
  | POST_admin_login => admin_login req db
  | GET_admin_logout => admin_logout req db
  | GET_admin => requireAdmin req db admin
  | POST_admin_posts => requireAdmin req db admin_posts
  | POST_admin_posts_delete => requireAdmin req db admin_posts_delete
  | POST_admin_messages_delete => requireAdmin req db admin_messages_delete
  end.

(** The store after a sequence of requests, each one handled on the store
    the one before it left. *)
Definition after (reqs : list request) (db : DB) : DB :=
  fold_left (fun d req => store (handle req d)) reqs db.

End Routes.

(** An instance of [driver] to run the model with.  It follows the rule of
    node-sqlite3 for a call whose first argument is an array of text: the
    elements of the array are the parameters of the statement, and the
    other arguments are not bound.  Every other call fails. *)
Definition array_first (args : list (option field_value))
  : option (list (option string)) :=
  match args with
  | Some (Array items) :: _ => texts (map Some items)
  | _ => None
  end.

(** The session of an authenticated administrator. *)
Definition is_admin (s : option Session) : bool :=
  match s with
  | Some x => isAdmin x
  | None => false
  end.

Definition is_redirect (r : reply) : bool :=
  match r with
  | Redirect _ => true
  | _ => false
  end.

(** The routes whose handler runs a statement that writes to [messages],
    to [posts], and the routes that assign to or destroy the session. *)
Definition writes_messages (r : route) : bool :=
  match r with
  | POST_api_contact | POST_admin_messages_delete => true
  | _ => false
  end.

Definition writes_posts (r : route) : bool :=
  match r with
  | POST_admin_posts | POST_admin_posts_delete => true
  | _ => false
  end.

Definition writes_session (r : route) : bool :=
  match r with
  | POST_admin_login | GET_admin_logout => true
  | _ => false
  end.

(** The session the middleware makes for a client that sends no cookie
    of a stored session: an object with no field of the application. *)
Definition fresh_session : Session :=
  {| isAdmin := false; adminEmail := None |}.

End Server.

(** ** The browser application: the post list of App.jsx *)

Module Browser.
Import Text.

(** A post as App.jsx keeps it; [None] is [undefined]. *)
Record Post : Type := {
  id : option string;
  title : string;
  content : string;
  createdAt : option string
}.

(** The form of PostModal: the fields the user edits. *)
Record Form : Type := {
  form_title : string;
  form_content : string
}.

(** [{...form, id: post?.id,
      createdAt: post?.createdAt ?? new Date().toISOString()}],
    the argument of [onSave]; [post] is the post being edited, [None]
    (null) for a new one, and [iso] the clock's [toISOString()]. *)
Definition saved (post : option Post) (form : Form) (iso : string) : Post :=
  {| id := match post with Some p => id p | None => None end;
     title := form_title form;
     content := form_content form;
     createdAt :=
       match match post with Some p => createdAt p | None => None end with
       | Some t => Some t
       | None => Some iso
       end |}.

(** Truthiness of [post.id]. *)
Definition has_id (p : Post) : bool :=
  match id p with
  | Some s => negb (String.eqb s EmptyString)
  | None => false
  end.

(** [p.id === post.id]. *)
Definition same_id (a b : option string) : bool :=
  match a, b with
  | Some x, Some y => String.eqb x y
  | None, None => true
  | _, _ => false
  end.

(** The updater [upsertPost] hands to [setPosts]; [now] is [Date.now()].
    [post.id = Date.now().toString()] assigns to the argument itself:
    the post that is put in the list is the argument with its id set. *)
Definition upsertPost (post : Post) (now : Z) (prev : list Post) : list Post :=
  if negb (has_id post)
  then {| id := Some (decimal now); title := title post;
          content := content post; createdAt := createdAt post |} :: prev
  else map (fun p => if same_id (id p) (id post) then post else p) prev.

(** [removePost]: [prev.filter(p => p.id !== id)]. *)
Definition removePost (i : option string) (prev : list Post) : list Post :=
  filter (fun p => negb (same_id (id p) i)) prev.

(** The Save button of PostModal. *)
Definition save (post : option Post) (form : Form) (now : Z) (iso : string)
  (prev : list Post) : list Post :=
  upsertPost (saved post form iso) now prev.

Definition samplePosts (iso : string) : list Post :=
  [ {| id := Some "b1"%string; title := "Welcome";
       content := "This is your first post. Edit or delete it!";
       createdAt := Some iso |} ].

End Browser.

(** ** The projects of App.jsx *)

Module Portfolio.
Import Text.

(** A project as App.jsx keeps it; [None] is [undefined]. *)
Record Project : Type := {
  id : option string;
  title : string;
  description : string;
  lang : string;
  repo : string;
  live : string
}.

(** The form of ProjectModal: the fields the user edits. *)
Record Form : Type := {
  form_title : string;
  form_description : string;
  form_lang : string;
  form_repo : string;
  form_live : string
}.

(** The form of a new project:
    [{title:'', description:'', lang:'JavaScript', repo:'', live:''}]. *)
Definition blank : Form :=
  {| form_title := EmptyString; form_description := EmptyString;
     form_lang := "JavaScript"; form_repo := EmptyString;
     form_live := EmptyString |}.

(** The form of a project being edited: [{...project}]. *)
Definition form_of (p : Project) : Form :=
  {| form_title := title p; form_description := description p;
     form_lang := lang p; form_repo := repo p; form_live := live p |}.

(** [{...form, id: project?.id}], the argument of [onSave]; [project] is
    the project being edited, [None] (null) for a new one. *)
Definition saved (project : option Project) (form : Form) : Project :=
  {| id := match project with Some p => id p | None => None end;
     title := form_title form;
     description := form_description form;
     lang := form_lang form;
     repo := form_repo form;
     live := form_live form |}.

(** Truthiness of [proj.id]. *)
Definition has_id (p : Project) : bool :=
  match id p with
  | Some s => negb (String.eqb s EmptyString)
  | None => false
  end.

(** The updater [upsertProject] hands to [setProjects]; [now] is
    [Date.now()]. *)
Definition upsertProject (proj : Project) (now : Z) (prev : list Project)
  : list Project :=
  if negb (has_id proj)
  then {| id := Some (decimal now); title := title proj;
          description := description proj; lang := lang proj;
          repo := repo proj; live := live proj |} :: prev
  else map (fun p => if Browser.same_id (id p) (id proj) then proj else p) prev.

(** [removeProject]: [prev.filter(p => p.id !== id)]. *)
Definition removeProject (i : option string) (prev : list Project)
  : list Project :=
  filter (fun p => negb (Browser.same_id (id p) i)) prev.

(** The Save button of ProjectModal. *)
Definition save (project : option Project) (form : Form) (now : Z)
  (prev : list Project) : list Project :=
  upsertProject (saved project form) now prev.

(** [new Set(values)] and [Array.from] of it: a set keeps its elements in
    the order they were first added. *)
Definition Set_add (s : list string) (x : string) : list string :=
  if existsb (String.eqb x) s then s else s ++ [x].

Definition Set_from (values : list string) : list string :=
  fold_left Set_add values [].

(** [['All', ...Array.from(new Set(projects.map(p=>p.lang)))]]. *)
Definition languages (projects : list Project) : list string :=
  "All"%string :: Set_from (map lang projects).

(** [hay.startsWith(needle)] and [hay.includes(needle)]. *)
Fixpoint starts_with (needle hay : string) : bool :=
  match needle, hay with
  | EmptyString, _ => true
  | String a needle', String b hay' => Ascii.eqb a b && starts_with needle' hay'
  | String _ _, EmptyString => false
  end.

Fixpoint includes (hay needle : string) : bool :=
  starts_with needle hay ||
  match hay with
  | EmptyString => false
  | String _ hay' => includes hay' needle
  end.

Section Search.

(** [String.prototype.toLowerCase], which follows the Unicode tables; the
    statements below hold for any function. *)
Variable toLowerCase : string -> string.

(** The test of [filtered]:
    [(filterLang==='All' || p.lang===filterLang) &&
     (p.title.toLowerCase().includes(query.toLowerCase()) ||
      p.description.toLowerCase().includes(query.toLowerCase()))]. *)
Definition shown (query filterLang : string) (p : Project) : bool :=
  (String.eqb filterLang "All" || String.eqb (lang p) filterLang) &&
  (includes (toLowerCase (title p)) (toLowerCase query) ||
   includes (toLowerCase (description p)) (toLowerCase query)).

Definition filtered (projects : list Project) (query filterLang : string)
  : list Project :=
  filter (shown query filterLang) projects.

End Search.

Definition sampleProjects : list Project :=
  [ {| id := Some "p1"%string; title := "Training Gym Website";
       description := "Simple landing page and scheduling UI.";
       lang := "HTML/CSS/JS"; repo := "#"; live := "https://example.com" |};
    {| id := Some "p2"%string; title := "Task Manager";
       description := "React app with localStorage and tags.";
       lang := "React"; repo := "#"; live := "#" |} ].

End Portfolio.

(** ** Sample data to run the model on *)

Module Samples.
Import Text Store Server.

(** The defaults server.js falls back on. *)
Definition cfg : Config :=
  {| ADMIN_EMAIL := "admin@example.com"; ADMIN_PASSWORD := "admin123" |}.

Definition administrator : option Session :=
  Some {| isAdmin := true; adminEmail := Some "admin@example.com"%string |}.

Definition hello : Post :=
  {| post_id := 1; post_slug := "hello"; post_title := "Hello";
     post_excerpt := Some "First post"%string;
     post_content := Some "# Hi"%string;
     post_created_at := "2024-01-01 10:00:00" |}.

Definition greeting : Message :=
  {| msg_id := 1; msg_name := "Ada"; msg_email := "ada@example.org";
     msg_message := "Hi <there>"; msg_created_at := "2024-01-01 09:00:00" |}.

(** A store that has assigned one id in each table. *)
Definition db1 : DB :=
  {| messages := [greeting]; messages_seq := 1;
     posts := [hello]; posts_seq := 1 |}.

Definition request_for (r : route) (s : option Session)
  (b : list (string * field_value)) : request :=
  {| target := r; session := s; body := b; query_error := None;
     now := "2024-01-02 12:00:00"; year := 2024 |}.

(** An administrator saves the form of the dashboard under the slug of the
    stored post. *)
Definition edit_hello : request :=
  request_for POST_admin_posts administrator
    [("slug", Text "hello"); ("title", Text "Hello again"); ("excerpt", Text "Second take");
     ("content", Text "Rewritten")]%string.

Definition contact : request :=
  request_for POST_api_contact None
    [("name", Text "Bob"); ("email", Text "bob@example.org"); ("message", Text "Hello")]%string.

(** The body of [name=Bob&name=Rob&email=...&message=Hello]: the key that
    is sent twice becomes an array. *)
Definition contact_with_two_names : request :=
  request_for POST_api_contact None
    [("name", Array [Text "Bob"; Text "Rob"]);
     ("email", Text "bob@example.org"); ("message", Text "Hello")]%string.

Definition contact_without_email : request :=
  request_for POST_api_contact None
    [("name", Text "Bob"); ("message", Text "Hello")]%string.

Definition visitor_posts : request :=
  request_for POST_admin_posts None
    [("slug", Text "hello"); ("title", Text "Taken over"); ("content", Text "x")]%string.

Definition delete_absent_post : request :=
  request_for POST_admin_posts_delete administrator [("slug", Text "nothing")]%string.

Definition delete_absent_message : request :=
  request_for POST_admin_messages_delete administrator [("id", Text "7")]%string.

(** A line feed, and two lines of markdown with a blank line between. *)
Definition LF : string := String "010"%char EmptyString.

Definition two_paragraphs : string := ("a" ++ LF ++ LF ++ "b")%string.

(** A post whose slug holds a single quote. *)
Definition quoted : Post :=
  {| post_id := 2; post_slug := "it's"; post_title := "It is";
     post_excerpt := None; post_content := Some "x"%string;
     post_created_at := "2024-01-03 08:00:00" |}.

(** A store that holds this post alone. *)
Definition db_quoted : DB :=
  {| messages := []; messages_seq := 0; posts := [quoted]; posts_seq := 2 |}.

(** A post of the browser application and an edit of it. *)
Definition welcome : Browser.Post :=
  {| Browser.id := Some "b1"%string; Browser.title := "Welcome";
     Browser.content := "This is your first post. Edit or delete it!";
     Browser.createdAt := Some "2024-01-01T10:00:00.000Z"%string |}.

Definition other : Browser.Post :=
  {| Browser.id := Some "1704103200000"%string; Browser.title := "Second";
     Browser.content := "More"; Browser.createdAt := Some
       "2024-01-01T10:00:00.000Z"%string |}.

Definition edited : Browser.Form :=
  {| Browser.form_title := "Welcome back"; Browser.form_content := "Edited" |}.

(** The letters A to Z to lower case, every other byte unchanged: what
    [toLowerCase] does on ASCII text. *)
Definition ascii_lower (c : ascii) : ascii :=
  let n := nat_of_ascii c in
  if (65 <=? n) && (n <=? 90) then ascii_of_nat (n + 32) else c.

Fixpoint lower (s : string) : string :=
  match s with
  | EmptyString => EmptyString
  | String c s' => String (ascii_lower c) (lower s')
  end.

(** The first of the sample projects. *)
Definition gym : Portfolio.Project :=
  {| Portfolio.id := Some "p1"%string;
     Portfolio.title := "Training Gym Website";
     Portfolio.description := "Simple landing page and scheduling UI.";
     Portfolio.lang := "HTML/CSS/JS"; Portfolio.repo := "#";
     Portfolio.live := "https://example.com" |}.

Definition gym_edit : Portfolio.Form :=
  {| Portfolio.form_title := "Gym"; Portfolio.form_description := "Landing page";
     Portfolio.form_lang := "React"; Portfolio.form_repo := "#";
     Portfolio.form_live := "#" |}.

(** A visitor logs in with the configured credentials. *)
Definition login : request :=
  request_for POST_admin_login (Some fresh_session)
    [("email", Text "admin@example.com"); ("password", Text "admin123")]%string.

Definition wrong_password : request :=
  request_for POST_admin_login (Some fresh_session)
    [("email", Text "admin@example.com"); ("password", Text "guess")]%string.

Definition post_without_title : request :=
  request_for POST_admin_posts administrator
    [("slug", Text "second"); ("title", Text EmptyString); ("content", Text "Text")]%string.

Definition new_post : request :=
  request_for POST_admin_posts administrator
    [("slug", Text "second"); ("title", Text "Second"); ("content", Text "Text")]%string.

Definition delete_hello : request :=
  request_for POST_admin_posts_delete administrator [("slug", Text "hello")]%string.

Definition delete_greeting : request :=
  request_for POST_admin_messages_delete administrator [("id", Text "1")]%string.

Definition delete_second_message : request :=
  request_for POST_admin_messages_delete administrator [("id", Text "2")]%string.

Definition read_hello : request :=
  request_for (GET_post "hello") None [].

Definition read_second : request :=
  request_for (GET_post "second") None [].

(** Number::toString for the finite numbers the samples use: none. *)
Definition no_digits (negative : bool) (m : positive) (e : Z) : string :=
  EmptyString.

End Samples.

(* ================================================================= *)
(** * Part II.  Properties *)
(* ================================================================= *)

Unset Implicit Arguments.
Import Text Html Store Server.

(** ** The store *)

Lemma ascii_compare_cases (a b : ascii) :
  (Ascii.compare a b = Eq /\ a = b) \/
  (Ascii.compare a b = Lt /\ (N_of_ascii a < N_of_ascii b)%N) \/
  (Ascii.compare a b = Gt /\ (N_of_ascii b < N_of_ascii a)%N).
Proof.
  unfold Ascii.compare.
  destruct (N.compare_spec (N_of_ascii a) (N_of_ascii b)) as [Heq|Hlt|Hgt].
  - left. split; [reflexivity|].
    rewrite <- (ascii_N_embedding a), <- (ascii_N_embedding b), Heq.
    reflexivity.
  - right. left. split; [reflexivity|exact Hlt].
  - right. right. split; [reflexivity|exact Hgt].
Qed.

(** The byte order of SQLite's BINARY collation is transitive. *)
Lemma string_leb_trans (a b c : string) :
  String.leb a b = true -> String.leb b c = true -> String.leb a c = true.
Proof.
  unfold String.leb. revert b c.
  induction a as [|x a IH]; intros [|y b] [|z c]; simpl; try congruence.
  destruct (ascii_compare_cases x y) as [[E1 H1]|[[E1 H1]|[E1 H1]]];
    destruct (ascii_compare_cases y z) as [[E2 H2]|[[E2 H2]|[E2 H2]]];
    destruct (ascii_compare_cases x z) as [[E3 H3]|[[E3 H3]|[E3 H3]]];
    rewrite E1, E2, E3; subst; try congruence; try lia.
  apply IH.
Qed.

Section OrderByFacts.

Variable Row : Type.
Variable key : Row -> string.

Lemma insert_desc_hd (x y : Row) (l : list Row) :
  Store.not_older key y x ->
  HdRel (Store.not_older key) y l ->
  HdRel (Store.not_older key) y (Store.insert_desc key x l).
Proof.
  intros Hyx Hl. destruct l as [|z l]; simpl.
  - constructor. exact Hyx.
  - destruct (String.leb (key z) (key x)); constructor.
    + exact Hyx.
    + inversion Hl; assumption.
Qed.

Lemma insert_desc_sorted (x : Row) (l : list Row) :
  Sorted (Store.not_older key) l ->
  Sorted (Store.not_older key) (Store.insert_desc key x l).
Proof.
  induction l as [|y l IH]; intros Hs; simpl.
  - repeat constructor.
  - destruct (String.leb (key y) (key x)) eqn:E.
    + constructor; [exact Hs | constructor; exact E].
    + inversion Hs as [|? ? Hl Hhd]; subst.
      constructor; [apply IH; exact Hl|].
      apply insert_desc_hd; [|exact Hhd].
      unfold Store.not_older.
      destruct (String.leb_total (key x) (key y)) as [H|H]; [exact H|congruence].
Qed.

Lemma not_older_trans : Relations_1.Transitive (Store.not_older key).
Proof.
  intros a b c Hab Hbc. unfold Store.not_older in *.
  exact (string_leb_trans _ _ _ Hbc Hab).
Qed.

Lemma order_by_desc_sorted (l : list Row) :
  Store.newest_first key (Store.order_by_desc key l).
Proof.
  apply Sorted_StronglySorted; [exact not_older_trans|].
  induction l as [|x l IH]; simpl; [constructor|].
  apply insert_desc_sorted, IH.
Qed.

Lemma insert_desc_perm (x : Row) (l : list Row) :
  Permutation (x :: l) (Store.insert_desc key x l).
Proof.
  induction l as [|y l IH]; simpl; [reflexivity|].
  destruct (String.leb (key y) (key x)); [reflexivity|].
  rewrite perm_swap. constructor. exact IH.
Qed.

Lemma order_by_desc_perm (l : list Row) :
  Permutation l (Store.order_by_desc key l).
Proof.
  induction l as [|x l IH]; simpl; [constructor|].
  rewrite <- insert_desc_perm. constructor. exact IH.
Qed.

End OrderByFacts.

Lemma fold_max_ge (ids : list Z) (i : Z) :
  In i ids -> (i <= fold_right Z.max 0 ids)%Z.
Proof.
  induction ids as [|j ids IH]; simpl; [tauto|].
  intros [->|Hin]; [lia|]. specialize (IH Hin). lia.
Qed.

Lemma next_rowid_fresh (ids : list Z) (seq i : Z) :
  In i ids -> (i < Store.next_rowid ids seq)%Z.
Proof.
  intros Hin. unfold Store.next_rowid.
  pose proof (fold_max_ge ids i Hin). lia.
Qed.

Lemma filter_all {T : Type} (f : T -> bool) (l : list T) :
  (forall x, In x l -> f x = true) -> filter f l = l.
Proof.
  induction l as [|x l IH]; simpl; intros Hall; [reflexivity|].
  rewrite (Hall x (or_introl eq_refl)). f_equal. apply IH.
  intros y Hy. apply Hall. right. exact Hy.
Qed.

Lemma find_none_filter {T : Type} (f : T -> bool) (l : list T) :
  find f l = None -> filter (fun x => negb (f x)) l = l.
Proof.
  intros Hnone. apply filter_all. intros x Hx.
  rewrite (find_none f l Hnone x Hx). reflexivity.
Qed.

Lemma find_app_absent {T : Type} (f : T -> bool) (l : list T) (x : T) :
  (forall y, In y l -> f y = false) -> f x = true -> find f (l ++ [x]) = Some x.
Proof.
  induction l as [|y l IH]; simpl; intros Hl Hx.
  - rewrite Hx. reflexivity.
  - rewrite (Hl y (or_introl eq_refl)). apply IH; [|exact Hx].
    intros z Hz. apply Hl. right. exact Hz.
Qed.

Lemma filter_filter_neg {T : Type} (f : T -> bool) (l : list T) :
  filter f (filter (fun x => negb (f x)) l) = [].
Proof.
  induction l as [|x l IH]; simpl; [reflexivity|].
  destruct (f x) eqn:E; simpl; [exact IH|]. rewrite E. exact IH.
Qed.

Lemma filter_idem {T : Type} (f : T -> bool) (l : list T) :
  filter f (filter f l) = filter f l.
Proof.
  apply filter_all. intros x Hx. apply filter_In in Hx. tauto.
Qed.

Lemma truthy_some (s : string) :
  s <> EmptyString -> Server.truthy (Some (Server.Text s)) = true.
Proof.
  intros Hs. simpl. destruct (String.eqb_spec s EmptyString); [contradiction|reflexivity].
Qed.

Lemma db_eta (db : Store.DB) :
  {| Store.messages := Store.messages db; Store.messages_seq := Store.messages_seq db;
     Store.posts := Store.posts db; Store.posts_seq := Store.posts_seq db |} = db.
Proof. destruct db; reflexivity. Qed.

(** ** The routes *)

Section RouteFacts.

Variable cfg : Config.
Variable as_rowid : string -> option Z.
Variable driver : list (option field_value) -> option (list (option string)).

(** C8.  In every state of the store, the list of posts (GET / and GET
    /admin) and the list of messages (GET /admin) are sorted newest first:
    no row stands before a row whose created_at is greater.  Each list
    holds exactly the rows of its table (for posts, without the column
    content, which the query does not select). *)
Theorem lists_are_newest_first (db : DB) :
  newest_first post_created_at (all_posts db) /\
  newest_first msg_created_at (all_messages db) /\
  Permutation (all_posts db) (map without_content (posts db)) /\
  Permutation (all_messages db) (messages db).
Proof.
  unfold all_posts, all_messages.
  split; [apply order_by_desc_sorted|].
  split; [apply order_by_desc_sorted|].
  split; symmetry; apply order_by_desc_perm.
Qed.

(** C3, as the code has it.  A POST /api/contact whose body has a name,
    an email and a message that are text and not empty inserts exactly
    one row into messages, holding the three fields and the current time,
    under an id greater than every id in the table; the reply is the
    success object with that id.  The posts are untouched. *)
Theorem contact_inserts_one_row (req : request) (db : DB) (n e m : string) :
  target req = POST_api_contact ->
  param "name" (body req) = Some (Text n) -> n <> EmptyString ->
  param "email" (body req) = Some (Text e) -> e <> EmptyString ->
  param "message" (body req) = Some (Text m) -> m <> EmptyString ->
  exists id : Z,
    answer (handle cfg as_rowid driver req db) = Json 200 (success_json id) /\
    messages (store (handle cfg as_rowid driver req db)) =
      messages db ++
      [{| msg_id := id; msg_name := n; msg_email := e; msg_message := m;
          msg_created_at := now req |}] /\
    (forall old, In old (messages db) -> (msg_id old < id)%Z) /\
    posts (store (handle cfg as_rowid driver req db)) = posts db.
Proof.
  intros Ht Hn Hn' He He' Hm Hm'.
  unfold handle. rewrite Ht. unfold api_contact.
  rewrite Hn, He, Hm, !truthy_some by assumption. simpl.
  eexists. split; [reflexivity|]. split; [reflexivity|]. split; [|reflexivity].
  intros old Hold. apply next_rowid_fresh, in_map, Hold.
Qed.

(** C4.  A POST /api/contact in which name, email or message is missing is
    answered with status 400, and the store is left as it was. *)
Theorem contact_missing_field_is_400 (req : request) (db : DB) :
  target req = POST_api_contact ->
  param "name" (body req) = None \/
  param "email" (body req) = None \/
  param "message" (body req) = None ->
  answer (handle cfg as_rowid driver req db) =
    Json 400 (error_json "name, email and message required") /\
  store (handle cfg as_rowid driver req db) = db.
Proof.
  intros Ht Hmiss.
  unfold handle. rewrite Ht. unfold api_contact.
  assert (Hfalsy : negb (truthy (param "name" (body req))) ||
                   negb (truthy (param "email" (body req))) ||
                   negb (truthy (param "message" (body req))) = true).
  { destruct Hmiss as [H|[H|H]]; rewrite H; simpl.
    - reflexivity.
    - rewrite orb_true_r. reflexivity.
    - apply orb_true_r. }
  rewrite Hfalsy. split; reflexivity.
Qed.

Lemma requireAdmin_refuses (req : request) (db : DB)
  (next : request -> DB -> outcome) :
  is_admin (session req) = false ->
  requireAdmin req db next = reply_with req db (Redirect "/admin/login").
Proof.
  unfold is_admin, requireAdmin.
  destruct (session req) as [s|]; [|reflexivity].
  intros ->. reflexivity.
Qed.

Lemma requireAdmin_admits (req : request) (db : DB)
  (next : request -> DB -> outcome) :
  is_admin (session req) = true -> requireAdmin req db next = next req db.
Proof.
  unfold is_admin, requireAdmin.
  destruct (session req) as [s|]; [|discriminate].
  intros ->. reflexivity.
Qed.

(** Without an administrator's session no route deletes a message or
    touches a post: the only change left is the row /api/contact adds. *)
Lemma visitor_keeps_store (req : request) (db : DB) :
  is_admin (session req) = false ->
  posts (store (handle cfg as_rowid driver req db)) = posts db /\
  incl (messages db) (messages (store (handle cfg as_rowid driver req db))).
Proof.
  intros Hvisitor. unfold handle.
  destruct (target req); try rewrite requireAdmin_refuses by assumption;
    try (split; [reflexivity|apply incl_refl]).
  - unfold post_page. destruct (get_post db slug); split; try reflexivity; apply incl_refl.
  - unfold api_contact.
    destruct (negb (truthy (param "name" (body req))) || _ || _);
      [split; [reflexivity|apply incl_refl]|].
    destruct (bind driver _) as [ps|];
      [|split; [reflexivity|apply incl_refl]].
    destruct (insert_message _ _ _ _ db) as [err|[db' lastID]] eqn:E;
      [split; [reflexivity|apply incl_refl]|].
    unfold insert_message in E.
    destruct (parameter 0 ps), (parameter 1 ps), (parameter 2 ps);
      try discriminate.
    injection E as <- _. simpl. split; [reflexivity|].
    apply incl_appl, incl_refl.
  - unfold admin_login_page.
    destruct (session req) as [[[|] ?]|]; split; try reflexivity; apply incl_refl.
  - unfold admin_login.
    destruct (_ && _); [|split; [reflexivity|apply incl_refl]].
    destruct (session req); split; try reflexivity; apply incl_refl.
  - unfold admin_logout.
    destruct (session req); split; try reflexivity; apply incl_refl.
Qed.

(** C2.  A request without a session, or whose session is not an
    administrator's, gets from GET /admin, POST /admin/posts, POST
    /admin/posts/delete and POST /admin/messages/delete a redirect to
    /admin/login (a reply, not a fault) and leaves store and session as
    they were.  Hence, on any route, such a request changes no post and
    deletes no message. *)
Theorem admin_routes_need_admin (req : request) (db : DB) :
  is_admin (session req) = false ->
  (In (target req)
      [GET_admin; POST_admin_posts; POST_admin_posts_delete;
       POST_admin_messages_delete] ->
   handle cfg as_rowid driver req db =
     {| answer := Redirect "/admin/login"; store := db;
        session_after := session req |}) /\
  posts (store (handle cfg as_rowid driver req db)) = posts db /\
  incl (messages db) (messages (store (handle cfg as_rowid driver req db))).
Proof.
  intros Hvisitor. split; [|apply visitor_keeps_store; exact Hvisitor].
  intros Hroute. unfold handle.
  simpl in Hroute.
  destruct Hroute as [<-|[<-|[<-|[<-|[]]]]];
    apply requireAdmin_refuses; exact Hvisitor.
Qed.

(** C7.  POST /admin/posts/delete with a slug no post has, and POST
    /admin/messages/delete with an id no message has, leave the store as
    it was and are answered with a redirect, whoever sends them.  (The
    slug and the id are the text the field holds, if the body has the
    field.) *)
Theorem delete_of_absent_row_is_noop (req : request) (db : DB) :
  (target req = POST_admin_posts_delete ->
   (forall v, param "slug" (body req) = Some v ->
              exists slug, v = Text slug /\ get_post db slug = None) ->
   store (handle cfg as_rowid driver req db) = db /\
   is_redirect (answer (handle cfg as_rowid driver req db)) = true) /\
  (target req = POST_admin_messages_delete ->
   (forall v, param "id" (body req) = Some v ->
              exists id, v = Text id /\
                         forall m, In m (messages db) ->
                                   rowid_is as_rowid id (msg_id m) = false) ->
   store (handle cfg as_rowid driver req db) = db /\
   is_redirect (answer (handle cfg as_rowid driver req db)) = true).
Proof.
  split; intros Ht Habsent; unfold handle; rewrite Ht; unfold requireAdmin.
  - destruct (session req) as [[[|] ?]|]; simpl; try (split; reflexivity).
    unfold admin_posts_delete.
    destruct (param "slug" (body req)) as [v|] eqn:E; [|split; reflexivity].
    destruct (Habsent v eq_refl) as (slug & -> & Hnone).
    destruct (negb (truthy (Some (Text slug)))); [split; reflexivity|].
    simpl. split; [|reflexivity].
    unfold delete_post. unfold get_post in Hnone.
    rewrite (find_none_filter _ _ Hnone). apply db_eta.
  - destruct (session req) as [[[|] ?]|]; simpl; try (split; reflexivity).
    unfold admin_messages_delete.
    destruct (param "id" (body req)) as [v|] eqn:E; [|split; reflexivity].
    destruct (Habsent v eq_refl) as (id & -> & Hnone).
    destruct (negb (truthy (Some (Text id)))); [split; reflexivity|].
    simpl. split; [|reflexivity].
    unfold delete_message. rewrite filter_all; [apply db_eta|].
    intros m Hm. rewrite (Hnone m Hm). reflexivity.
Qed.

End RouteFacts.

Section UpsertFacts.

Variable cfg : Config.
Variable as_rowid : string -> option Z.
Variable driver : list (option field_value) -> option (list (option string)).

Lemma find_filter_neg_none {T : Type} (f : T -> bool) (l : list T) (y : T) :
  In y (filter (fun x => negb (f x)) l) -> f y = false.
Proof.
  intros Hy. apply filter_In in Hy. destruct Hy as [_ Hy].
  destruct (f y); [discriminate|reflexivity].
Qed.

(** C1, as the code has it.  An administrator's POST /admin/posts with the
    slug [s] of a stored post and non-empty title and content (all text,
    as is the excerpt [e] when it is sent) replaces the row: afterwards
    exactly one row has slug [s]; it holds the submitted title, excerpt
    and content and the time of the request; every other row is as
    before.  The row is deleted and inserted anew, so its id is not the
    old one: it is greater than every id the table held. *)
Theorem upsert_replaces_row_under_new_id
  (req : request) (db : DB) (s t c : string) (e : option string)
  (old : Post) :
  target req = POST_admin_posts ->
  is_admin (session req) = true ->
  param "slug" (body req) = Some (Text s) -> s <> EmptyString ->
  param "title" (body req) = Some (Text t) -> t <> EmptyString ->
  param "excerpt" (body req) = option_map Text e ->
  param "content" (body req) = Some (Text c) -> c <> EmptyString ->
  get_post db s = Some old ->
  exists new : Post,
    answer (handle cfg as_rowid driver req db) = Redirect "/admin?msg=ok" /\
    get_post (store (handle cfg as_rowid driver req db)) s = Some new /\
    filter (fun p => String.eqb (post_slug p) s)
           (posts (store (handle cfg as_rowid driver req db))) = [new] /\
    post_title new = t /\
    post_excerpt new = e /\
    post_content new = Some c /\
    post_created_at new = now req /\
    (post_id old < post_id new)%Z /\
    (forall p, In p (posts db) -> (post_id p < post_id new)%Z) /\
    filter (fun p => negb (String.eqb (post_slug p) s))
           (posts (store (handle cfg as_rowid driver req db))) =
      filter (fun p => negb (String.eqb (post_slug p) s)) (posts db) /\
    messages (store (handle cfg as_rowid driver req db)) = messages db.
Proof.
  intros Ht Hadmin Hs Hs' Htitle Htitle' He Hc Hc' Hold.
  unfold handle. rewrite Ht, requireAdmin_admits by exact Hadmin.
  unfold admin_posts.
  rewrite Hs, Htitle, He, Hc, !truthy_some by assumption.
  assert (Hbind : bind driver [Some (Text s); Some (Text t);
                               option_map Text e; Some (Text c)] =
                  Some [Some s; Some t; e; Some c])
    by (destruct e; reflexivity).
  rewrite Hbind. simpl.
  set (id := next_rowid (map post_id (posts db)) (posts_seq db)).
  set (row := {| post_id := id; post_slug := s; post_title := t;
                 post_excerpt := e;
                 post_content := Some c; post_created_at := now req |}).
  assert (Hrow : String.eqb (post_slug row) s = true) by apply String.eqb_refl.
  assert (Hfresh : forall p, In p (posts db) -> (post_id p < id)%Z).
  { intros p Hp. apply next_rowid_fresh, in_map, Hp. }
  exists row. split; [reflexivity|].
  split.
  { unfold get_post. simpl. apply find_app_absent; [|exact Hrow].
    intros y Hy.
    apply (find_filter_neg_none (fun p => String.eqb (post_slug p) s)) in Hy.
    exact Hy. }
  split.
  { rewrite filter_app, filter_filter_neg. simpl.
    rewrite String.eqb_refl. reflexivity. }
  repeat (split; [reflexivity|]).
  split.
  { apply Hfresh. unfold get_post in Hold. apply find_some in Hold. tauto. }
  split; [exact Hfresh|].
  split; [|reflexivity].
  rewrite filter_app, filter_idem. simpl.
  rewrite String.eqb_refl. simpl. apply app_nil_r.
Qed.

End UpsertFacts.

(** ** The browser's post list *)

Lemma same_id_true (a b : option string) :
  Browser.same_id a b = true <-> a = b.
Proof.
  destruct a as [x|], b as [y|]; simpl; try (split; congruence).
  rewrite String.eqb_eq. split; congruence.
Qed.

Lemma same_id_false (a b : option string) :
  a <> b -> Browser.same_id a b = false.
Proof.
  intros Hne. destruct (Browser.same_id a b) eqn:E; [|reflexivity].
  apply same_id_true in E. contradiction.
Qed.

(** C10.  Saving the edit of a post that has an id maps over the list: the
    length is kept, an element with another id stays where it was and as
    it was, an element with the edited post's id becomes the edited post,
    and the edited post has the id and the createdAt of the original.
    Saving a new post (no post being edited) puts it in front of the
    list, under an id made from the clock, [Date.now().toString()]. *)
Theorem save_edits_in_place_or_prepends
  (orig : Browser.Post) (form : Browser.Form) (now : Z) (iso stamp : string)
  (prev : list Browser.Post) :
  Browser.has_id orig = true ->
  Browser.createdAt orig = Some stamp ->
  length (Browser.save (Some orig) form now iso prev) = length prev /\
  (forall k p, nth_error prev k = Some p ->
               Browser.id p <> Browser.id orig ->
               nth_error (Browser.save (Some orig) form now iso prev) k = Some p) /\
  (forall k p, nth_error prev k = Some p ->
               Browser.id p = Browser.id orig ->
               nth_error (Browser.save (Some orig) form now iso prev) k =
                 Some {| Browser.id := Browser.id orig;
                         Browser.title := Browser.form_title form;
                         Browser.content := Browser.form_content form;
                         Browser.createdAt := Browser.createdAt orig |}) /\
  Browser.save None form now iso prev =
    {| Browser.id := Some (decimal now);
       Browser.title := Browser.form_title form;
       Browser.content := Browser.form_content form;
       Browser.createdAt := Some iso |} :: prev.
Proof.
  intros Hid Hstamp.
  assert (Hsave : Browser.save (Some orig) form now iso prev =
                  map (fun p => if Browser.same_id (Browser.id p) (Browser.id orig)
                                then Browser.saved (Some orig) form iso else p) prev).
  { unfold Browser.save, Browser.upsertPost.
    assert (Hkept : Browser.has_id (Browser.saved (Some orig) form iso) = true)
      by exact Hid.
    rewrite Hkept. reflexivity. }
  assert (Hsaved : Browser.saved (Some orig) form iso =
                   {| Browser.id := Browser.id orig;
                      Browser.title := Browser.form_title form;
                      Browser.content := Browser.form_content form;
                      Browser.createdAt := Browser.createdAt orig |}).
  { unfold Browser.saved. rewrite Hstamp. reflexivity. }
  rewrite Hsave. repeat split.
  - apply length_map.
  - intros k p Hk Hother. rewrite nth_error_map, Hk. simpl.
    rewrite same_id_false by exact Hother. reflexivity.
  - intros k p Hk Hsame. rewrite nth_error_map, Hk. simpl.
    apply same_id_true in Hsame. rewrite Hsame, Hsaved. reflexivity.
Qed.

(** ** escapeHtml on any value *)

Section ValueFacts.

Variable finite_to_string : bool -> positive -> Z -> string.

(** C9, as the code has it.  [escapeHtml] returns the empty string for
    every falsy value other than the number zero (undefined, null, false,
    NaN, the empty string, the BigInt zero), and "0" for the number zero
    of either sign.  For any other value it returns the string form of
    the value with the five replacements applied, provided the conversion
    to a string completes: this is so for every primitive value, and for
    every object whose conversion returns.  When the conversion of an
    object throws, [escapeHtml] throws the same exception. *)
Theorem escapeHtml_value_by_cases (v : JS.value) :
  (JS.ToBoolean v = false -> JS.strict_neq_zero v = true ->
   JS.escapeHtml_value finite_to_string v = JS.Normal EmptyString) /\
  (JS.strict_neq_zero v = false ->
   JS.escapeHtml_value finite_to_string v = JS.Normal "0"%string) /\
  (forall s, JS.ToBoolean v = true ->
             JS.ToString finite_to_string v = JS.Normal s ->
             JS.escapeHtml_value finite_to_string v =
               JS.Normal (text (entities (list_ascii_of_string s)))) /\
  ((forall e, v <> JS.Object (JS.Throw e)) ->
   exists s, JS.escapeHtml_value finite_to_string v = JS.Normal s) /\
  (forall e, v = JS.Object (JS.Throw e) ->
             JS.escapeHtml_value finite_to_string v = JS.Throw e).
Proof.
  split; [|split; [|split; [|split]]].
  - intros Hfalsy Hnz. unfold JS.escapeHtml_value. rewrite Hfalsy, Hnz. reflexivity.
  - intros Hz. destruct v as [| | |x| | | |]; try discriminate.
    destruct x; try discriminate. reflexivity.
  - intros s Htruthy Hs. unfold JS.escapeHtml_value. rewrite Htruthy, Hs. reflexivity.
  - intros Hconv. unfold JS.escapeHtml_value.
    destruct (negb (JS.ToBoolean v) && JS.strict_neq_zero v); [eexists; reflexivity|].
    destruct v as [| |[|]|x|z|s|d|[s|e]]; simpl; try (eexists; reflexivity).
    exfalso. apply (Hconv e). reflexivity.
  - intros e ->. reflexivity.
Qed.

End ValueFacts.

(** ** The matcher keeps what it is given

    Whatever holds of every character of the subject and of every
    character of the replacement holds of every character of the result:
    the matcher copies and inserts, it never makes a character up. *)

Section Preservation.

Context {A : Type} `{Glyphs A}.
Variable Q : A -> Prop.

Lemma Forall_firstn_of (n : nat) (l : list A) :
  Forall Q l -> Forall Q (firstn n l).
Proof.
  intros Hl. rewrite <- (firstn_skipn n l) in Hl.
  apply Forall_app in Hl. tauto.
Qed.

Lemma advance_sound (x : A) (xs : list A) (c : cursor) :
  rest c = x :: xs -> sound Q c -> sound Q (advance x xs c).
Proof.
  intros Hrest (Hb & Hr & Hg). rewrite Hrest in Hr.
  inversion Hr; subst. repeat split; simpl; auto.
Qed.

Lemma capture_sound (n : nat) (c c' : cursor) :
  sound Q c -> sound Q c' -> sound Q (capture n c c').
Proof.
  intros (_ & Hr & _) (Hb' & Hr' & Hg'). repeat split; simpl; auto.
  constructor; [|exact Hg']. simpl.
  apply Forall_firstn_of. exact Hr.
Qed.

Lemma iterate_sound (body : cursor -> list cursor) (g : bool) :
  (forall c, sound Q c -> Forall (sound Q) (body c)) ->
  forall n c, sound Q c -> Forall (sound Q) (iterate body g n c).
Proof.
  intros Hbody. induction n as [|n IH]; intros c Hc; simpl.
  - constructor; [exact Hc|constructor].
  - assert (Hagain : Forall (sound Q)
      (flat_map (fun c' => if length (rest c') <? length (rest c)
                           then iterate body g n c' else []) (body c))).
    { apply Forall_flat_map.
      eapply Forall_impl; [|apply Hbody; exact Hc].
      intros c' Hc'. destruct (_ <? _); [apply IH; exact Hc'|constructor]. }
    destruct g.
    + apply Forall_app. split; [exact Hagain|]. constructor; [exact Hc|constructor].
    + constructor; assumption.
Qed.

Lemma run_sound (r : regex) :
  forall c, sound Q c -> Forall (sound Q) (run r c).
Proof.
  induction r as [|a| | | |r1 IH1 r2 IH2|g r IH|n r IH]; intros c Hc; simpl.
  - constructor; [exact Hc|constructor].
  - destruct (rest c) as [|x xs] eqn:E; [constructor|].
    destruct (at_char a x); [|constructor].
    constructor; [apply advance_sound; assumption|constructor].
  - destruct (rest c) as [|x xs] eqn:E; [constructor|].
    destruct (newline_at (x :: xs)); [constructor|].
    constructor; [apply advance_sound; assumption|constructor].
  - destruct (before c); [|destruct (newline_before _)];
      try constructor; try exact Hc; constructor.
  - destruct (rest c); [|destruct (newline_at _)];
      try constructor; try exact Hc; constructor.
  - apply Forall_flat_map.
    eapply Forall_impl; [|apply IH1; exact Hc].
    intros c' Hc'. apply IH2. exact Hc'.
  - apply iterate_sound; assumption.
  - apply Forall_map.
    eapply Forall_impl; [|apply IH; exact Hc].
    intros c' Hc'. apply capture_sound; assumption.
Qed.

Lemma exec_at_sound (r : regex) (p s : list A) (c : cursor) :
  Forall Q p -> Forall Q s -> exec_at r p s = Some c -> sound Q c.
Proof.
  intros Hp Hs. unfold exec_at.
  assert (Hrun : Forall (sound Q) (run r {| before := p; rest := s; groups := [] |})).
  { apply run_sound. repeat split; simpl; auto. }
  destruct (run r _) as [|c' l]; simpl; [discriminate|].
  intros [= <-]. inversion Hrun; assumption.
Qed.

Lemma search_sound (r : regex) :
  forall s p skipped c,
    Forall Q p -> Forall Q s -> search r p s = Some (skipped, c) ->
    Forall Q skipped /\ sound Q c.
Proof.
  induction s as [|x xs IH]; intros p skipped c Hp Hs; simpl.
  - destruct (exec_at r p []) eqn:E; [|discriminate].
    intros [= <- <-]. split; [constructor|].
    eapply exec_at_sound; [exact Hp|exact Hs|exact E].
  - destruct (exec_at r p (x :: xs)) eqn:E.
    + intros [= <- <-]. split; [constructor|].
      eapply exec_at_sound; [exact Hp|exact Hs|exact E].
    + destruct (search r (x :: p) xs) as [[sk c']|] eqn:Es; [|discriminate].
      intros [= <- <-]. inversion Hs; subst.
      destruct (IH (x :: p) sk c') as [Hsk Hc']; auto.
Qed.

Lemma lookup_sound (n : nat) (gs : list (nat * list A)) (g : list A) :
  Forall (fun g => Forall Q (snd g)) gs -> lookup n gs = Some g -> Forall Q g.
Proof.
  induction gs as [|[m g'] gs IH]; simpl; [discriminate|].
  intros Hgs. inversion Hgs; subst.
  destruct (Nat.eqb n m); [intros [= <-]; assumption|apply IH; assumption].
Qed.

Lemma expand_sound_upto (gs : list (nat * list A)) :
  Forall (fun g => Forall Q (snd g)) gs ->
  forall n t, length t <= n ->
              Forall (fun a => Q (glyph Program a)) t ->
              Forall Q (expand t gs).
Proof.
  intros Hgs. induction n as [|n IH]; intros t Hlen Ht.
  - destruct t; [constructor|simpl in Hlen; lia].
  - destruct t as [|a t1]; [constructor|].
    simpl in Hlen. inversion Ht as [|? ? Ha Ht1]; subst.
    assert (Hverbatim : Forall Q (glyph Program a :: expand t1 gs)).
    { constructor; [exact Ha|apply IH; [lia|exact Ht1]]. }
    simpl. destruct (Ascii.eqb a "$"); [|exact Hverbatim].
    destruct t1 as [|d t2]; [exact Hverbatim|].
    destruct (digit d); [|exact Hverbatim].
    destruct (lookup n0 gs) as [g|] eqn:E; [|exact Hverbatim].
    apply Forall_app. split; [eapply lookup_sound; eauto|].
    simpl in Hlen. inversion Ht1; subst. apply IH; [lia|assumption].
Qed.

Lemma expand_sound (t : list ascii) (gs : list (nat * list A)) :
  Forall (fun a => Q (glyph Program a)) t ->
  Forall (fun g => Forall Q (snd g)) gs ->
  Forall Q (expand t gs).
Proof.
  intros Ht Hgs. apply (expand_sound_upto gs Hgs (length t)); auto.
Qed.

Lemma replace_from_sound (r : regex) (t : list ascii) :
  Forall (fun a => Q (glyph Program a)) t ->
  forall fuel p s, Forall Q p -> Forall Q s ->
                   Forall Q (replace_from fuel r t p s).
Proof.
  intros Ht. induction fuel as [|fuel IH]; intros p s Hp Hs; simpl; [exact Hs|].
  destruct (search r p s) as [[skipped c]|] eqn:E; [|exact Hs].
  destruct (search_sound r s p skipped c Hp Hs E) as [Hsk (Hb & Hr & Hg)].
  apply Forall_app. split; [exact Hsk|].
  apply Forall_app. split; [apply expand_sound; assumption|].
  destruct (_ <? _); [apply IH; assumption|].
  destruct (rest c) as [|x xs]; [constructor|].
  inversion Hr; subst. constructor; [assumption|].
  apply IH; [constructor|]; assumption.
Qed.

Lemma replace_sound (r : regex) (t : string) (s : list A) :
  Forall Q (lit t) -> Forall Q s -> Forall Q (replace r t s).
Proof.
  intros Ht Hs. unfold replace. apply replace_from_sound; auto.
  unfold lit in Ht. exact (proj1 (Forall_map _ _ _) Ht).
Qed.

Lemma split_from_sound (r : regex) :
  forall fuel p piece s,
    Forall Q p -> Forall Q piece -> Forall Q s ->
    Forall (Forall Q) (split_from fuel r p piece s).
Proof.
  induction fuel as [|fuel IH]; intros p piece s Hp Hpiece Hs; simpl.
  - constructor; [|constructor].
    apply Forall_app. split; [apply Forall_rev|]; assumption.
  - destruct s as [|x xs].
    + constructor; [apply Forall_rev; assumption|constructor].
    + inversion Hs; subst.
      assert (Hnext : Forall (Forall Q) (split_from fuel r (x :: p) (x :: piece) xs)).
      { apply IH; try constructor; assumption. }
      destruct (exec_at r p (x :: xs)) as [c|] eqn:E; [|exact Hnext].
      destruct (exec_at_sound r p (x :: xs) c Hp Hs E) as (Hb & Hr & _).
      destruct (_ && _); [exact Hnext|].
      constructor; [apply Forall_rev; assumption|].
      apply IH; auto.
Qed.

Lemma split_sound (r : regex) (s : list A) :
  Forall Q s -> Forall (Forall Q) (split r s).
Proof.
  intros Hs. unfold split. destruct s as [|x xs].
  - destruct (exec_at r [] []); repeat constructor.
  - apply split_from_sound; auto.
Qed.

End Preservation.

(** ** Replacing a single character *)

Section SingleCharacter.

Context {A : Type} `{Glyphs A}.

Lemma expand_without_groups (t : list ascii) :
  expand (A := A) t [] = map (glyph Program) t.
Proof.
  induction t as [|a t1 IH]; simpl; [reflexivity|].
  rewrite IH.
  destruct (Ascii.eqb a "$"); [|reflexivity].
  destruct t1 as [|d t2]; [reflexivity|].
  destruct (digit d); reflexivity.
Qed.

Lemma exec_at_chr (a : ascii) (p s : list A) :
  exec_at (Chr a) p s =
    match s with
    | x :: xs =>
        if at_char a x
        then Some {| before := x :: p; rest := xs; groups := [] |}
        else None
    | [] => None
    end.
Proof.
  unfold exec_at. simpl. destruct s as [|x xs]; [reflexivity|].
  destruct (at_char a x); reflexivity.
Qed.

Lemma search_chr_none (a : ascii) :
  forall s p, search (Chr a) p s = None ->
              Forall (fun x => at_char a x = false) s.
Proof.
  induction s as [|x xs IH]; intros p; [constructor|].
  simpl search. rewrite exec_at_chr.
  destruct (at_char a x) eqn:E; [discriminate|].
  destruct (search (Chr a) (x :: p) xs) as [[sk c]|] eqn:Es; [discriminate|].
  intros _. constructor; [exact E|]. apply (IH (x :: p)). exact Es.
Qed.

Lemma search_chr_some (a : ascii) :
  forall s p skipped c,
    search (Chr a) p s = Some (skipped, c) ->
    exists x, s = skipped ++ x :: rest c /\ at_char a x = true /\
              Forall (fun y => at_char a y = false) skipped /\
              groups c = [].
Proof.
  induction s as [|x xs IH]; intros p skipped c.
  - simpl. discriminate.
  - simpl search. rewrite exec_at_chr.
    destruct (at_char a x) eqn:E.
    + intros [= <- <-]. exists x. simpl. repeat split; auto.
    + destruct (search (Chr a) (x :: p) xs) as [[sk c']|] eqn:Es; [|discriminate].
      intros [= <- <-].
      destruct (IH (x :: p) sk c' Es) as (y & Hxs & Hy & Hsk & Hg).
      exists y. simpl. rewrite <- Hxs. repeat split; auto.
Qed.

Lemma flat_map_substitute_none (a : ascii) (t : string) (s : list A) :
  Forall (fun x => at_char a x = false) s -> flat_map (substitute a t) s = s.
Proof.
  induction 1 as [|x s Hx Hs IH]; simpl; [reflexivity|].
  unfold substitute at 1. rewrite Hx, IH. reflexivity.
Qed.

Lemma replace_from_chr (a : ascii) (t : string) :
  forall fuel s p,
    length s < fuel ->
    replace_from fuel (Chr a) (chars t) p s = flat_map (substitute a t) s.
Proof.
  induction fuel as [|fuel IH]; intros s p Hfuel; [lia|].
  simpl replace_from.
  destruct (search (Chr a) p s) as [[skipped c]|] eqn:E.
  - destruct (search_chr_some a s p skipped c E) as (x & Hs & Hx & Hsk & Hg).
    assert (Hlen : length s = length skipped + S (length (rest c))).
    { rewrite Hs at 1. rewrite length_app. reflexivity. }
    assert (Hlt : (length skipped + length (rest c) <? length s) = true).
    { apply Nat.ltb_lt. lia. }
    rewrite Hlt, IH by lia.
    replace (flat_map (substitute a t) s)
      with (flat_map (substitute a t) (skipped ++ x :: rest c))
      by (rewrite <- Hs; reflexivity).
    rewrite flat_map_app. simpl.
    rewrite (flat_map_substitute_none a t skipped Hsk).
    unfold substitute at 2. rewrite Hx, Hg, expand_without_groups.
    reflexivity.
  - symmetry. apply flat_map_substitute_none.
    eapply search_chr_none. exact E.
Qed.

(** [s.replace(/a/g, t)] maps over the characters of [s]. *)
Lemma replace_chr (a : ascii) (t : string) (s : list A) :
  replace (Chr a) t s = flat_map (substitute a t) s.
Proof.
  unfold replace. apply replace_from_chr. lia.
Qed.

Lemma flat_map_flat_map {X Y Z : Type} (f : X -> list Y) (g : Y -> list Z)
  (l : list X) :
  flat_map g (flat_map f l) = flat_map (fun x => flat_map g (f x)) l.
Proof.
  induction l as [|x l IH]; simpl; [reflexivity|].
  rewrite flat_map_app, IH. reflexivity.
Qed.

Lemma at_char_glyph (a c : ascii) (o : origin) :
  at_char a (glyph o c) = Ascii.eqb c a.
Proof. unfold at_char. rewrite code_glyph. reflexivity. Qed.

(** The order of the replacements is right: the entity written for one
    character is left alone by the replacements that follow. *)
Lemma entities_one (x : A) :
  flat_map (substitute "'" "&#039;")
    (flat_map (substitute dquote "&quot;")
       (flat_map (substitute ">" "&gt;")
          (flat_map (substitute "<" "&lt;") (substitute "&" "&amp;" x)))) =
  entity x.
Proof.
  unfold entity, substitute at 5.
  destruct (at_char "&" x).
  { unfold lit, chars, substitute, unquote. simpl.
    repeat (rewrite !at_char_glyph; simpl). reflexivity. }
  simpl. rewrite app_nil_r. unfold substitute at 4.
  destruct (at_char "<" x).
  { unfold lit, chars, substitute, unquote. simpl.
    repeat (rewrite !at_char_glyph; simpl). reflexivity. }
  simpl. rewrite app_nil_r. unfold substitute at 3.
  destruct (at_char ">" x).
  { unfold lit, chars, substitute, unquote. simpl.
    repeat (rewrite !at_char_glyph; simpl). reflexivity. }
  simpl. rewrite app_nil_r. unfold substitute at 2.
  destruct (at_char dquote x).
  { unfold lit, chars, substitute, unquote. simpl.
    repeat (rewrite !at_char_glyph; simpl). reflexivity. }
  simpl. rewrite app_nil_r. unfold substitute.
  destruct (at_char "'" x); reflexivity.
Qed.

Lemma entities_flat_map (s : list A) : entities s = flat_map entity s.
Proof.
  unfold entities. rewrite !replace_chr, !flat_map_flat_map.
  apply flat_map_ext. intros x.
  rewrite <- (entities_one x), !flat_map_flat_map. reflexivity.
Qed.

Lemma escapeHtml_flat_map (s : list A) : escapeHtml s = flat_map entity s.
Proof.
  destruct s as [|x s]; [reflexivity|]. apply entities_flat_map.
Qed.

End SingleCharacter.

(** ** The text functions do not look at origins

    A map between two kinds of characters that keeps the byte of every
    character and the characters of the program text commutes with every
    function of the engine and with every template.  Forgetting origins is
    such a map, so the traced pages are the pages the server sends. *)

Section Morphism.

Context {A B : Type} {HA : Glyphs A} {HB : Glyphs B}.
Variable h : A -> B.
Hypothesis h_code : forall x, code (h x) = code x.
Hypothesis h_glyph : forall o c, h (glyph o c) = glyph o c.

Lemma at_char_map (a : ascii) (x : A) : at_char a (h x) = at_char a x.
Proof. unfold at_char. rewrite h_code. reflexivity. Qed.

Lemma newline_at_map (s : list A) : newline_at (map h s) = newline_at s.
Proof.
  destruct s as [|x [|y [|z s]]]; simpl; rewrite ?at_char_map; reflexivity.
Qed.

Lemma newline_before_map (p : list A) :
  newline_before (map h p) = newline_before p.
Proof.
  destruct p as [|x [|y [|z p]]]; simpl; rewrite ?at_char_map; reflexivity.
Qed.

Lemma capture_map (n : nat) (c c' : cursor) :
  capture n (map_cursor h c) (map_cursor h c') = map_cursor h (capture n c c').
Proof.
  unfold capture, map_cursor. simpl.
  rewrite !length_map, firstn_map. reflexivity.
Qed.

Lemma flat_map_map {X Y Z : Type} (f : Y -> list Z) (g : X -> Y) (l : list X) :
  flat_map f (map g l) = flat_map (fun x => f (g x)) l.
Proof.
  induction l as [|x l IH]; simpl; [reflexivity|]. rewrite IH. reflexivity.
Qed.

Lemma map_flat_map {X Y Z : Type} (f : X -> list Y) (g : Y -> Z) (l : list X) :
  map g (flat_map f l) = flat_map (fun x => map g (f x)) l.
Proof.
  induction l as [|x l IH]; simpl; [reflexivity|].
  rewrite map_app, IH. reflexivity.
Qed.

Lemma iterate_map (bodyA : @cursor A -> list (@cursor A))
  (bodyB : @cursor B -> list (@cursor B)) (g : bool) :
  (forall c, bodyB (map_cursor h c) = map (map_cursor h) (bodyA c)) ->
  forall n c,
    iterate bodyB g n (map_cursor h c) =
    map (map_cursor h) (iterate bodyA g n c).
Proof.
  intros Hbody. induction n as [|n IH]; intros c; simpl; [reflexivity|].
  rewrite Hbody, flat_map_map.
  set (again := flat_map _ (bodyA c)).
  assert (Hagain :
    again =
    map (map_cursor h)
      (flat_map (fun c' => if length (rest c') <? length (rest c)
                           then iterate bodyA g n c' else [])
                (bodyA c))).
  { subst again. rewrite map_flat_map. apply flat_map_ext. intros c'.
    simpl. rewrite !length_map. destruct (_ <? _); [apply IH|reflexivity]. }
  rewrite Hagain. destruct g; [rewrite map_app|]; reflexivity.
Qed.

Lemma run_map (r : regex) :
  forall c, run r (map_cursor h c) = map (map_cursor h) (run r c).
Proof.
  induction r as [|a| | | |r1 IH1 r2 IH2|g r IH|n r IH];
    intros [p s gs]; cbn [run rest before groups map_cursor].
  - reflexivity.
  - destruct s as [|x xs]; [reflexivity|]. cbn [map].
    rewrite at_char_map. destruct (at_char a x); reflexivity.
  - destruct s as [|x xs]; [reflexivity|].
    rewrite newline_at_map. cbn [map].
    destruct (newline_at (x :: xs)); reflexivity.
  - destruct p as [|x xs]; [reflexivity|].
    rewrite newline_before_map. cbn [map].
    destruct (newline_before (x :: xs)); reflexivity.
  - destruct s as [|x xs]; [reflexivity|].
    rewrite newline_at_map. cbn [map].
    destruct (newline_at (x :: xs)); reflexivity.
  - change {| before := map h p; rest := map h s;
              groups := map (fun g => (fst g, map h (snd g))) gs |}
      with (map_cursor h {| before := p; rest := s; groups := gs |}).
    rewrite IH1, flat_map_map, map_flat_map.
    apply flat_map_ext. intros c'. apply IH2.
  - rewrite length_map.
    apply (iterate_map (run r) (run r) g IH (length s)
             {| before := p; rest := s; groups := gs |}).
  - change {| before := map h p; rest := map h s;
              groups := map (fun g => (fst g, map h (snd g))) gs |}
      with (map_cursor h {| before := p; rest := s; groups := gs |}).
    rewrite IH, !map_map. apply map_ext. intros c'. apply capture_map.
Qed.

Lemma exec_at_map (r : regex) (p s : list A) :
  exec_at r (map h p) (map h s) = option_map (map_cursor h) (exec_at r p s).
Proof.
  unfold exec_at.
  change {| before := map h p; rest := map h s; groups := [] |}
    with (map_cursor h {| before := p; rest := s; groups := [] |}).
  rewrite run_map. destruct (run r _); reflexivity.
Qed.

Lemma search_map (r : regex) :
  forall s p,
    search r (map h p) (map h s) =
    option_map (fun sc => (map h (fst sc), map_cursor h (snd sc)))
               (search r p s).
Proof.
  induction s as [|x xs IH]; intros p.
  - simpl search. change (@nil B) with (map h []) at 1.
    rewrite exec_at_map. destruct (exec_at r p []); reflexivity.
  - simpl search. change (h x :: map h xs) with (map h (x :: xs)).
    rewrite exec_at_map. destruct (exec_at r p (x :: xs)); [reflexivity|].
    simpl. change (h x :: map h p) with (map h (x :: p)). rewrite IH.
    destruct (search r (x :: p) xs) as [[sk c]|]; reflexivity.
Qed.

Lemma lookup_map (n : nat) (gs : list (nat * list A)) :
  lookup n (map (fun g => (fst g, map h (snd g))) gs) =
  option_map (map h) (lookup n gs).
Proof.
  induction gs as [|[m g] gs IH]; simpl; [reflexivity|].
  destruct (Nat.eqb n m); [reflexivity|exact IH].
Qed.

Lemma expand_map_upto (gs : list (nat * list A)) :
  forall n t, length t <= n ->
    expand t (map (fun g => (fst g, map h (snd g))) gs) = map h (expand t gs).
Proof.
  induction n as [|n IH]; intros t Hlen.
  - destruct t; [reflexivity|simpl in Hlen; lia].
  - destruct t as [|a t1]; [reflexivity|]. simpl in Hlen.
    assert (Hverbatim :
      glyph Program a :: map h (expand t1 gs) =
      map h (glyph Program a :: expand t1 gs)).
    { simpl. rewrite h_glyph. reflexivity. }
    cbn [expand]. rewrite (IH t1) by lia.
    destruct (Ascii.eqb a "$"); [|exact Hverbatim].
    destruct t1 as [|d t2]; [exact Hverbatim|].
    destruct (digit d) as [k|]; [|exact Hverbatim].
    rewrite lookup_map. destruct (lookup k gs); [|exact Hverbatim].
    cbn [option_map]. rewrite map_app, (IH t2) by (simpl in Hlen; lia).
    reflexivity.
Qed.

Lemma expand_map (t : list ascii) (gs : list (nat * list A)) :
  expand t (map (fun g => (fst g, map h (snd g))) gs) = map h (expand t gs).
Proof. apply (expand_map_upto gs (length t)). lia. Qed.

Lemma replace_from_map (r : regex) (t : list ascii) :
  forall fuel p s,
    replace_from fuel r t (map h p) (map h s) =
    map h (replace_from fuel r t p s).
Proof.
  induction fuel as [|fuel IH]; intros p s; [reflexivity|].
  simpl. rewrite search_map.
  destruct (search r p s) as [[skipped c]|]; simpl; [|reflexivity].
  rewrite !map_app, expand_map, !length_map.
  f_equal. f_equal.
  destruct (_ <? _); [apply IH|].
  destruct (rest c) as [|x xs]; simpl; [reflexivity|].
  f_equal. apply (IH (x :: before c) xs).
Qed.

Lemma replace_map (r : regex) (t : string) (s : list A) :
  replace r t (map h s) = map h (replace r t s).
Proof.
  unfold replace. rewrite length_map.
  apply (replace_from_map r (chars t) (S (length s)) [] s).
Qed.

Lemma split_from_map (r : regex) :
  forall fuel p piece s,
    split_from fuel r (map h p) (map h piece) (map h s) =
    map (map h) (split_from fuel r p piece s).
Proof.
  induction fuel as [|fuel IH]; intros p piece s; simpl.
  - rewrite map_app, map_rev. reflexivity.
  - destruct s as [|x xs]; simpl; [rewrite map_rev; reflexivity|].
    change (h x :: map h xs) with (map h (x :: xs)).
    rewrite exec_at_map.
    pose proof (IH (x :: p) (x :: piece) xs) as Hnext. simpl in Hnext.
    destruct (exec_at r p (x :: xs)) as [c|]; simpl; [|exact Hnext].
    rewrite !length_map.
    assert (Hempty :
      match map h piece with [] => true | _ => false end =
      match piece with [] => true | _ => false end)
      by (destruct piece; reflexivity).
    rewrite Hempty.
    destruct (_ && _); [exact Hnext|].
    cbn [map]. rewrite map_rev. f_equal.
    apply (IH (before c) [] (rest c)).
Qed.

Lemma split_map (r : regex) (s : list A) :
  split r (map h s) = map (map h) (split r s).
Proof.
  unfold split. destruct s as [|x xs].
  - simpl. change (@nil B) with (map h []). rewrite exec_at_map.
    destruct (exec_at r [] []); reflexivity.
  - change (map h (x :: xs)) with (h x :: map h xs).
    cbv iota. change (h x :: map h xs) with (map h (x :: xs)).
    rewrite length_map.
    apply (split_from_map r _ [] [] (x :: xs)).
Qed.

Lemma lit_map (s : string) : map h (lit s) = lit s.
Proof.
  unfold lit. rewrite map_map. apply map_ext. intros c. apply h_glyph.
Qed.

Lemma data_map (f : field) (s : string) : map h (data f s) = data f s.
Proof.
  unfold data. rewrite map_map. apply map_ext. intros c. apply h_glyph.
Qed.

Lemma entities_map (s : list A) : entities (map h s) = map h (entities s).
Proof. unfold entities. rewrite !replace_map. reflexivity. Qed.

Lemma escapeHtml_map (s : list A) : escapeHtml (map h s) = map h (escapeHtml s).
Proof. destruct s; [reflexivity|]. apply (entities_map (a :: s)). Qed.

Lemma inline_map (s : list A) : inline (map h s) = map h (inline s).
Proof. unfold inline. rewrite !replace_map. reflexivity. Qed.

Lemma paragraph_map (s : list A) : paragraph (map h s) = map h (paragraph s).
Proof.
  unfold paragraph. rewrite replace_map, !map_app, !lit_map. reflexivity.
Qed.

Lemma markdownToHtml_map (s : list A) :
  markdownToHtml (map h s) = map h (markdownToHtml s).
Proof.
  destruct s as [|x s]; [reflexivity|].
  change (markdownToHtml (map h (x :: s)))
    with (join (map paragraph (split re_paragraphs (inline (map h (x :: s)))))).
  change (markdownToHtml (x :: s))
    with (join (map paragraph (split re_paragraphs (inline (x :: s))))).
  rewrite inline_map, split_map. unfold join.
  rewrite concat_map, !map_map. f_equal.
  apply map_ext. intros p. apply paragraph_map.
Qed.

Lemma encodeURIComponent_map (s : list A) :
  encodeURIComponent (map h s) = map h (encodeURIComponent s).
Proof.
  unfold encodeURIComponent. rewrite flat_map_map, map_flat_map.
  apply flat_map_ext. intros x. rewrite h_code.
  destruct (unreserved (code x)); [reflexivity|].
  unfold percent. rewrite h_code. simpl. rewrite !h_glyph. reflexivity.
Qed.

Ltac push_map :=
  rewrite ?map_app;
  rewrite <- ?markdownToHtml_map, <- ?escapeHtml_map, <- ?encodeURIComponent_map;
  rewrite ?lit_map, ?data_map.

Lemma cards_map {R : Type} (cardA : R -> list A) (cardB : R -> list B)
  (rows : list R) :
  (forall r, map h (cardA r) = cardB r) ->
  map h (join (map cardA rows)) = join (map cardB rows).
Proof.
  intros Hcard. unfold join. rewrite concat_map, map_map. f_equal.
  apply map_ext. exact Hcard.
Qed.

Lemma renderPage_map (title bodyHtml : list A) (y : Z) :
  map h (renderPage title bodyHtml y) =
  renderPage (map h title) (map h bodyHtml) y.
Proof. unfold renderPage. push_map. reflexivity. Qed.

Lemma renderHome_map (projects : list Project) (posts : list Post)
  (session : option Session) :
  map h (renderHome projects posts session) =
  renderHome projects posts session.
Proof.
  unfold renderHome. push_map.
  rewrite (cards_map project_card project_card)
    by (intros p; unfold project_card; push_map; reflexivity).
  assert (Hposts :
    map h (match posts with
           | [] => lit "<p class=`muted`>No posts yet.</p>"
           | _ => join (map post_card posts)
           end) =
    match posts with
    | [] => lit "<p class=`muted`>No posts yet.</p>"
    | _ => join (map post_card posts)
    end).
  { destruct posts; [apply lit_map|].
    apply cards_map. intros p'. unfold post_card. push_map. reflexivity. }
  rewrite Hposts.
  destruct session as [[[|] ?]|]; cbn [isAdmin]; push_map; reflexivity.
Qed.

Lemma renderAdminDashboard_map (messages : list Message) (posts : list Post) :
  map h (renderAdminDashboard messages posts) =
  renderAdminDashboard messages posts.
Proof.
  unfold renderAdminDashboard. push_map.
  destruct messages as [|m messages], posts as [|p posts]; push_map;
    rewrite ?(cards_map message_card message_card)
      by (intros r; unfold message_card; push_map; reflexivity);
    rewrite ?(cards_map post_item post_item)
      by (intros r; unfold post_item; push_map; reflexivity);
    reflexivity.
Qed.

Lemma renderPost_map (row : Post) : map h (renderPost row) = renderPost row.
Proof. unfold renderPost. push_map. reflexivity. Qed.

Lemma renderAdminLogin_map (email : string) (error : option string) :
  map h (renderAdminLogin email error) = renderAdminLogin email error.
Proof.
  unfold renderAdminLogin. push_map.
  destruct error as [[|c e]|]; push_map; reflexivity.
Qed.

Lemma home_page_map (db : Store.DB) (session : option Session) (y : Z) :
  map h (Server.home_page db session y) = Server.home_page db session y.
Proof.
  unfold Server.home_page. rewrite renderPage_map, lit_map, renderHome_map.
  reflexivity.
Qed.

Lemma post_document_map (row : Post) (y : Z) :
  map h (Server.post_document row y) = Server.post_document row y.
Proof.
  unfold Server.post_document.
  rewrite renderPage_map, data_map, renderPost_map. reflexivity.
Qed.

Lemma dashboard_page_map (db : Store.DB) (y : Z) :
  map h (Server.dashboard_page db y) = Server.dashboard_page db y.
Proof.
  unfold Server.dashboard_page.
  rewrite renderPage_map, lit_map, renderAdminDashboard_map. reflexivity.
Qed.

Lemma login_page_map (email : string) (error : option string) (y : Z) :
  map h (Server.login_page email error y) = Server.login_page email error y.
Proof.
  unfold Server.login_page.
  rewrite renderPage_map, lit_map, renderAdminLogin_map. reflexivity.
Qed.

Lemma not_found_page_map (y : Z) :
  map h (Server.not_found_page y) = Server.not_found_page y.
Proof.
  unfold Server.not_found_page, renderNotFound.
  rewrite renderPage_map, !lit_map. reflexivity.
Qed.

End Morphism.

(** ** Where the special characters of a page come from *)

Lemma lit_escaped (s : string) : no_raw_special (lit s).
Proof.
  unfold lit. apply Forall_map, Forall_forall.
  intros c _ f Hf. discriminate Hf.
Qed.

Lemma data_escaped (f : field) (s : string) :
  user_supplied f = false -> no_raw_special (data f s).
Proof.
  intros Hf. unfold data. apply Forall_map, Forall_forall.
  intros c _ g Hg Hsupplied. injection Hg as <-. congruence.
Qed.

Lemma entity_escaped (x : ascii * origin) : no_raw_special (entity x).
Proof.
  unfold entity, at_char. simpl code.
  destruct (Ascii.eqb (fst x) "&") eqn:E1; [apply lit_escaped|].
  destruct (Ascii.eqb (fst x) "<") eqn:E2; [apply lit_escaped|].
  destruct (Ascii.eqb (fst x) ">") eqn:E3; [apply lit_escaped|].
  destruct (Ascii.eqb (fst x) dquote) eqn:E4; [apply lit_escaped|].
  destruct (Ascii.eqb (fst x) "'") eqn:E5; [apply lit_escaped|].
  constructor; [|constructor]. intros f _ _.
  unfold special. simpl. unfold dquote in E4.
  rewrite E1, E2, E3, E4, E5. reflexivity.
Qed.

(** Whatever the argument holds, [escapeHtml] returns a text in which no
    special character is a copy of a character of the argument. *)
Lemma escapeHtml_escaped (s : list (ascii * origin)) :
  no_raw_special (escapeHtml s).
Proof.
  rewrite escapeHtml_flat_map. apply Forall_flat_map, Forall_forall.
  intros x _. apply entity_escaped.
Qed.

Lemma replace_escaped (r : regex) (t : string) (s : list (ascii * origin)) :
  no_raw_special s -> no_raw_special (replace r t s).
Proof. intros Hs. apply replace_sound; [apply lit_escaped|exact Hs]. Qed.

Lemma markdownToHtml_escaped (s : list (ascii * origin)) :
  no_raw_special s -> no_raw_special (markdownToHtml s).
Proof.
  intros Hs. destruct s as [|x s]; [constructor|].
  change (markdownToHtml (x :: s))
    with (join (map paragraph (split re_paragraphs (inline (x :: s))))).
  unfold join. apply Forall_concat, Forall_map.
  assert (Hinline : no_raw_special (inline (x :: s))).
  { unfold inline. repeat apply replace_escaped. exact Hs. }
  eapply Forall_impl; [|apply (split_sound escaped re_paragraphs _ Hinline)].
  intros p Hp. unfold paragraph.
  repeat (apply Forall_app; split);
    try apply lit_escaped. apply replace_escaped. exact Hp.
Qed.

Lemma encodeURIComponent_escaped (s : list (ascii * origin)) :
  no_raw_special s -> no_raw_special (encodeURIComponent s).
Proof.
  intros Hs. unfold encodeURIComponent. apply Forall_flat_map.
  eapply Forall_impl; [|exact Hs].
  intros x Hx. destruct (unreserved (code x)).
  - constructor; [exact Hx|constructor].
  - unfold percent. repeat constructor; intros f Hf; discriminate Hf.
Qed.

Ltac assemble :=
  repeat (apply Forall_app; split);
  first [ apply lit_escaped
        | apply escapeHtml_escaped
        | apply data_escaped; reflexivity
        | idtac ].

Lemma cards_escaped {R : Type} (card : R -> list (ascii * origin))
  (rows : list R) :
  (forall r, no_raw_special (card r)) ->
  no_raw_special (join (map card rows)).
Proof.
  intros Hcard. unfold join. apply Forall_concat, Forall_map, Forall_forall.
  intros r _. apply Hcard.
Qed.

Lemma renderPage_escaped (title bodyHtml : list (ascii * origin)) (y : Z) :
  no_raw_special bodyHtml -> no_raw_special (renderPage title bodyHtml y).
Proof. intros Hbody. unfold renderPage. assemble. exact Hbody. Qed.

(** The home page puts the slug into a link through
    [encodeURIComponent], which keeps the unreserved characters: of the
    five special characters, the single quote alone. *)
Lemma escaped_weaken (l : list (ascii * origin)) :
  no_raw_special l -> no_raw_special_but_slug_quote l.
Proof.
  intros Hl. eapply Forall_impl; [|exact Hl]. intros x Hx. left. exact Hx.
Qed.

Lemma unreserved_special_is_quote (c : ascii) :
  unreserved c = true -> special c = true -> c = "'"%char.
Proof.
  destruct c as [[] [] [] [] [] [] [] []]; vm_compute;
    intros Hu Hs; first [discriminate Hu | discriminate Hs | reflexivity].
Qed.

Lemma encodeURIComponent_slug (s : string) :
  no_raw_special_but_slug_quote (encodeURIComponent (data PostSlug s)).
Proof.
  unfold encodeURIComponent, data. apply Forall_flat_map, Forall_map.
  apply Forall_forall. intros c _. cbn [code glyph traced fst].
  destruct (unreserved c) eqn:Hu.
  - constructor; [|constructor].
    destruct (special c) eqn:Hs.
    + right. split; [reflexivity|].
      exact (unreserved_special_is_quote c Hu Hs).
    + left. intros f _ _. exact Hs.
  - apply escaped_weaken. unfold percent.
    repeat constructor; intros f Hf; discriminate Hf.
Qed.

Ltac assemble_but_slug_quote :=
  repeat (apply Forall_app; split);
  try (apply escaped_weaken;
       first [ apply lit_escaped
             | apply escapeHtml_escaped
             | apply data_escaped; reflexivity ]).

Lemma cards_but_slug_quote {R : Type} (card : R -> list (ascii * origin))
  (rows : list R) :
  (forall r, no_raw_special_but_slug_quote (card r)) ->
  no_raw_special_but_slug_quote (join (map card rows)).
Proof.
  intros Hcard. unfold join. apply Forall_concat, Forall_map, Forall_forall.
  intros r _. apply Hcard.
Qed.

Lemma renderPage_but_slug_quote (title bodyHtml : list (ascii * origin))
  (y : Z) :
  no_raw_special_but_slug_quote bodyHtml ->
  no_raw_special_but_slug_quote (renderPage title bodyHtml y).
Proof.
  intros Hbody. unfold renderPage. assemble_but_slug_quote. exact Hbody.
Qed.

Lemma renderHome_but_slug_quote (projects : list Project) (posts : list Post)
  (session : option Session) :
  no_raw_special_but_slug_quote (renderHome projects posts session).
Proof.
  unfold renderHome. assemble_but_slug_quote.
  - apply escaped_weaken, cards_escaped. intros row.
    unfold project_card. assemble.
  - destruct posts; [apply escaped_weaken, lit_escaped|].
    apply cards_but_slug_quote. intros row. unfold post_card.
    assemble_but_slug_quote. apply encodeURIComponent_slug.
  - apply escaped_weaken.
    destruct session as [[[|] ?]|]; [apply lit_escaped|constructor|constructor].
Qed.

Lemma renderAdminDashboard_escaped (messages : list Message)
  (posts : list Post) :
  no_raw_special (renderAdminDashboard messages posts).
Proof.
  unfold renderAdminDashboard. assemble.
  - destruct messages; [apply lit_escaped|].
    apply cards_escaped. intros row. unfold message_card. assemble.
  - destruct posts; [apply lit_escaped|]. assemble.
    apply cards_escaped. intros row. unfold post_item. assemble.
Qed.

Lemma renderPost_escaped (row : Post) : no_raw_special (renderPost row).
Proof.
  unfold renderPost. assemble.
  apply markdownToHtml_escaped, escapeHtml_escaped.
Qed.

Lemma renderAdminLogin_escaped (email : string) (error : option string) :
  no_raw_special (renderAdminLogin email error).
Proof.
  unfold renderAdminLogin. assemble.
  destruct error as [[|c e]|]; [constructor|apply lit_escaped|constructor].
Qed.

(** Forgetting the origins of a traced text: the map is one the text
    functions commute with. *)
Lemma erase_keeps_code (x : ascii * origin) : code (fst x) = code x.
Proof. reflexivity. Qed.

Lemma erase_keeps_glyph (o : origin) (c : ascii) :
  fst (glyph (A := ascii * origin) o c) = glyph o c.
Proof. reflexivity. Qed.

(** C5, as the code has it.  [escapeHtml] maps over its argument and
    writes the entity of each of the five special characters in its place,
    leaving every other character as it is.  In the documents the server
    sends for GET /post/:slug and GET /admin, no special character is a
    copy of a character of a post's slug, title, excerpt or content or of
    a field of a message: each document sent is a traced document without
    its origins, and the traced document has no raw special character.
    In the document of GET / the same holds but for the single quotes of
    slugs: the home page puts the slug into a link through
    [encodeURIComponent], not [escapeHtml], and a single quote stays. *)
Theorem pages_escape_user_text :
  (forall s : list ascii, escapeHtml s = flat_map entity s) /\
  map (fun c : ascii => text (entity c)) ["&"; "<"; ">"; dquote; "'"]%char =
    ["&amp;"; "&lt;"; "&gt;"; "&quot;"; "&#039;"]%string /\
  (forall c : ascii, special c = false -> entity c = [c]) /\
  (forall (req : request) (db : DB),
      answer (home req db) =
        Send 200 (text (erase (home_page db (session req) (year req)))) /\
      no_raw_special_but_slug_quote
        (home_page db (session req) (year req))) /\
  (forall (slug : string) (req : request) (db : DB),
      match get_post db slug with
      | Some row =>
          answer (post_page slug req db) =
            Send 200 (text (erase (post_document row (year req)))) /\
          no_raw_special (post_document row (year req))
      | None =>
          answer (post_page slug req db) =
            Send 404 (text (erase (not_found_page (year req)))) /\
          no_raw_special (not_found_page (year req))
      end) /\
  (forall (req : request) (db : DB),
      answer (admin req db) =
        Send 200 (text (erase (dashboard_page db (year req)))) /\
      no_raw_special (dashboard_page db (year req))).
Proof.
  split; [exact escapeHtml_flat_map|].
  split; [reflexivity|].
  split.
  { intros c Hc. unfold special in Hc. simpl in Hc.
    repeat (apply orb_false_elim in Hc; destruct Hc as [? Hc]).
    unfold entity, at_char. simpl code. unfold dquote.
    repeat match goal with
           | E : Ascii.eqb c _ = false |- _ => rewrite E; clear E
           end.
    reflexivity. }
  split; [|split].
  - intros req db. split.
    + unfold home, erase. simpl answer.
      rewrite (home_page_map fst erase_keeps_code erase_keeps_glyph).
      reflexivity.
    + apply renderPage_but_slug_quote, renderHome_but_slug_quote.
  - intros slug req db. unfold post_page, erase.
    destruct (get_post db slug) as [row|]; simpl answer; split.
    + rewrite (post_document_map fst erase_keeps_code erase_keeps_glyph).
      reflexivity.
    + apply renderPage_escaped, renderPost_escaped.
    + rewrite (not_found_page_map fst erase_keeps_code erase_keeps_glyph).
      reflexivity.
    + apply renderPage_escaped, lit_escaped.
  - intros req db. split.
    + unfold admin, erase. simpl answer.
      rewrite (dashboard_page_map fst erase_keeps_code erase_keeps_glyph).
      reflexivity.
    + apply renderPage_escaped, renderAdminDashboard_escaped.
Qed.

(** ** markdownToHtml and its paragraphs *)

Section Backslash.

Context {A : Type} `{Glyphs A}.

Lemma exec_at_needs_first (a : ascii) (r : regex) (p s : list A) :
  match s with x :: _ => at_char a x = false | [] => True end ->
  exec_at (Cat (Chr a) r) p s = None.
Proof.
  unfold exec_at. simpl. destruct s as [|x xs]; [reflexivity|].
  intros ->. reflexivity.
Qed.

Lemma search_needs_first (a : ascii) (r : regex) :
  forall s p, Forall (fun x => at_char a x = false) s ->
              search (Cat (Chr a) r) p s = None.
Proof.
  induction s as [|x xs IH]; intros p Hs; cbn [search].
  - rewrite exec_at_needs_first; [reflexivity|exact I].
  - inversion Hs; subst.
    rewrite exec_at_needs_first by assumption.
    rewrite IH by assumption. reflexivity.
Qed.

Lemma replace_needs_first (a : ascii) (r : regex) (t : string) (s : list A) :
  Forall (fun x => at_char a x = false) s ->
  replace (Cat (Chr a) r) t s = s.
Proof.
  intros Hs. unfold replace. cbn [replace_from].
  rewrite search_needs_first by exact Hs. reflexivity.
Qed.

Lemma split_from_needs_first (a : ascii) (r : regex) :
  forall fuel p piece s,
    Forall (fun x => at_char a x = false) s ->
    split_from fuel (Cat (Chr a) r) p piece s = [rev piece ++ s].
Proof.
  induction fuel as [|fuel IH]; intros p piece s Hs; [reflexivity|].
  destruct s as [|x xs].
  - cbn [split_from]. rewrite app_nil_r. reflexivity.
  - inversion Hs; subst. cbn [split_from].
    rewrite exec_at_needs_first by assumption.
    rewrite IH by assumption. simpl. rewrite <- app_assoc. reflexivity.
Qed.

Lemma split_needs_first (a : ascii) (r : regex) (s : list A) :
  Forall (fun x => at_char a x = false) s ->
  split (Cat (Chr a) r) s = [s].
Proof.
  intros Hs. unfold split. destruct s as [|x xs].
  - rewrite exec_at_needs_first; [reflexivity|exact I].
  - apply (split_from_needs_first a r _ [] [] (x :: xs) Hs).
Qed.

Lemma lit_plain (t : string) :
  forallb (fun c => negb (Ascii.eqb c "\")) (chars t) = true ->
  Forall not_backslash (lit t).
Proof.
  intros Ht. unfold lit. apply Forall_map, Forall_forall. intros c Hc.
  unfold not_backslash. rewrite at_char_glyph.
  rewrite forallb_forall in Ht. specialize (Ht c Hc).
  destruct (Ascii.eqb c "\"); [discriminate|reflexivity].
Qed.

Lemma inline_plain (md : list A) :
  Forall not_backslash md -> Forall not_backslash (inline md).
Proof.
  intros Hmd. unfold inline.
  repeat (apply replace_sound; [apply lit_plain; reflexivity|]).
  exact Hmd.
Qed.

(** Text without a backslash is never split and gets no [<br/>], however
    many line feeds it holds: it becomes one paragraph. *)
Lemma markdownToHtml_one_paragraph (md : list A) :
  md <> [] ->
  Forall (fun x => at_char "\" x = false) md ->
  markdownToHtml md = lit "<p>" ++ inline md ++ lit "</p>".
Proof.
  intros Hne Hmd. destruct md as [|x md]; [contradiction|].
  change (markdownToHtml (x :: md))
    with (join (map paragraph (split re_paragraphs (inline (x :: md))))).
  pose proof (inline_plain (x :: md) Hmd) as Hinline.
  unfold re_paragraphs. rewrite split_needs_first by exact Hinline.
  simpl. rewrite app_nil_r. unfold paragraph, re_linebreak.
  rewrite replace_needs_first by exact Hinline. reflexivity.
Qed.

End Backslash.

Import Samples.

(** ** The properties at work on the samples *)

(** C6.  A blank line does not split the text and a line feed does not
    become [<br/>]: [markdownToHtml] gives the two lines one paragraph.
    What its patterns split and break on are the characters backslash and
    n, written out in the text. *)
Theorem markdownToHtml_ignores_blank_lines :
  text (markdownToHtml (list_ascii_of_string two_paragraphs)) =
    ("<p>a" ++ LF ++ LF ++ "b</p>")%string /\
  text (markdownToHtml (list_ascii_of_string "a\n\nb\nc")) =
    "<p>a</p><p>b<br/>c</p>"%string /\
  text (markdownToHtml
          (list_ascii_of_string ("# T" ++ LF ++ "**b** *i* [t](u)"))) =
    text (lit ("<p><h1>T</h1>" ++ LF ++
               "<strong>b</strong> <em>i</em> " ++
               "<a href=`u` target=`_blank`>t</a></p>")).
Proof.
  split; [|split]; vm_compute; reflexivity.
Qed.

(** The documents of the sample store, and [escapeHtml] on a sample. *)
Lemma pages_escape_user_text_sample :
  text (escapeHtml (list_ascii_of_string "Hi <there> & 'you'")) =
    "Hi &lt;there&gt; &amp; &#039;you&#039;"%string /\
  entity "x"%char = ["x"%char] /\
  no_raw_special (dashboard_page db1 2024) /\
  In ("<"%char, Program) (dashboard_page db1 2024) /\
  ~ In ("<"%char, Data MessageBody) (dashboard_page db1 2024).
Proof.
  destruct pages_escape_user_text as (Hmap & _ & Hother & _ & _ & Hadmin).
  split; [rewrite Hmap; reflexivity|].
  split; [apply Hother; reflexivity|].
  pose proof (proj2 (Hadmin (request_for GET_admin administrator []) db1))
    as Hsafe.
  split; [exact Hsafe|].
  split; [left; reflexivity|].
  intros Hin.
  pose proof (proj1 (Forall_forall _ _) Hsafe _ Hin MessageBody eq_refl eq_refl)
    as Hraw.
  discriminate Hraw.
Defined.

(** The amended C1 on the sample store. *)
Lemma upsert_replaces_row_under_new_id_sample :
  exists new : Post,
    answer (handle cfg decimal_rowid array_first edit_hello db1) = Redirect "/admin?msg=ok" /\
    get_post (store (handle cfg decimal_rowid array_first edit_hello db1)) "hello" = Some new /\
    filter (fun p => String.eqb (post_slug p) "hello")
           (posts (store (handle cfg decimal_rowid array_first edit_hello db1))) = [new] /\
    post_title new = "Hello again"%string /\
    post_excerpt new = Some "Second take"%string /\
    post_content new = Some "Rewritten"%string /\
    post_created_at new = now edit_hello /\
    (post_id hello < post_id new)%Z /\
    (forall p, In p (posts db1) -> (post_id p < post_id new)%Z) /\
    filter (fun p => negb (String.eqb (post_slug p) "hello"))
           (posts (store
               (handle cfg decimal_rowid array_first edit_hello db1))) =
      filter (fun p => negb (String.eqb (post_slug p) "hello")) (posts db1) /\
    messages (store
        (handle cfg decimal_rowid array_first edit_hello db1)) = messages db1.
Proof.
  apply (upsert_replaces_row_under_new_id cfg decimal_rowid array_first edit_hello db1
           "hello" "Hello again" "Rewritten" (Some "Second take"%string)
           hello);
    solve [reflexivity | discriminate].
Defined.

(** C1 as stated fails: the post stored under the slug has id 1 before the
    form is saved and id 2 after. *)
Lemma upsert_changes_the_id :
  exists before after : Post,
    get_post db1 "hello" = Some before /\
    get_post (store
        (handle cfg decimal_rowid array_first edit_hello db1)) "hello" =
      Some after /\
    post_id before = 1%Z /\ post_id after = 2%Z /\
    post_id before <> post_id after.
Proof.
  exists hello.
  exists {| post_id := 2; post_slug := "hello"; post_title := "Hello again";
            post_excerpt := Some "Second take"%string;
            post_content := Some "Rewritten"%string;
            post_created_at := "2024-01-02 12:00:00" |}.
  repeat split; try reflexivity. discriminate.
Qed.

Lemma admin_routes_need_admin_sample :
  (In (target visitor_posts)
      [GET_admin; POST_admin_posts; POST_admin_posts_delete;
       POST_admin_messages_delete] ->
   handle cfg decimal_rowid array_first visitor_posts db1 =
     {| answer := Redirect "/admin/login"; store := db1;
        session_after := session visitor_posts |}) /\
  posts (store
      (handle cfg decimal_rowid array_first visitor_posts db1)) = posts db1 /\
  incl (messages db1) (messages (store
      (handle cfg decimal_rowid array_first visitor_posts db1))).
Proof.
  apply (admin_routes_need_admin cfg decimal_rowid array_first visitor_posts db1).
  reflexivity.
Defined.

Lemma contact_inserts_one_row_sample :
  exists id : Z,
    answer (handle cfg decimal_rowid array_first contact db1) = Json 200 (success_json id) /\
    messages (store (handle cfg decimal_rowid array_first contact db1)) =
      messages db1 ++
      [{| msg_id := id; msg_name := "Bob"; msg_email := "bob@example.org";
          msg_message := "Hello"; msg_created_at := now contact |}] /\
    (forall old, In old (messages db1) -> (msg_id old < id)%Z) /\
    posts (store
        (handle cfg decimal_rowid array_first contact db1)) = posts db1.
Proof.
  apply (contact_inserts_one_row cfg decimal_rowid array_first contact db1
           "Bob" "bob@example.org" "Hello");
    solve [reflexivity | discriminate].
Defined.

(** C3 as stated fails: in the body of
    [name=Bob&name=Rob&email=bob@example.org&message=Hello] the name, the
    email and the message are there and not empty, but the name is an
    array.  The guard lets it pass; the driver takes the elements of an
    array that is the first argument for the parameters of the statement,
    so the message is NULL, the insert fails, the reply is 500 and no row
    is inserted. *)
Lemma contact_with_two_names_is_500 :
  truthy (param "name" (body contact_with_two_names)) = true /\
  truthy (param "email" (body contact_with_two_names)) = true /\
  truthy (param "message" (body contact_with_two_names)) = true /\
  answer (handle cfg decimal_rowid array_first contact_with_two_names db1) =
    Json 500 (error_json "db error") /\
  store (handle cfg decimal_rowid array_first contact_with_two_names db1) =
    db1.
Proof. repeat split; reflexivity. Qed.

Lemma contact_missing_field_is_400_sample :
  answer (handle cfg decimal_rowid array_first contact_without_email db1) =
    Json 400 (error_json "name, email and message required") /\
  store (handle cfg decimal_rowid array_first contact_without_email db1) = db1.
Proof.
  apply (contact_missing_field_is_400 cfg decimal_rowid array_first contact_without_email db1).
  - reflexivity.
  - right. left. reflexivity.
Defined.

Lemma delete_of_absent_row_is_noop_sample :
  (store (handle cfg decimal_rowid array_first delete_absent_post db1) = db1 /\
   is_redirect (answer
       (handle cfg decimal_rowid array_first delete_absent_post db1)) = true) /\
  (store
      (handle cfg decimal_rowid array_first delete_absent_message db1) = db1 /\
   is_redirect (answer (handle cfg decimal_rowid array_first delete_absent_message db1)) = true).
Proof.
  split.
  - apply (proj1 (delete_of_absent_row_is_noop cfg decimal_rowid array_first
                    delete_absent_post db1)).
    + reflexivity.
    + intros v [= <-]. exists "nothing"%string. split; reflexivity.
  - apply (proj2 (delete_of_absent_row_is_noop cfg decimal_rowid array_first
                    delete_absent_message db1)).
    + reflexivity.
    + intros v [= <-]. exists "7"%string. split; [reflexivity|].
      intros m [<-|[]]. reflexivity.
Defined.

Lemma save_edits_in_place_or_prepends_sample :
  length (Browser.save (Some welcome) edited 1704200000000
            "2024-01-02T12:53:20.000Z" [other; welcome]) = 2 /\
  Browser.save (Some welcome) edited 1704200000000
    "2024-01-02T12:53:20.000Z" [other; welcome] =
    [other;
     {| Browser.id := Some "b1"%string; Browser.title := "Welcome back";
        Browser.content := "Edited";
        Browser.createdAt := Some "2024-01-01T10:00:00.000Z"%string |}] /\
  Browser.save None edited 1704200000000 "2024-01-02T12:53:20.000Z"
    [other; welcome] =
    {| Browser.id := Some "1704200000000"%string;
       Browser.title := "Welcome back"; Browser.content := "Edited";
       Browser.createdAt := Some "2024-01-02T12:53:20.000Z"%string |}
    :: [other; welcome].
Proof.
  destruct (save_edits_in_place_or_prepends welcome edited 1704200000000
              "2024-01-02T12:53:20.000Z" "2024-01-01T10:00:00.000Z"
              [other; welcome] eq_refl eq_refl) as (Hlen & _ & _ & Hnew).
  split; [exact Hlen|]. split; [reflexivity|exact Hnew].
Defined.

Lemma escapeHtml_value_by_cases_sample :
  JS.escapeHtml_value no_digits JS.Null = JS.Normal EmptyString /\
  JS.escapeHtml_value no_digits (JS.Number (JS.Zero true)) = JS.Normal "0"%string /\
  JS.escapeHtml_value no_digits (JS.JString "a<b") = JS.Normal "a&lt;b"%string /\
  (exists s, JS.escapeHtml_value no_digits (JS.Boolean true) = JS.Normal s).
Proof.
  split; [|split; [|split]].
  - apply (proj1 (escapeHtml_value_by_cases no_digits JS.Null)); reflexivity.
  - apply (proj1 (proj2 (escapeHtml_value_by_cases no_digits
                           (JS.Number (JS.Zero true))))).
    reflexivity.
  - apply (proj1 (proj2 (proj2 (escapeHtml_value_by_cases no_digits
                                   (JS.JString "a<b")))) "a<b"%string);
      reflexivity.
  - apply (proj1 (proj2 (proj2 (proj2 (escapeHtml_value_by_cases no_digits
                                          (JS.Boolean true)))))).
    intros e. discriminate.
Defined.

(** C9 as stated fails: on an object whose conversion to a string throws,
    such as [Object.create(null)], [escapeHtml] throws. *)
Lemma escapeHtml_value_can_throw :
  JS.escapeHtml_value no_digits (JS.Object (JS.Throw JS.TypeError)) =
    JS.Throw JS.TypeError /\
  JS.ToBoolean (JS.Object (JS.Throw JS.TypeError)) = true.
Proof. split; reflexivity. Qed.

(** C5 as stated fails: the slug of a post is typed by the administrator
    like its title, and the home page copies a single quote of it into
    the document it sends. *)
Lemma home_page_copies_quote_of_slug :
  answer (handle cfg decimal_rowid array_first
            (request_for GET_home None []) db_quoted) =
    Send 200 (text (erase (home_page db_quoted None 2024))) /\
  exists (x : ascii * origin) (f : field),
    In x (home_page db_quoted None 2024) /\
    origin_of x = Data f /\ user_supplied f = true /\
    special (fst x) = true.
Proof.
  split; [vm_compute; reflexivity|].
  exists ("'"%char, Data PostSlug), PostSlug.
  split; [|repeat split].
  unfold home_page, renderPage. rewrite !in_app_iff.
  right. right. right. left.
  unfold renderHome. rewrite !in_app_iff.
  right. right. right. left.
  vm_compute. tauto.
Qed.


Import Samples.

(** ** Invariants of the store *)

Lemma NoDup_map_filter {T K : Type} (key : T -> K) (f : T -> bool) (l : list T) :
  NoDup (map key l) -> NoDup (map key (filter f l)).
Proof.
  induction l as [|x l IH]; simpl; intros Hl; [constructor|].
  inversion Hl as [|? ? Hx Hl']; subst.
  destruct (f x); simpl; [|apply IH; exact Hl'].
  constructor; [|apply IH; exact Hl'].
  intros Hin. apply Hx. apply in_map_iff in Hin.
  destruct Hin as (y & Hy & Hyin). apply filter_In in Hyin.
  apply in_map_iff. exists y. tauto.
Qed.

Lemma NoDup_snoc {K : Type} (l : list K) (x : K) :
  NoDup l -> ~ In x l -> NoDup (l ++ [x]).
Proof.
  induction l as [|y l IH]; simpl; intros Hl Hx.
  - constructor; [tauto|constructor].
  - inversion Hl; subst. constructor.
    + rewrite in_app_iff. simpl. intuition congruence.
    + apply IH; tauto.
Qed.

Lemma upsert_post_unique (slug title excerpt content : option string)
  (now : string) (db db' : DB) (id : Z) :
  unique_slugs db ->
  upsert_post slug title excerpt content now db = inr (db', id) ->
  unique_slugs db'.
Proof.
  intros Hdb. unfold upsert_post.
  destruct slug as [s|]; [|discriminate].
  destruct title as [t|]; [|discriminate].
  intros [= <- _]. unfold unique_slugs. simpl.
  rewrite map_app. simpl. apply NoDup_snoc.
  - apply NoDup_map_filter. exact Hdb.
  - intros Hin. apply in_map_iff in Hin. destruct Hin as (p & Hp & Hpin).
    apply filter_In in Hpin. destruct Hpin as [_ Hne].
    rewrite Hp, String.eqb_refl in Hne. discriminate.
Qed.

Lemma Forall_filter_of {T : Type} (P : T -> Prop) (f : T -> bool) (l : list T) :
  Forall P l -> Forall P (filter f l).
Proof.
  intros Hl. apply Forall_forall. intros x Hx. apply filter_In in Hx.
  exact (proj1 (Forall_forall P l) Hl x (proj1 Hx)).
Qed.

Lemma next_rowid_above (ids : list Z) (seq : Z) :
  (seq < next_rowid ids seq)%Z.
Proof. unfold next_rowid. lia. Qed.

Lemma insert_message_ids (name email message : option string) (now : string)
  (db db' : DB) (id : Z) :
  ids_recorded db ->
  insert_message name email message now db = inr (db', id) ->
  ids_recorded db' /\ (messages_seq db < id)%Z /\ messages_seq db' = id /\
  posts_seq db' = posts_seq db.
Proof.
  intros [Hm Hp]. unfold insert_message.
  destruct name, email, message; try discriminate.
  intros [= <- <-].
  pose proof (next_rowid_above (map msg_id (messages db)) (messages_seq db)).
  repeat split; simpl; try assumption.
  apply Forall_app. split; [|repeat constructor; simpl; lia].
  eapply Forall_impl; [|exact Hm]. simpl. intros m Hle. lia.
Qed.

Lemma upsert_post_ids (slug title excerpt content : option string)
  (now : string) (db db' : DB) (id : Z) :
  ids_recorded db ->
  upsert_post slug title excerpt content now db = inr (db', id) ->
  ids_recorded db' /\ (posts_seq db < id)%Z /\ posts_seq db' = id /\
  messages_seq db' = messages_seq db.
Proof.
  intros [Hm Hp]. unfold upsert_post.
  destruct slug, title; try discriminate.
  intros [= <- <-].
  pose proof (next_rowid_above (map post_id (posts db)) (posts_seq db)).
  repeat split; simpl; try assumption.
  apply Forall_app. split; [|repeat constructor; simpl; lia].
  apply Forall_filter_of.
  eapply Forall_impl; [|exact Hp]. simpl. intros p Hle. lia.
Qed.

Lemma ids_grow_refl (db : DB) : ids_recorded db -> ids_grow db db.
Proof.
  intros Hdb. unfold ids_grow.
  split; [exact Hdb|]. split; [lia|]. split; [lia|].
  split; intros x Hx; left; exact Hx.
Qed.

Lemma ids_grow_trans (a b c : DB) : ids_grow a b -> ids_grow b c -> ids_grow a c.
Proof.
  intros (_ & Hm & Hp & Hms & Hps) (Hc & Hm' & Hp' & Hms' & Hps').
  unfold ids_grow. split; [exact Hc|]. split; [lia|]. split; [lia|].
  split.
  - intros m Hin. destruct (Hms' m Hin) as [Hb|Hnew]; [|right; lia].
    exact (Hms m Hb).
  - intros p Hin. destruct (Hps' p Hin) as [Hb|Hnew]; [|right; lia].
    exact (Hps p Hb).
Qed.

Lemma insert_message_grows (name email message : option string) (now : string)
  (db db' : DB) (id : Z) :
  ids_recorded db ->
  insert_message name email message now db = inr (db', id) ->
  ids_grow db db'.
Proof.
  intros Hdb Hins.
  destruct (insert_message_ids _ _ _ _ _ _ _ Hdb Hins) as (H1 & H2 & H3 & H4).
  unfold ids_grow. split; [exact H1|]. split; [lia|]. split; [lia|].
  unfold insert_message in Hins.
  destruct name, email, message; try discriminate.
  injection Hins as <- <-. simpl. split.
  - intros m Hin. apply in_app_or in Hin. destruct Hin as [Hold|[<-|[]]].
    + left. exact Hold.
    + right. apply next_rowid_above.
  - intros p Hin. left. exact Hin.
Qed.

Lemma upsert_post_grows (slug title excerpt content : option string)
  (now : string) (db db' : DB) (id : Z) :
  ids_recorded db ->
  upsert_post slug title excerpt content now db = inr (db', id) ->
  ids_grow db db'.
Proof.
  intros Hdb Hup.
  destruct (upsert_post_ids _ _ _ _ _ _ _ _ Hdb Hup) as (H1 & H2 & H3 & H4).
  unfold ids_grow. split; [exact H1|]. split; [lia|]. split; [lia|].
  unfold upsert_post in Hup.
  destruct slug, title; try discriminate.
  injection Hup as <- <-. simpl. split.
  - intros m Hin. left. exact Hin.
  - intros p Hin. apply in_app_or in Hin. destruct Hin as [Hold|[<-|[]]].
    + left. apply filter_In in Hold. tauto.
    + right. apply next_rowid_above.
Qed.

Lemma delete_post_grows (slug : string) (db : DB) :
  ids_recorded db -> ids_grow db (delete_post slug db).
Proof.
  intros [Hm Hp]. unfold ids_grow, delete_post. simpl.
  split; [split; [exact Hm|apply Forall_filter_of; exact Hp]|].
  split; [lia|]. split; [lia|]. split.
  - intros m Hin. left. exact Hin.
  - intros p Hin. left. apply filter_In in Hin. tauto.
Qed.

Lemma delete_message_grows (as_rowid : string -> option Z) (id : string)
  (db : DB) :
  ids_recorded db -> ids_grow db (delete_message as_rowid id db).
Proof.
  intros [Hm Hp]. unfold ids_grow, delete_message. simpl.
  split; [split; [apply Forall_filter_of; exact Hm|exact Hp]|].
  split; [lia|]. split; [lia|]. split.
  - intros m Hin. left. apply filter_In in Hin. tauto.
  - intros p Hin. left. exact Hin.
Qed.

Section Invariants.

Variable cfg : Config.
Variable as_rowid : string -> option Z.
Variable driver : list (option field_value) -> option (list (option string)).

(** The store after a request is the store before it, or what one
    statement leaves: an insert into messages, an upsert of a post, or
    one of the two deletes. *)
Lemma store_after (req : request) (db : DB) :
  store (handle cfg as_rowid driver req db) = db \/
  (exists name email message id,
      insert_message name email message (now req) db =
        inr (store (handle cfg as_rowid driver req db), id)) \/
  (exists slug title excerpt content id,
      upsert_post slug title excerpt content (now req) db =
        inr (store (handle cfg as_rowid driver req db), id)) \/
  (exists slug,
      store (handle cfg as_rowid driver req db) = delete_post slug db) \/
  (exists id,
      store (handle cfg as_rowid driver req db) =
        delete_message as_rowid id db).
Proof.
  unfold handle, requireAdmin.
  destruct (target req); try (left; reflexivity).
  - left. unfold post_page. destruct (get_post db slug); reflexivity.
  - unfold api_contact. destruct (_ || _); [left; reflexivity|].
    destruct (bind driver _) as [ps|]; [|left; reflexivity].
    destruct (insert_message _ _ _ _ db) as [e|[db' id]] eqn:E;
      [left; reflexivity|].
    right. left. eexists _, _, _, id. exact E.
  - left. unfold admin_login_page.
    destruct (session req) as [[[|] ?]|]; reflexivity.
  - left. unfold admin_login.
    destruct (_ && _); [|reflexivity]. destruct (session req); reflexivity.
  - left. unfold admin_logout. destruct (session req); reflexivity.
  - left. destruct (session req) as [[[|] ?]|]; reflexivity.
  - destruct (session req) as [[[|] ?]|]; try (left; reflexivity).
    unfold admin_posts. destruct (_ || _); [left; reflexivity|].
    destruct (bind driver _) as [ps|]; [|left; reflexivity].
    destruct (upsert_post _ _ _ _ _ db) as [e|[db' id]] eqn:E;
      [left; reflexivity|].
    right. right. left. eexists _, _, _, _, id. exact E.
  - destruct (session req) as [[[|] ?]|]; try (left; reflexivity).
    unfold admin_posts_delete.
    destruct (param "slug" (body req)) as [slug|]; [|left; reflexivity].
    destruct (negb _); [left; reflexivity|]. cbn [store].
    destruct (bind_array driver _) as [ps|]; [|left; reflexivity].
    destruct (parameter 0 ps) as [s|]; [|left; reflexivity].
    right. right. right. left. exists s. reflexivity.
  - destruct (session req) as [[[|] ?]|]; try (left; reflexivity).
    unfold admin_messages_delete.
    destruct (param "id" (body req)) as [id|]; [|left; reflexivity].
    destruct (negb _); [left; reflexivity|]. cbn [store].
    destruct (bind_array driver _) as [ps|]; [|left; reflexivity].
    destruct (parameter 0 ps) as [s|]; [|left; reflexivity].
    right. right. right. right. exists s. reflexivity.
Qed.

(** The posts after a request are the posts before it, the posts an upsert
    leaves, or the posts a delete leaves. *)
Lemma posts_after (req : request) (db : DB) :
  posts (store (handle cfg as_rowid driver req db)) = posts db \/
  (exists slug title excerpt content id db',
      upsert_post slug title excerpt content (now req) db = inr (db', id) /\
      store (handle cfg as_rowid driver req db) = db') \/
  (exists slug, store
      (handle cfg as_rowid driver req db) = delete_post slug db).
Proof.
  destruct (store_after req db)
    as [Hsame|[(n & e & m & id & Hins)
              |[(s & t & x & c & id & Hup)|[(s & Hdel)|(i & Hdel)]]]].
  - left. rewrite Hsame. reflexivity.
  - left. unfold insert_message in Hins.
    destruct n, e, m; try discriminate.
    injection Hins as Hstore _. rewrite <- Hstore. reflexivity.
  - right. left.
    exists s, t, x, c, id, (store (handle cfg as_rowid driver req db)).
    split; [exact Hup|reflexivity].
  - right. right. exists s. exact Hdel.
  - left. rewrite Hdel. reflexivity.
Qed.

(** No request makes two posts share a slug. *)
Theorem slugs_stay_unique (req : request) (db : DB) :
  unique_slugs db -> unique_slugs (store (handle cfg as_rowid driver req db)).
Proof.
  intros Hdb.
  destruct (posts_after req db)
    as [Hsame|[(slug & title & excerpt & content & id & db' & Hup & ->)
              |(slug & ->)]].
  - unfold unique_slugs. rewrite Hsame. exact Hdb.
  - eapply upsert_post_unique; [exact Hdb|exact Hup].
  - unfold unique_slugs, delete_post. simpl.
    apply NoDup_map_filter. exact Hdb.
Qed.

Lemma request_grows_ids (req : request) (db : DB) :
  ids_recorded db -> ids_grow db (store (handle cfg as_rowid driver req db)).
Proof.
  intros Hdb.
  destruct (store_after req db)
    as [Hsame|[(n & e & m & id & Hins)
              |[(s & t & x & c & id & Hup)|[(s & Hdel)|(i & Hdel)]]]].
  - rewrite Hsame. apply ids_grow_refl. exact Hdb.
  - exact (insert_message_grows _ _ _ _ _ _ _ Hdb Hins).
  - exact (upsert_post_grows _ _ _ _ _ _ _ _ Hdb Hup).
  - rewrite Hdel. apply delete_post_grows. exact Hdb.
  - rewrite Hdel. apply delete_message_grows. exact Hdb.
Qed.

(** Ids are assigned by the store and never again.  Over any sequence of
    requests, from a store in which no row has an id above the sequence
    of its table: the same holds afterwards, no sequence has gone down,
    and every row there is afterwards either was there before or has an
    id above the sequence there was before, hence above every id its
    table had assigned until then, those of deleted rows included. *)
Theorem ids_are_never_reused (reqs : list request) (db : DB) :
  ids_recorded db ->
  ids_recorded (after cfg as_rowid driver reqs db) /\
  (messages_seq db <= messages_seq (after cfg as_rowid driver reqs db))%Z /\
  (posts_seq db <= posts_seq (after cfg as_rowid driver reqs db))%Z /\
  (forall m, In m (messages (after cfg as_rowid driver reqs db)) ->
             In m (messages db) \/ (messages_seq db < msg_id m)%Z) /\
  (forall p, In p (posts (after cfg as_rowid driver reqs db)) ->
             In p (posts db) \/ (posts_seq db < post_id p)%Z).
Proof.
  change (ids_recorded db -> ids_grow db (after cfg as_rowid driver reqs db)).
  revert db. induction reqs as [|req reqs IH]; intros db Hdb.
  - apply ids_grow_refl. exact Hdb.
  - pose proof (request_grows_ids req db Hdb) as Hstep.
    apply (ids_grow_trans _ _ _ Hstep).
    apply (IH (store (handle cfg as_rowid driver req db))).
    destruct Hstep as [Hrec _]. exact Hrec.
Qed.

End Invariants.

(** Two messages are sent and get the ids 2 and 3, the one with id 2 is
    deleted, and a third is sent: it gets the id 4, not the id 2. *)
Lemma ids_are_never_reused_sample :
  ids_recorded
    (after cfg decimal_rowid array_first
       [contact; contact; delete_second_message; contact] db1) /\
  (messages_seq db1 <=
   messages_seq (after cfg decimal_rowid array_first
                   [contact; contact; delete_second_message; contact] db1))%Z /\
  (posts_seq db1 <=
   posts_seq (after cfg decimal_rowid array_first
                [contact; contact; delete_second_message; contact] db1))%Z /\
  (forall m,
      In m (messages (after cfg decimal_rowid array_first
                        [contact; contact; delete_second_message; contact]
                        db1)) ->
      In m (messages db1) \/ (messages_seq db1 < msg_id m)%Z) /\
  (forall p,
      In p (posts (after cfg decimal_rowid array_first
                     [contact; contact; delete_second_message; contact]
                     db1)) ->
      In p (posts db1) \/ (posts_seq db1 < post_id p)%Z).
Proof.
  apply (ids_are_never_reused cfg decimal_rowid array_first
           [contact; contact; delete_second_message; contact] db1).
  split; repeat constructor; simpl; lia.
Defined.

Lemma slugs_stay_unique_sample :
  unique_slugs (store (handle cfg decimal_rowid array_first edit_hello db1)).
Proof.
  apply (slugs_stay_unique cfg decimal_rowid array_first edit_hello db1).
  unfold unique_slugs. simpl. constructor; [simpl; tauto|constructor].
Defined.

Lemma markdownToHtml_one_paragraph_sample :
  markdownToHtml (list_ascii_of_string two_paragraphs) =
    lit "<p>" ++ inline (list_ascii_of_string two_paragraphs) ++ lit "</p>".
Proof.
  apply (markdownToHtml_one_paragraph (list_ascii_of_string two_paragraphs)).
  - discriminate.
  - repeat constructor.
Defined.

(** ** What each route writes, and who becomes an administrator *)

Section Frames.

Variable cfg : Config.
Variable as_rowid : string -> option Z.
Variable driver : list (option field_value) -> option (list (option string)).

(** Unfold the handlers and split on every test they make. *)
Ltac by_cases_of_handler :=
  unfold requireAdmin, home, post_page, api_contact, favicon,
    admin_login_page, admin_login, admin_logout, admin, admin_posts,
    admin_posts_delete, admin_messages_delete, insert_message, upsert_post,
    reply_with;
  repeat match goal with
         | |- context [match ?x with _ => _ end] =>
             lazymatch x with
             | context [match _ with _ => _ end] => fail
             | _ => destruct x
             end
         end;
  simpl; repeat split.

Lemma is_text_true (x : option field_value) (s : string) :
  is_text x s = true <-> x = Some (Text s).
Proof.
  unfold is_text. destruct x as [[t| | | | |]|];
    try (split; [discriminate|intros [=]]).
  rewrite String.eqb_eq. split; congruence.
Qed.

Lemma session_kept (req : request) (db : DB) :
  writes_session (target req) = false ->
  session_after (handle cfg as_rowid driver req db) = session req.
Proof.
  unfold handle. intros Hw.
  destruct (target req); try discriminate Hw; clear Hw;
    by_cases_of_handler.
Qed.

(** A route writes only what its handler has a statement for: [messages]
    changes on /api/contact and /admin/messages/delete only, [posts] on
    /admin/posts and /admin/posts/delete only, and the session on
    /admin/login (POST) and /admin/logout only.  Every GET route but
    the logout leaves store and session as they were. *)
Theorem routes_write_only_their_own (req : request) (db : DB) :
  (writes_messages (target req) = false ->
   messages (store (handle cfg as_rowid driver req db)) = messages db /\
   messages_seq (store
       (handle cfg as_rowid driver req db)) = messages_seq db) /\
  (writes_posts (target req) = false ->
   posts (store (handle cfg as_rowid driver req db)) = posts db /\
   posts_seq (store (handle cfg as_rowid driver req db)) = posts_seq db) /\
  (writes_session (target req) = false ->
   session_after (handle cfg as_rowid driver req db) = session req).
Proof.
  split; [|split; [|apply session_kept]]; unfold handle; intros Hw;
    destruct (target req); try discriminate Hw; clear Hw;
    by_cases_of_handler.
Qed.

(** Only the login makes an administrator: if the session of a request is
    not an administrator's and the session it leaves is, the request is a
    POST /admin/login whose body holds exactly the configured email and
    password; it is answered with the redirect to /admin and writes
    nothing to the store. *)
Theorem only_login_makes_an_administrator (req : request) (db : DB) :
  is_admin (session req) = false ->
  is_admin (session_after (handle cfg as_rowid driver req db)) = true ->
  target req = POST_admin_login /\
  param "email" (body req) = Some (Text (ADMIN_EMAIL cfg)) /\
  param "password" (body req) = Some (Text (ADMIN_PASSWORD cfg)) /\
  answer (handle cfg as_rowid driver req db) = Redirect "/admin" /\
  store (handle cfg as_rowid driver req db) = db.
Proof.
  intros Hbefore Hafter.
  destruct (writes_session (target req)) eqn:Hw.
  - unfold handle in *.
    destruct (target req) eqn:Ht; try discriminate.
    + unfold admin_login, reply_with in *.
      destruct (is_text (param "email" (body req)) (ADMIN_EMAIL cfg)) eqn:He;
        [|simpl in Hafter; congruence].
      destruct (is_text (param "password" (body req)) (ADMIN_PASSWORD cfg))
        eqn:Hp; [|simpl in Hafter; congruence].
      apply is_text_true in He, Hp.
      destruct (session req); simpl in *; [|congruence].
      repeat split; solve [reflexivity | assumption].
    + unfold admin_logout, reply_with in Hafter.
      destruct (session req); simpl in Hafter; congruence.
  - rewrite (session_kept req db Hw) in Hafter. congruence.
Qed.

(** After a login the dashboard is open: a POST /admin/login that has a
    session and the configured email and password is answered with the
    redirect to /admin and writes nothing to the store; a later request
    that carries the session it left gets the dashboard from GET /admin
    and the redirect to /admin from GET /admin/login, and GET
    /admin/logout destroys the session and redirects to the home page. *)
Theorem login_opens_the_dashboard (req next : request) (db db' : DB)
  (s : Session) :
  target req = POST_admin_login ->
  session req = Some s ->
  param "email" (body req) = Some (Text (ADMIN_EMAIL cfg)) ->
  param "password" (body req) = Some (Text (ADMIN_PASSWORD cfg)) ->
  session next = session_after (handle cfg as_rowid driver req db) ->
  answer (handle cfg as_rowid driver req db) = Redirect "/admin" /\
  store (handle cfg as_rowid driver req db) = db /\
  (target next = GET_admin ->
   handle cfg as_rowid driver next db' =
     {| answer := Send 200 (text (dashboard_page db' (year next)));
        store := db'; session_after := session next |}) /\
  (target next = GET_admin_login ->
   answer (handle cfg as_rowid driver next db') = Redirect "/admin") /\
  (target next = GET_admin_logout ->
   handle cfg as_rowid driver next db' =
     {| answer := Redirect "/"; store := db'; session_after := None |}).
Proof.
  intros Ht Hs He Hp Hnext.
  assert (Hout : handle cfg as_rowid driver req db =
    {| answer := Redirect "/admin"; store := db;
       session_after :=
         Some {| isAdmin := true; adminEmail := Some (ADMIN_EMAIL cfg) |} |}).
  { unfold handle. rewrite Ht. unfold admin_login.
    rewrite He, Hp, Hs. simpl. rewrite !String.eqb_refl. reflexivity. }
  rewrite Hout in *. simpl in Hnext.
  split; [reflexivity|]. split; [reflexivity|].
  split; [|split]; intros Hroute; unfold handle; rewrite Hroute.
  - unfold requireAdmin, admin, reply_with. rewrite Hnext. reflexivity.
  - unfold admin_login_page. rewrite Hnext. reflexivity.
  - unfold admin_logout. rewrite Hnext. reflexivity.
Qed.

End Frames.

(** ** The theorems at the sample requests *)

Lemma routes_write_only_their_own_sample :
  messages (store
      (handle cfg decimal_rowid array_first edit_hello db1)) = [greeting] /\
  posts (store (handle cfg decimal_rowid array_first contact db1)) = [hello] /\
  session_after
      (handle cfg decimal_rowid array_first delete_hello db1) = administrator.
Proof.
  destruct (routes_write_only_their_own cfg decimal_rowid array_first edit_hello db1)
    as (Hm & _ & _).
  destruct (routes_write_only_their_own cfg decimal_rowid array_first contact db1)
    as (_ & Hp & _).
  destruct (routes_write_only_their_own cfg decimal_rowid array_first delete_hello db1)
    as (_ & _ & Hs).
  split; [exact (proj1 (Hm eq_refl))|].
  split; [exact (proj1 (Hp eq_refl))|exact (Hs eq_refl)].
Defined.

Lemma only_login_makes_an_administrator_sample :
  target login = POST_admin_login /\
  param "email" (body login) = Some (Text "admin@example.com"%string) /\
  param "password" (body login) = Some (Text "admin123"%string) /\
  answer (handle cfg decimal_rowid array_first login db1) = Redirect "/admin" /\
  store (handle cfg decimal_rowid array_first login db1) = db1.
Proof.
  apply (only_login_makes_an_administrator cfg decimal_rowid array_first login db1);
    reflexivity.
Defined.

Lemma login_opens_the_dashboard_sample :
  answer (handle cfg decimal_rowid array_first login db1) = Redirect "/admin" /\
  store (handle cfg decimal_rowid array_first login db1) = db1 /\
  (target (request_for GET_admin administrator []) = GET_admin ->
   handle cfg decimal_rowid array_first (request_for GET_admin administrator []) db1 =
     {| answer := Send 200 (text (dashboard_page db1 2024));
        store := db1; session_after := administrator |}) /\
  (target (request_for GET_admin administrator []) = GET_admin_login ->
   answer (handle cfg decimal_rowid array_first (request_for GET_admin administrator [])
             db1) = Redirect "/admin") /\
  (target (request_for GET_admin administrator []) = GET_admin_logout ->
   handle cfg decimal_rowid array_first (request_for GET_admin administrator []) db1 =
     {| answer := Redirect "/"; store := db1; session_after := None |}).
Proof.
  apply (login_opens_the_dashboard cfg decimal_rowid array_first login
           (request_for GET_admin administrator []) db1 db1 fresh_session);
    reflexivity.
Defined.

(** ** Requests one after another *)

Lemma find_app_last {T : Type} (f : T -> bool) (l : list T) (x : T) :
  f x = false -> find f (l ++ [x]) = find f l.
Proof.
  intros Hx. induction l as [|y l IH]; simpl; [rewrite Hx; reflexivity|].
  destruct (f y); [reflexivity|exact IH].
Qed.

Lemma find_filter_implied {T : Type} (f g : T -> bool) (l : list T) :
  (forall y, f y = true -> g y = true) -> find f (filter g l) = find f l.
Proof.
  intros Himp. induction l as [|y l IH]; simpl; [reflexivity|].
  destruct (g y) eqn:Eg; simpl.
  - destruct (f y); [reflexivity|exact IH].
  - destruct (f y) eqn:Ef; [|exact IH].
    rewrite (Himp y Ef) in Eg. discriminate.
Qed.

Lemma find_filter_excluded {T : Type} (f : T -> bool) (l : list T) :
  find f (filter (fun y => negb (f y)) l) = None.
Proof.
  induction l as [|y l IH]; simpl; [reflexivity|].
  destruct (f y) eqn:Ef; simpl; [exact IH|]. rewrite Ef. exact IH.
Qed.

Lemma other_slug (s s' : string) (p : Post) :
  s' <> s -> String.eqb (post_slug p) s' = true ->
  negb (String.eqb (post_slug p) s) = true.
Proof.
  intros Hne Hp. apply String.eqb_eq in Hp.
  destruct (String.eqb_spec (post_slug p) s); [congruence|reflexivity].
Qed.

Lemma decimal_not_empty (z : Z) : decimal z <> EmptyString.
Proof.
  unfold decimal, NilZero.string_of_int.
  destruct (Z.to_int z) as [d|d]; [|discriminate].
  unfold NilZero.string_of_uint. destruct d; discriminate.
Qed.

Section Journeys.

Variable cfg : Config.
Variable as_rowid : string -> option Z.
Variable driver : list (option field_value) -> option (list (option string)).

(** A post that was saved is served: after an administrator's POST
    /admin/posts with a non-empty slug, title and content, whether or not
    the slug was taken, GET /post/:slug answers 200 with the document of
    the submitted row, the home page's list holds the row, and every
    other slug is answered as before. *)
Theorem saved_post_is_served (req visitor : request) (db : DB)
  (s t c : string) (e : option string) :
  target req = POST_admin_posts ->
  is_admin (session req) = true ->
  param "slug" (body req) = Some (Text s) -> s <> EmptyString ->
  param "title" (body req) = Some (Text t) -> t <> EmptyString ->
  param "excerpt" (body req) = option_map Text e ->
  param "content" (body req) = Some (Text c) -> c <> EmptyString ->
  target visitor = GET_post s ->
  exists row : Post,
    answer (handle cfg as_rowid driver visitor (store (handle cfg as_rowid driver req db))) =
      Send 200 (text (post_document row (year visitor))) /\
    post_slug row = s /\ post_title row = t /\
    post_excerpt row = e /\
    post_content row = Some c /\
    In (without_content row) (all_posts (store
        (handle cfg as_rowid driver req db))) /\
    (forall s', s' <> s ->
                get_post (store (handle cfg as_rowid driver req db)) s' =
                get_post db s').
Proof.
  intros Ht Hadmin Hs Hs' Htitle Htitle' He Hc Hc' Hvisit.
  assert (Hstore : exists row,
    store (handle cfg as_rowid driver req db) =
      {| messages := messages db; messages_seq := messages_seq db;
         posts := filter (fun p => negb (String.eqb (post_slug p) s)) (posts db)
                  ++ [row];
         posts_seq := post_id row |} /\
    post_slug row = s /\ post_title row = t /\
    post_excerpt row = e /\
    post_content row = Some c).
  { unfold handle. rewrite Ht, requireAdmin_admits by exact Hadmin.
    unfold admin_posts.
    rewrite Hs, Htitle, He, Hc, !truthy_some by assumption.
    assert (Hbind : bind driver [Some (Text s); Some (Text t);
                                 option_map Text e; Some (Text c)] =
                    Some [Some s; Some t; e; Some c])
      by (destruct e; reflexivity).
    rewrite Hbind. simpl.
    exists {| post_id := next_rowid (map post_id (posts db)) (posts_seq db);
              post_slug := s; post_title := t;
              post_excerpt := e;
              post_content := Some c; post_created_at := now req |}.
    repeat split. }
  destruct Hstore as (row & Hstore & Hslug & Htitle'' & Hex & Hcontent).
  exists row. rewrite Hstore.
  assert (Hget : get_post
            {| messages := messages db; messages_seq := messages_seq db;
               posts := filter (fun p => negb (String.eqb (post_slug p) s))
                          (posts db) ++ [row];
               posts_seq := post_id row |} s = Some row).
  { unfold get_post. simpl. apply find_app_absent.
    - intros y Hy.
      apply (find_filter_neg_none (fun p => String.eqb (post_slug p) s)) in Hy.
      exact Hy.
    - rewrite Hslug. apply String.eqb_refl. }
  split.
  { unfold handle. rewrite Hvisit. unfold post_page. rewrite Hget. reflexivity. }
  repeat (split; [assumption|]).
  split.
  - unfold all_posts. simpl.
    eapply Permutation_in; [apply order_by_desc_perm|].
    rewrite map_app. apply in_or_app. right. left. reflexivity.
  - intros s' Hne. unfold get_post. simpl.
    rewrite find_app_last.
    + apply find_filter_implied. intros y Hy. eapply other_slug; eauto.
    + rewrite Hslug. apply String.eqb_neq. congruence.
Qed.

(** A post that was deleted is gone: after an administrator's POST
    /admin/posts/delete with a non-empty slug, GET /post/:slug answers
    404, every other slug is answered as before, the messages are
    untouched, and deleting once more changes nothing. *)
Theorem deleted_post_is_gone (req visitor : request) (db : DB) (s : string) :
  target req = POST_admin_posts_delete ->
  is_admin (session req) = true ->
  param "slug" (body req) = Some (Text s) -> s <> EmptyString ->
  target visitor = GET_post s ->
  answer (handle cfg as_rowid driver visitor (store (handle cfg as_rowid driver req db))) =
    Send 404 (text (not_found_page (year visitor))) /\
  (forall s', s' <> s ->
              get_post (store (handle cfg as_rowid driver req db)) s' =
              get_post db s') /\
  messages (store (handle cfg as_rowid driver req db)) = messages db /\
  store (handle cfg as_rowid driver req (store (handle cfg as_rowid driver req db))) =
    store (handle cfg as_rowid driver req db).
Proof.
  intros Ht Hadmin Hs Hs' Hvisit.
  assert (Hdel : forall d, store
      (handle cfg as_rowid driver req d) = delete_post s d).
  { intros d. unfold handle. rewrite Ht, requireAdmin_admits by exact Hadmin.
    unfold admin_posts_delete. rewrite Hs, truthy_some by exact Hs'.
    reflexivity. }
  rewrite !Hdel. repeat split.
  - unfold handle. rewrite Hvisit. unfold post_page, get_post, delete_post.
    simpl.
    rewrite (find_filter_excluded (fun p => String.eqb (post_slug p) s)).
    reflexivity.
  - intros s' Hne. unfold get_post, delete_post. simpl.
    apply find_filter_implied. intros y Hy. eapply other_slug; eauto.
  - unfold delete_post. simpl. rewrite filter_idem. reflexivity.
Qed.

Lemma messages_delete_runs (req : request) (db : DB) (i : string) :
  target req = POST_admin_messages_delete ->
  is_admin (session req) = true ->
  param "id" (body req) = Some (Text i) -> i <> EmptyString ->
  handle cfg as_rowid driver req db =
    {| answer := Redirect "/admin?msg=deleted";
       store := delete_message as_rowid i db;
       session_after := session req |}.
Proof.
  intros Ht Hadmin Hi Hi'.
  unfold handle. rewrite Ht, requireAdmin_admits by exact Hadmin.
  unfold admin_messages_delete. rewrite Hi, truthy_some by exact Hi'.
  reflexivity.
Qed.

Lemma delete_message_by_id (db : DB) (i : string) (k : Z) :
  as_rowid i = Some k ->
  messages (delete_message as_rowid i db) =
    filter (fun m => negb (Z.eqb (msg_id m) k)) (messages db).
Proof.
  intros Hk. unfold delete_message, rowid_is. simpl. rewrite Hk.
  apply filter_ext. intros m. rewrite Z.eqb_sym. reflexivity.
Qed.

(** Deleting a message: when the submitted id stands for the rowid [k],
    exactly the messages with id [k] go and the others stay in their
    order; when it stands for no integer, nothing is deleted.  The posts
    are untouched either way. *)
Theorem deleted_message_is_gone (req : request) (db : DB) (i : string) :
  target req = POST_admin_messages_delete ->
  is_admin (session req) = true ->
  param "id" (body req) = Some (Text i) -> i <> EmptyString ->
  match as_rowid i with
  | Some k =>
      messages (store (handle cfg as_rowid driver req db)) =
        filter (fun m => negb (Z.eqb (msg_id m) k)) (messages db) /\
      (forall m, In m (messages (store (handle cfg as_rowid driver req db))) ->
                 msg_id m <> k)
  | None => messages (store (handle cfg as_rowid driver req db)) = messages db
  end /\
  posts (store (handle cfg as_rowid driver req db)) = posts db /\
  answer (handle cfg as_rowid driver req db) = Redirect "/admin?msg=deleted".
Proof.
  intros Ht Hadmin Hi Hi'.
  rewrite (messages_delete_runs req db i Ht Hadmin Hi Hi'). cbn [store answer].
  split; [|split; reflexivity].
  destruct (as_rowid i) as [k|] eqn:Hk.
  - rewrite (delete_message_by_id db i k Hk). split; [reflexivity|].
    intros m Hm. apply filter_In in Hm. destruct Hm as [_ Hm].
    intros Heq. rewrite Heq, Z.eqb_refl in Hm. discriminate.
  - unfold delete_message, rowid_is. simpl. rewrite Hk.
    apply filter_all. reflexivity.
Qed.

(** A message that was sent is on the dashboard and can be taken off
    again: when a POST /api/contact with the three fields was answered
    with the id [id], the list of the dashboard holds the new row; and an
    administrator's POST /admin/messages/delete with the decimal text of
    [id] (which is what the dashboard's form submits) leaves the messages
    as they were before the message was sent. *)
Theorem sent_message_is_listed_and_deletable
  (req del : request) (db : DB) (n e m : string) (id : Z) :
  target req = POST_api_contact ->
  param "name" (body req) = Some (Text n) -> n <> EmptyString ->
  param "email" (body req) = Some (Text e) -> e <> EmptyString ->
  param "message" (body req) = Some (Text m) -> m <> EmptyString ->
  answer (handle cfg as_rowid driver req db) = Json 200 (success_json id) ->
  target del = POST_admin_messages_delete ->
  is_admin (session del) = true ->
  param "id" (body del) = Some (Text (decimal id)) ->
  as_rowid (decimal id) = Some id ->
  In {| msg_id := id; msg_name := n; msg_email := e; msg_message := m;
        msg_created_at := now req |}
     (all_messages (store (handle cfg as_rowid driver req db))) /\
  messages (store (handle cfg as_rowid driver del
                     (store (handle cfg as_rowid driver req db)))) =
    messages db.
Proof.
  intros Ht Hn Hn' He He' Hm Hm' Hanswer Hdel Hadmin Hid Hrow.
  assert (Hsent :
    messages (store (handle cfg as_rowid driver req db)) =
      messages db ++
      [{| msg_id := id; msg_name := n; msg_email := e; msg_message := m;
          msg_created_at := now req |}] /\
    (forall old, In old (messages db) -> (msg_id old < id)%Z)).
  { revert Hanswer. unfold handle. rewrite Ht. unfold api_contact.
    rewrite Hn, He, Hm, !truthy_some by assumption. simpl.
    intros [= <-]. split; [reflexivity|].
    intros old Hold. apply next_rowid_fresh, in_map, Hold. }
  destruct Hsent as (Hrows & Hfresh).
  split.
  - unfold all_messages.
    eapply Permutation_in; [apply order_by_desc_perm|].
    rewrite Hrows. apply in_or_app. right. left. reflexivity.
  - rewrite (messages_delete_runs del _ (decimal id) Hdel Hadmin Hid
               (decimal_not_empty id)).
    cbn [store]. rewrite (delete_message_by_id _ (decimal id) id Hrow).
    rewrite Hrows, filter_app. simpl. rewrite Z.eqb_refl. simpl.
    rewrite app_nil_r. apply filter_all.
    intros old Hold. specialize (Hfresh old Hold).
    destruct (Z.eqb_spec (msg_id old) id); [lia|reflexivity].
Qed.

End Journeys.

(** ** The theorems at the sample requests *)

Lemma saved_post_is_served_sample :
  exists row : Post,
    answer (handle cfg decimal_rowid array_first read_second
              (store (handle cfg decimal_rowid array_first new_post db1))) =
      Send 200 (text (post_document row 2024)) /\
    post_slug row = "second"%string /\ post_title row = "Second"%string /\
    post_excerpt row = None /\
    post_content row = Some "Text"%string /\
    In (without_content row)
       (all_posts (store
           (handle cfg decimal_rowid array_first new_post db1))) /\
    (forall s', s' <> "second"%string ->
                get_post (store
                    (handle cfg decimal_rowid array_first new_post db1)) s' =
                get_post db1 s').
Proof.
  apply (saved_post_is_served cfg decimal_rowid array_first new_post read_second db1
           "second" "Second" "Text"); try reflexivity; discriminate.
Defined.

Lemma deleted_post_is_gone_sample :
  answer (handle cfg decimal_rowid array_first read_hello
            (store (handle cfg decimal_rowid array_first delete_hello db1))) =
    Send 404 (text (not_found_page 2024)) /\
  (forall s', s' <> "hello"%string ->
              get_post (store
                  (handle cfg decimal_rowid array_first delete_hello db1)) s' =
              get_post db1 s') /\
  messages (store
      (handle cfg decimal_rowid array_first delete_hello db1)) = [greeting] /\
  store (handle cfg decimal_rowid array_first delete_hello
           (store (handle cfg decimal_rowid array_first delete_hello db1))) =
    store (handle cfg decimal_rowid array_first delete_hello db1).
Proof.
  apply (deleted_post_is_gone cfg decimal_rowid array_first delete_hello read_hello db1
           "hello"); try reflexivity; discriminate.
Defined.

Lemma deleted_message_is_gone_sample :
  (messages (store
      (handle cfg decimal_rowid array_first delete_greeting db1)) = [] /\
   (forall m,
      In m (messages (store
          (handle cfg decimal_rowid array_first delete_greeting db1))) ->
      msg_id m <> 1%Z)) /\
  posts (store
      (handle cfg decimal_rowid array_first delete_greeting db1)) = [hello] /\
  answer (handle cfg decimal_rowid array_first delete_greeting db1) =
    Redirect "/admin?msg=deleted".
Proof.
  apply (deleted_message_is_gone cfg decimal_rowid array_first delete_greeting db1 "1");
    try reflexivity; discriminate.
Defined.

Lemma sent_message_is_listed_and_deletable_sample :
  In {| msg_id := 2; msg_name := "Bob"; msg_email := "bob@example.org";
        msg_message := "Hello"; msg_created_at := now contact |}
     (all_messages (store
         (handle cfg decimal_rowid array_first contact db1))) /\
  messages (store (handle cfg decimal_rowid array_first delete_second_message
                     (store
                         (handle cfg decimal_rowid array_first contact db1)))) =
    [greeting].
Proof.
  apply (sent_message_is_listed_and_deletable cfg decimal_rowid array_first contact
           delete_second_message db1 "Bob" "bob@example.org" "Hello" 2);
    try reflexivity; discriminate.
Defined.

(** ** Forms that are not filled in, and logins that fail *)

Section Refusals.

Variable cfg : Config.
Variable as_rowid : string -> option Z.
Variable driver : list (option field_value) -> option (list (option string)).

(** A form of the dashboard with a field missing: an administrator's
    POST /admin/posts without a slug, a title or a content (not sent, or
    empty), POST /admin/posts/delete without a slug and POST
    /admin/messages/delete without an id are answered with the redirect
    to /admin?msg=missing and change neither the store nor the
    session. *)
Theorem admin_form_with_missing_field (req : request) (db : DB) :
  is_admin (session req) = true ->
  (target req = POST_admin_posts /\
   truthy (param "slug" (body req)) && truthy (param "title" (body req)) &&
   truthy (param "content" (body req)) = false) \/
  (target req = POST_admin_posts_delete /\
   truthy (param "slug" (body req)) = false) \/
  (target req = POST_admin_messages_delete /\
   truthy (param "id" (body req)) = false) ->
  handle cfg as_rowid driver req db =
    {| answer := Redirect "/admin?msg=missing"; store := db;
       session_after := session req |}.
Proof.
  intros Hadmin Hform. unfold handle.
  destruct Hform as [[Ht Hmissing]|[[Ht Hmissing]|[Ht Hmissing]]];
    rewrite Ht, requireAdmin_admits by exact Hadmin.
  - unfold admin_posts.
    destruct (truthy (param "slug" (body req))),
      (truthy (param "title" (body req))),
      (truthy (param "content" (body req)));
      try discriminate Hmissing; reflexivity.
  - unfold admin_posts_delete.
    destruct (param "slug" (body req)) as [v|]; [|reflexivity].
    rewrite Hmissing. reflexivity.
  - unfold admin_messages_delete.
    destruct (param "id" (body req)) as [v|]; [|reflexivity].
    rewrite Hmissing. reflexivity.
Qed.

(** A login that fails: a POST /admin/login whose email is not the
    configured one, or whose password is not, or that lacks one of them,
    is answered with the redirect to /admin/login?error=invalid and
    leaves the session and the store as they were, also when the request
    has no session. *)
Theorem failed_login_changes_nothing (req : request) (db : DB) :
  target req = POST_admin_login ->
  param "email" (body req) <> Some (Text (ADMIN_EMAIL cfg)) \/
  param "password" (body req) <> Some (Text (ADMIN_PASSWORD cfg)) ->
  handle cfg as_rowid driver req db =
    {| answer := Redirect "/admin/login?error=invalid"; store := db;
       session_after := session req |}.
Proof.
  intros Ht Hwrong. unfold handle. rewrite Ht. unfold admin_login.
  destruct (is_text (param "email" (body req)) (ADMIN_EMAIL cfg)) eqn:He;
    [|reflexivity].
  destruct (is_text (param "password" (body req)) (ADMIN_PASSWORD cfg))
    eqn:Hp; [|reflexivity].
  apply is_text_true in He, Hp.
  destruct Hwrong as [H|H]; exfalso; apply H; assumption.
Qed.

End Refusals.

Lemma admin_form_with_missing_field_sample :
  handle cfg decimal_rowid array_first post_without_title db1 =
    {| answer := Redirect "/admin?msg=missing"; store := db1;
       session_after := administrator |}.
Proof.
  apply (admin_form_with_missing_field cfg decimal_rowid array_first post_without_title
           db1); [reflexivity|].
  left. split; reflexivity.
Defined.

Lemma failed_login_changes_nothing_sample :
  handle cfg decimal_rowid array_first wrong_password db1 =
    {| answer := Redirect "/admin/login?error=invalid"; store := db1;
       session_after := Some fresh_session |}.
Proof.
  apply (failed_login_changes_nothing cfg decimal_rowid array_first wrong_password db1);
    [reflexivity|].
  right. discriminate.
Defined.

(** ** [escapeHtml] and [encodeURIComponent] on the text itself *)

(** The cases of [entity] on a byte. *)
Lemma entity_cases (c : ascii) :
  (c = "&"%char /\ entity c = ["&"; "a"; "m"; "p"; ";"]%char) \/
  (c = "<"%char /\ entity c = ["&"; "l"; "t"; ";"]%char) \/
  (c = ">"%char /\ entity c = ["&"; "g"; "t"; ";"]%char) \/
  (c = dquote /\ entity c = ["&"; "q"; "u"; "o"; "t"; ";"]%char) \/
  (c = "'"%char /\ entity c = ["&"; "#"; "0"; "3"; "9"; ";"]%char) \/
  (special c = false /\ entity c = [c]).
Proof.
  unfold entity, at_char, special. cbn [code plain existsb].
  destruct (Ascii.eqb_spec c "&") as [->|H1]; [left; split; reflexivity|].
  destruct (Ascii.eqb_spec c "<") as [->|H2];
    [right; left; split; reflexivity|].
  destruct (Ascii.eqb_spec c ">") as [->|H3];
    [right; right; left; split; reflexivity|].
  destruct (Ascii.eqb_spec c dquote) as [->|H4];
    [right; right; right; left; split; reflexivity|].
  destruct (Ascii.eqb_spec c "'") as [->|H5];
    [right; right; right; right; left; split; reflexivity|].
  right; right; right; right; right. split; [|reflexivity].
  unfold dquote in H4. destruct (Ascii.eqb_spec c "034"); [contradiction|].
  reflexivity.
Qed.

Lemma special_amp : special "&" = true.
Proof. reflexivity. Qed.

Lemma flat_map_entity_length (s : list ascii) :
  length s <= length (flat_map entity s).
Proof.
  induction s as [|c s IH]; simpl; [lia|].
  rewrite length_app.
  destruct (entity_cases c)
    as [[_ ->]|[[_ ->]|[[_ ->]|[[_ ->]|[[_ ->]|[_ ->]]]]]]; simpl; lia.
Qed.

(** The markup characters [escapeHtml] leaves in no text: whatever the
    argument, the result holds no [<], no [>], no double quote and no
    single quote, so it cannot open or close a tag or end an attribute
    value. *)
Theorem escapeHtml_leaves_no_markup (s : list ascii) :
  Forall (fun c => c <> "<"%char /\ c <> ">"%char /\ c <> dquote /\
                   c <> "'"%char)
         (escapeHtml s).
Proof.
  rewrite escapeHtml_flat_map.
  induction s as [|c s IH]; simpl; [constructor|].
  apply Forall_app. split; [|exact IH].
  destruct (entity_cases c)
    as [[_ ->]|[[_ ->]|[[_ ->]|[[_ ->]|[[_ ->]|[Hc ->]]]]]];
    try (repeat constructor; discriminate).
  constructor; [|constructor].
  unfold special in Hc. cbn [existsb] in Hc.
  apply orb_false_elim in Hc. destruct Hc as [_ Hc].
  apply orb_false_elim in Hc. destruct Hc as [H2 Hc].
  apply orb_false_elim in Hc. destruct Hc as [H3 Hc].
  apply orb_false_elim in Hc. destruct Hc as [H4 Hc].
  apply orb_false_elim in Hc. destruct Hc as [H5 _].
  apply Ascii.eqb_neq in H2, H3, H4, H5.
  repeat split; assumption.
Qed.

(** [escapeHtml] returns its argument unchanged exactly when the
    argument holds none of the five characters [&], [<], [>], the double
    quote and [']. *)
Theorem escapeHtml_fixes_exactly_plain_text (s : list ascii) :
  escapeHtml s = s <-> Forall (fun c => special c = false) s.
Proof.
  rewrite escapeHtml_flat_map. split.
  - induction s as [|c s IH]; intros Heq; [constructor|].
    simpl in Heq.
    destruct (entity_cases c)
      as [[-> E]|[[-> E]|[[-> E]|[[-> E]|[[-> E]|[Hc E]]]]]];
      rewrite E in Heq;
      try (injection Heq as Heq;
           pose proof (flat_map_entity_length s) as Hlen;
           apply (f_equal (@length ascii)) in Heq; simpl in Heq; lia);
      try discriminate Heq.
    injection Heq as Heq. constructor; [exact Hc|exact (IH Heq)].
  - induction 1 as [|c s Hc _ IH]; [reflexivity|].
    simpl.
    destruct (entity_cases c)
      as [[-> _]|[[-> _]|[[-> _]|[[-> _]|[[-> _]|[_ ->]]]]]];
      try discriminate Hc.
    simpl. rewrite IH. reflexivity.
Qed.

(** [escapeHtml] loses nothing: two texts have the same escaped form
    only when they are the same text. *)
Theorem escapeHtml_is_injective (s t : list ascii) :
  escapeHtml s = escapeHtml t <-> s = t.
Proof.
  split; [|intros ->; reflexivity].
  rewrite !escapeHtml_flat_map. revert t.
  induction s as [|c s IH]; intros [|d t] Heq.
  - reflexivity.
  - exfalso. simpl in Heq.
    destruct (entity_cases d)
      as [[_ E]|[[_ E]|[[_ E]|[[_ E]|[[_ E]|[_ E]]]]]];
      rewrite E in Heq; discriminate Heq.
  - exfalso. simpl in Heq.
    destruct (entity_cases c)
      as [[_ E]|[[_ E]|[[_ E]|[[_ E]|[[_ E]|[_ E]]]]]];
      rewrite E in Heq; discriminate Heq.
  - simpl in Heq.
    destruct (entity_cases c)
      as [[-> E]|[[-> E]|[[-> E]|[[-> E]|[[-> E]|[Hc E]]]]]];
      destruct (entity_cases d)
        as [[-> E']|[[-> E']|[[-> E']|[[-> E']|[[-> E']|[Hd E']]]]]];
      rewrite ?E, ?E' in Heq; simpl in Heq; try discriminate Heq;
      try (injection Heq as Heq; f_equal; apply IH; exact Heq);
      try (exfalso; injection Heq as Hhead _;
           first [rewrite <- Hhead in Hd | rewrite Hhead in Hc];
           discriminate).
    injection Heq as -> Heq. f_equal. apply IH. exact Heq.
Qed.

Lemma hex_digit_unreserved (n : nat) :
  n < 16 -> unreserved (hex_digit n) = true.
Proof.
  intros Hn. do 16 (destruct n as [|n]; [reflexivity|]). lia.
Qed.

Lemma hex_digit_injective (a b : nat) :
  a < 16 -> b < 16 -> hex_digit a = hex_digit b -> a = b.
Proof.
  intros Ha Hb.
  do 16 (destruct a as [|a];
         [do 16 (destruct b as [|b];
                 [first [reflexivity | discriminate]|]); lia|]).
  lia.
Qed.

Lemma nat_of_ascii_small (c : ascii) : nat_of_ascii c < 256.
Proof.
  destruct c as [[] [] [] [] [] [] [] []]; vm_compute; lia.
Qed.

Lemma nat_of_ascii_injective (c d : ascii) :
  nat_of_ascii c = nat_of_ascii d -> c = d.
Proof.
  intros Heq. rewrite <- (ascii_nat_embedding c), <- (ascii_nat_embedding d).
  rewrite Heq. reflexivity.
Qed.

Lemma encodeURIComponent_cons (c : ascii) (s : list ascii) :
  encodeURIComponent (c :: s) =
  (if unreserved c then [c] else percent c) ++ encodeURIComponent s.
Proof. reflexivity. Qed.

Lemma encodeURIComponent_length (s : list ascii) :
  length s <= length (encodeURIComponent s).
Proof.
  unfold encodeURIComponent. cbn [code plain].
  induction s as [|c s IH]; simpl; [lia|].
  rewrite length_app. destruct (unreserved c); simpl; lia.
Qed.

(** What [encodeURIComponent] returns is made of unreserved characters
    and [%] alone, and it returns its argument unchanged exactly when the
    argument is made of unreserved characters: no [/], [?], [#], [&],
    space, quote or angle bracket of a slug reaches the link of its post,
    except the single quote, which is unreserved. *)
Theorem encodeURIComponent_is_url_safe (s : list ascii) :
  Forall (fun c => unreserved c = true \/ c = "%"%char)
         (encodeURIComponent s) /\
  (encodeURIComponent s = s <-> Forall (fun c => unreserved c = true) s).
Proof.
  split; [|split].
  - induction s as [|c s IH]; [constructor|].
    rewrite encodeURIComponent_cons.
    apply Forall_app. split; [|exact IH].
    destruct (unreserved c) eqn:Hc.
    + constructor; [left; exact Hc|constructor].
    + pose proof (nat_of_ascii_small c) as Hsmall.
      unfold percent. cbn [code plain glyph].
      constructor; [right; reflexivity|].
      constructor; [left; apply hex_digit_unreserved;
                    apply Nat.Div0.div_lt_upper_bound; lia|].
      constructor; [left; apply hex_digit_unreserved;
                    apply Nat.mod_upper_bound; lia|].
      constructor.
  - induction s as [|c s IH]; intros Heq; [constructor|].
    rewrite encodeURIComponent_cons in Heq.
    destruct (unreserved c) eqn:Hc.
    + injection Heq as Heq. constructor; [exact Hc|exact (IH Heq)].
    + pose proof (encodeURIComponent_length s) as Hlen.
      apply (f_equal (@length ascii)) in Heq.
      rewrite length_app in Heq. cbn [length percent] in Heq. lia.
  - induction 1 as [|c s Hc _ IH]; [reflexivity|].
    rewrite encodeURIComponent_cons, Hc, IH. reflexivity.
Qed.

(** [encodeURIComponent] loses nothing: two slugs have the same encoded
    form only when they are the same slug, so the links of the home page
    tell the posts apart. *)
Theorem encodeURIComponent_is_injective (s t : list ascii) :
  encodeURIComponent s = encodeURIComponent t <-> s = t.
Proof.
  split; [|intros ->; reflexivity].
  revert t.
  assert (Hpercent : forall c d : ascii,
            hex_digit (nat_of_ascii c / 16) = hex_digit (nat_of_ascii d / 16) ->
            hex_digit (nat_of_ascii c mod 16) =
              hex_digit (nat_of_ascii d mod 16) ->
            c = d).
  { intros c d Hhi Hlo.
    pose proof (nat_of_ascii_small c) as Hc.
    pose proof (nat_of_ascii_small d) as Hd.
    apply hex_digit_injective in Hhi;
      [|apply Nat.Div0.div_lt_upper_bound; lia
       |apply Nat.Div0.div_lt_upper_bound; lia].
    apply hex_digit_injective in Hlo;
      [|apply Nat.mod_upper_bound; lia|apply Nat.mod_upper_bound; lia].
    apply nat_of_ascii_injective.
    rewrite (Nat.div_mod_eq (nat_of_ascii c) 16),
      (Nat.div_mod_eq (nat_of_ascii d) 16), Hhi, Hlo.
    reflexivity. }
  induction s as [|c s IH]; intros [|d t] Heq.
  - reflexivity.
  - exfalso. rewrite encodeURIComponent_cons in Heq.
    destruct (unreserved d); discriminate Heq.
  - exfalso. rewrite encodeURIComponent_cons in Heq.
    destruct (unreserved c); discriminate Heq.
  - rewrite !encodeURIComponent_cons in Heq.
    unfold percent in Heq. cbn [code plain glyph] in Heq.
    destruct (unreserved c) eqn:Hc, (unreserved d) eqn:Hd;
      cbn [app] in Heq.
    + injection Heq as -> Heq. f_equal. apply IH. exact Heq.
    + exfalso. injection Heq as Hhead _. rewrite Hhead in Hc.
      discriminate Hc.
    + exfalso. injection Heq as Hhead _. rewrite <- Hhead in Hd.
      discriminate Hd.
    + injection Heq as Hhi Hlo Heq.
      rewrite (Hpercent c d Hhi Hlo). f_equal. apply IH. exact Heq.
Qed.

(** ** [markdownToHtml] on text without marks *)

Section NoMatch.

Context {A : Type} `{Glyphs A}.

Lemma search_needs (a : ascii) (r : regex) :
  needs a r ->
  forall s p, Forall (fun x => at_char a x = false) s -> search r p s = None.
Proof.
  intros Hr. induction s as [|x xs IH]; intros p Hs; cbn [search];
    unfold exec_at.
  - rewrite Hr by exact I. reflexivity.
  - inversion Hs; subst. rewrite Hr by assumption. cbn [hd_error].
    rewrite IH by assumption. reflexivity.
Qed.

Lemma replace_needs (a : ascii) (r : regex) (t : string) (s : list A) :
  needs a r -> Forall (fun x => at_char a x = false) s -> replace r t s = s.
Proof.
  intros Hr Hs. unfold replace. cbn [replace_from].
  rewrite (search_needs a r Hr) by exact Hs. reflexivity.
Qed.

Lemma needs_chr (a : ascii) (r : regex) : needs a (Cat (Chr a) r).
Proof.
  intros c Hc. cbn [run]. destruct (rest c) as [|x xs]; [reflexivity|].
  rewrite Hc. reflexivity.
Qed.

Lemma needs_cat (a : ascii) (r1 r2 : regex) :
  needs a r1 -> needs a (Cat r1 r2).
Proof. intros Hr c Hc. cbn [run]. rewrite Hr by exact Hc. reflexivity. Qed.

Lemma needs_bol (a : ascii) (r : regex) : needs a r -> needs a (Cat Bol r).
Proof.
  intros Hr c Hc. cbn [run].
  destruct (before c) as [|y p]; cbn [flat_map].
  - rewrite Hr by exact Hc. reflexivity.
  - destruct (newline_before (y :: p)); cbn [flat_map]; [|reflexivity].
    rewrite Hr by exact Hc. reflexivity.
Qed.

Lemma search_mark_needs (a : ascii) (r : regex) :
  needs a r ->
  forall fuel p piece s,
    Forall (fun x => at_char a x = false) s ->
    split_from fuel r p piece s = [rev piece ++ s].
Proof.
  intros Hr. induction fuel as [|fuel IH]; intros p piece s Hs; [reflexivity|].
  destruct s as [|x xs].
  - cbn [split_from]. rewrite app_nil_r. reflexivity.
  - inversion Hs; subst. cbn [split_from]. unfold exec_at.
    rewrite Hr by assumption. cbn [hd_error].
    rewrite IH by assumption. simpl. rewrite <- app_assoc. reflexivity.
Qed.

Lemma split_needs (a : ascii) (r : regex) (s : list A) :
  needs a r -> Forall (fun x => at_char a x = false) s -> split r s = [s].
Proof.
  intros Hr Hs. unfold split. destruct s as [|x xs].
  - unfold exec_at. rewrite Hr by exact I. reflexivity.
  - apply (search_mark_needs a r Hr _ [] [] (x :: xs) Hs).
Qed.

(** The marks of [markdownToHtml]: [#], [*], [[] and the backslash. *)
Lemma markdown_needs_marks :
  needs (A:=A) "#" re_h3 /\ needs (A:=A) "#" re_h2 /\
  needs (A:=A) "#" re_h1 /\ needs (A:=A) "*" re_strong /\
  needs (A:=A) "*" re_em /\ needs (A:=A) "[" re_link /\
  needs (A:=A) "\" re_paragraphs /\ needs (A:=A) "\" re_linebreak.
Proof.
  repeat split;
    try (apply needs_bol, needs_cat, needs_chr);
    try (apply needs_cat, needs_chr);
    apply needs_chr.
Qed.

End NoMatch.

(** Text without marks is wrapped, not changed: when a text is not empty
    and holds no [#], [*], [[] and no backslash, [markdownToHtml] returns
    it between [<p>] and [</p>], line feeds included. *)
Theorem markdownToHtml_wraps_plain_text (md : list ascii) :
  md <> [] ->
  Forall (fun c => c <> "#"%char /\ c <> "*"%char /\ c <> "["%char /\
                   c <> "\"%char) md ->
  markdownToHtml md = chars "<p>" ++ md ++ chars "</p>".
Proof.
  intros Hne Hmd.
  assert (Hmark : forall a : ascii,
            In a ["#"; "*"; "["; "\"]%char ->
            Forall (fun x : ascii => at_char a x = false) md).
  { intros a Ha. eapply Forall_impl; [|exact Hmd].
    intros c (H1 & H2 & H3 & H4). unfold at_char. cbn [code plain].
    apply Ascii.eqb_neq. simpl in Ha.
    destruct Ha as [<-|[<-|[<-|[<-|[]]]]]; assumption. }
  destruct (markdown_needs_marks (A:=ascii))
    as (Hh3 & Hh2 & Hh1 & Hstrong & Hem & Hlink & Hpar & Hbr).
  assert (Hinline : inline md = md).
  { unfold inline.
    rewrite (replace_needs "#" re_h3 _ md Hh3) by (apply Hmark; simpl; tauto).
    rewrite (replace_needs "#" re_h2 _ md Hh2) by (apply Hmark; simpl; tauto).
    rewrite (replace_needs "#" re_h1 _ md Hh1) by (apply Hmark; simpl; tauto).
    rewrite (replace_needs "*" re_strong _ md Hstrong)
      by (apply Hmark; simpl; tauto).
    rewrite (replace_needs "*" re_em _ md Hem) by (apply Hmark; simpl; tauto).
    apply (replace_needs "[" re_link _ md Hlink). apply Hmark. simpl. tauto. }
  destruct md as [|x md]; [contradiction|].
  change (markdownToHtml (x :: md))
    with (join (map paragraph (split re_paragraphs (inline (x :: md))))).
  rewrite Hinline.
  rewrite (split_needs "\" re_paragraphs _ Hpar)
    by (apply Hmark; simpl; tauto).
  simpl. rewrite app_nil_r. unfold paragraph.
  rewrite (replace_needs "\" re_linebreak _ _ Hbr)
    by (apply Hmark; simpl; tauto).
  reflexivity.
Qed.

Lemma markdownToHtml_wraps_plain_text_sample :
  markdownToHtml (chars two_paragraphs) =
  chars "<p>" ++ chars two_paragraphs ++ chars "</p>".
Proof.
  apply (markdownToHtml_wraps_plain_text (chars two_paragraphs)).
  - discriminate.
  - repeat constructor; discriminate.
Defined.

(** ** The lists of App.jsx: saving, editing and removing *)

Lemma same_id_refl (a : option string) : Browser.same_id a a = true.
Proof. apply same_id_true. reflexivity. Qed.

Lemma decimal_is_truthy (now : Z) :
  negb (String.eqb (decimal now) EmptyString) = true.
Proof.
  destruct (String.eqb_spec (decimal now) EmptyString) as [E|_];
    [|reflexivity].
  exfalso. exact (decimal_not_empty now E).
Qed.

Lemma map_unless_absent {T : Type} (f : T -> bool) (x : T) (l : list T) :
  (forall y, In y l -> f y = false) ->
  map (fun y => if f y then x else y) l = l.
Proof.
  induction l as [|y l IH]; simpl; intros Hl; [reflexivity|].
  rewrite (Hl y (or_introl eq_refl)). f_equal.
  apply IH. intros z Hz. apply Hl. right. exact Hz.
Qed.

(** Removing a post that was just saved: the post saved as new gets the
    id [Date.now().toString()], so removing that id takes it out again,
    together with every post that has the same id; a second post saved in
    the same millisecond is one of them.  When no post had that id the
    list is as it was before the save. *)
Theorem new_post_then_remove (form form' : Browser.Form) (now : Z)
  (iso iso' : string) (prev : list Browser.Post) :
  Browser.removePost (Some (decimal now))
    (Browser.save None form now iso prev) =
    Browser.removePost (Some (decimal now)) prev /\
  Browser.removePost (Some (decimal now))
    (Browser.save None form' now iso'
       (Browser.save None form now iso prev)) =
    Browser.removePost (Some (decimal now)) prev /\
  ((forall p, In p prev -> Browser.id p <> Some (decimal now)) ->
   Browser.removePost (Some (decimal now)) prev = prev).
Proof.
  assert (Hone : forall f i l,
            Browser.removePost (Some (decimal now))
              (Browser.save None f now i l) =
            Browser.removePost (Some (decimal now)) l).
  { intros f i l. unfold Browser.save, Browser.upsertPost, Browser.removePost.
    simpl. rewrite String.eqb_refl. reflexivity. }
  split; [apply Hone|]. split; [rewrite !Hone; reflexivity|].
  intros Hfresh. unfold Browser.removePost. apply filter_all.
  intros p Hp. rewrite same_id_false; [reflexivity|exact (Hfresh p Hp)].
Qed.

(** A post that was saved as new can be edited: its id is not empty, so a
    later save of its edit takes the branch that maps over the list.  When
    no other post has its id, the list is then the edited post, under the
    id and the time of the first save, before the posts there were. *)
Theorem new_post_then_edit (form form' : Browser.Form) (now now' : Z)
  (iso iso' : string) (prev : list Browser.Post) :
  (forall p, In p prev -> Browser.id p <> Some (decimal now)) ->
  exists created : Browser.Post,
    Browser.save None form now iso prev = created :: prev /\
    Browser.has_id created = true /\
    Browser.save (Some created) form' now' iso'
      (Browser.save None form now iso prev) =
      {| Browser.id := Some (decimal now);
         Browser.title := Browser.form_title form';
         Browser.content := Browser.form_content form';
         Browser.createdAt := Some iso |} :: prev.
Proof.
  intros Hfresh.
  exists {| Browser.id := Some (decimal now);
            Browser.title := Browser.form_title form;
            Browser.content := Browser.form_content form;
            Browser.createdAt := Some iso |}.
  split; [reflexivity|]. split; [apply decimal_is_truthy|].
  unfold Browser.save at 1. unfold Browser.upsertPost.
  assert (Hid : Browser.has_id
            (Browser.saved
               (Some {| Browser.id := Some (decimal now);
                        Browser.title := Browser.form_title form;
                        Browser.content := Browser.form_content form;
                        Browser.createdAt := Some iso |}) form' iso') = true)
    by apply decimal_is_truthy.
  rewrite Hid. cbn [negb].
  change (Browser.save None form now iso prev)
    with ({| Browser.id := Some (decimal now);
             Browser.title := Browser.form_title form;
             Browser.content := Browser.form_content form;
             Browser.createdAt := Some iso |} :: prev).
  cbn [map Browser.id Browser.saved]. rewrite same_id_refl. f_equal.
  apply (map_unless_absent
           (fun p => Browser.same_id (Browser.id p) (Some (decimal now)))).
  intros p Hp. apply same_id_false. exact (Hfresh p Hp).
Qed.

(** An edit keeps the ids and settles: saving the edit of a post that has
    an id leaves the list of ids as it was, position by position, and
    saving the same edit once more changes nothing. *)
Theorem edit_keeps_ids_and_settles
  (orig : Browser.Post) (form : Browser.Form) (now now' : Z)
  (iso iso' stamp : string) (prev : list Browser.Post) :
  Browser.has_id orig = true ->
  Browser.createdAt orig = Some stamp ->
  map Browser.id (Browser.save (Some orig) form now iso prev) =
    map Browser.id prev /\
  Browser.save (Some orig) form now' iso'
    (Browser.save (Some orig) form now iso prev) =
    Browser.save (Some orig) form now iso prev.
Proof.
  intros Hid Hstamp.
  assert (Hsaved : forall i, Browser.saved (Some orig) form i =
                   {| Browser.id := Browser.id orig;
                      Browser.title := Browser.form_title form;
                      Browser.content := Browser.form_content form;
                      Browser.createdAt := Some stamp |}).
  { intros i. unfold Browser.saved. rewrite Hstamp. reflexivity. }
  unfold Browser.save, Browser.upsertPost. rewrite !Hsaved.
  assert (Hkept : Browser.has_id
            {| Browser.id := Browser.id orig;
               Browser.title := Browser.form_title form;
               Browser.content := Browser.form_content form;
               Browser.createdAt := Some stamp |} = true) by exact Hid.
  rewrite Hkept. cbn [negb Browser.id]. split.
  - rewrite map_map. apply map_ext_in. intros p _.
    destruct (Browser.same_id (Browser.id p) (Browser.id orig)) eqn:E;
      [|reflexivity].
    apply same_id_true in E. symmetry. exact E.
  - rewrite map_map. apply map_ext_in. intros p _.
    destruct (Browser.same_id (Browser.id p) (Browser.id orig)) eqn:E.
    + cbn [Browser.id]. rewrite same_id_refl. reflexivity.
    + rewrite E. reflexivity.
Qed.

(** Saving a post as it is changes nothing: when the posts of the list
    have distinct ids, saving the form of one of them unchanged (the form
    the dialog opens with) gives the same list. *)
Theorem saving_unchanged_post_is_noop
  (orig : Browser.Post) (now : Z) (iso stamp : string)
  (prev : list Browser.Post) :
  In orig prev ->
  Browser.has_id orig = true ->
  Browser.createdAt orig = Some stamp ->
  NoDup (map Browser.id prev) ->
  Browser.save (Some orig)
    {| Browser.form_title := Browser.title orig;
       Browser.form_content := Browser.content orig |} now iso prev = prev.
Proof.
  intros Hin Hid Hstamp Hdistinct.
  assert (Hsaved : Browser.saved (Some orig)
            {| Browser.form_title := Browser.title orig;
               Browser.form_content := Browser.content orig |} iso = orig).
  { unfold Browser.saved. cbn [Browser.form_title Browser.form_content].
    rewrite Hstamp. destruct orig as [i t c s]. simpl in *.
    rewrite Hstamp. reflexivity. }
  unfold Browser.save, Browser.upsertPost. rewrite Hsaved, Hid. cbn [negb].
  rewrite <- (map_id prev) at 2. apply map_ext_in. intros p Hp.
  destruct (Browser.same_id (Browser.id p) (Browser.id orig)) eqn:E;
    [|reflexivity].
  apply same_id_true in E.
  clear - Hin Hp E Hdistinct.
  induction prev as [|q prev IH]; [contradiction|].
  simpl in Hdistinct. inversion Hdistinct as [|? ? Hq Hrest]; subst.
  destruct Hin as [->|Hin], Hp as [->|Hp].
  - reflexivity.
  - exfalso. apply Hq. rewrite <- E. apply in_map. exact Hp.
  - exfalso. apply Hq. rewrite E. apply in_map. exact Hin.
  - apply IH; assumption.
Qed.

(** ** The projects of App.jsx *)

(** Saving the edit of a project that has an id maps over the list: the
    length is kept, an element with another id stays where it was and as
    it was, an element with the edited project's id becomes the form's
    fields under the id of the original.  Saving a new project puts it in
    front of the list, under an id made from the clock. *)
Theorem project_save_edits_in_place_or_prepends
  (orig : Portfolio.Project) (form : Portfolio.Form) (now : Z)
  (prev : list Portfolio.Project) :
  Portfolio.has_id orig = true ->
  length (Portfolio.save (Some orig) form now prev) = length prev /\
  (forall k p, nth_error prev k = Some p ->
               Portfolio.id p <> Portfolio.id orig ->
               nth_error (Portfolio.save (Some orig) form now prev) k =
                 Some p) /\
  (forall k p, nth_error prev k = Some p ->
               Portfolio.id p = Portfolio.id orig ->
               nth_error (Portfolio.save (Some orig) form now prev) k =
                 Some {| Portfolio.id := Portfolio.id orig;
                         Portfolio.title := Portfolio.form_title form;
                         Portfolio.description :=
                           Portfolio.form_description form;
                         Portfolio.lang := Portfolio.form_lang form;
                         Portfolio.repo := Portfolio.form_repo form;
                         Portfolio.live := Portfolio.form_live form |}) /\
  Portfolio.save None form now prev =
    {| Portfolio.id := Some (decimal now);
       Portfolio.title := Portfolio.form_title form;
       Portfolio.description := Portfolio.form_description form;
       Portfolio.lang := Portfolio.form_lang form;
       Portfolio.repo := Portfolio.form_repo form;
       Portfolio.live := Portfolio.form_live form |} :: prev.
Proof.
  intros Hid.
  assert (Hsave : Portfolio.save (Some orig) form now prev =
            map (fun p => if Browser.same_id (Portfolio.id p) (Portfolio.id orig)
                          then Portfolio.saved (Some orig) form else p) prev).
  { unfold Portfolio.save, Portfolio.upsertProject.
    assert (Hkept : Portfolio.has_id (Portfolio.saved (Some orig) form) = true)
      by exact Hid.
    rewrite Hkept. reflexivity. }
  rewrite Hsave. repeat split.
  - apply length_map.
  - intros k p Hk Hother. rewrite nth_error_map, Hk. simpl.
    rewrite same_id_false by exact Hother. reflexivity.
  - intros k p Hk Hsame. rewrite nth_error_map, Hk. simpl.
    apply same_id_true in Hsame. rewrite Hsame. reflexivity.
Qed.

(** The life of a project: saved as new, then edited, then removed.  When
    no project of the list has the id the clock gives, the edit changes
    the new project alone, and removing its id gives back the list there
    was before it was saved. *)
Theorem project_saved_edited_removed
  (form form' : Portfolio.Form) (now now' : Z)
  (prev : list Portfolio.Project) :
  (forall p, In p prev -> Portfolio.id p <> Some (decimal now)) ->
  exists created : Portfolio.Project,
    Portfolio.save None form now prev = created :: prev /\
    Portfolio.id created = Some (decimal now) /\
    Portfolio.save (Some created) form' now' (created :: prev) =
      Portfolio.saved (Some created) form' :: prev /\
    Portfolio.removeProject (Portfolio.id created)
      (Portfolio.save (Some created) form' now' (created :: prev)) = prev.
Proof.
  intros Hfresh.
  exists {| Portfolio.id := Some (decimal now);
            Portfolio.title := Portfolio.form_title form;
            Portfolio.description := Portfolio.form_description form;
            Portfolio.lang := Portfolio.form_lang form;
            Portfolio.repo := Portfolio.form_repo form;
            Portfolio.live := Portfolio.form_live form |}.
  split; [reflexivity|]. split; [reflexivity|].
  assert (Hedit :
    Portfolio.save
      (Some {| Portfolio.id := Some (decimal now);
               Portfolio.title := Portfolio.form_title form;
               Portfolio.description := Portfolio.form_description form;
               Portfolio.lang := Portfolio.form_lang form;
               Portfolio.repo := Portfolio.form_repo form;
               Portfolio.live := Portfolio.form_live form |}) form' now'
      ({| Portfolio.id := Some (decimal now);
          Portfolio.title := Portfolio.form_title form;
          Portfolio.description := Portfolio.form_description form;
          Portfolio.lang := Portfolio.form_lang form;
          Portfolio.repo := Portfolio.form_repo form;
          Portfolio.live := Portfolio.form_live form |} :: prev) =
    Portfolio.saved
      (Some {| Portfolio.id := Some (decimal now);
               Portfolio.title := Portfolio.form_title form;
               Portfolio.description := Portfolio.form_description form;
               Portfolio.lang := Portfolio.form_lang form;
               Portfolio.repo := Portfolio.form_repo form;
               Portfolio.live := Portfolio.form_live form |}) form' :: prev).
  { unfold Portfolio.save, Portfolio.upsertProject.
    assert (Hid : forall f, Portfolio.has_id
              (Portfolio.saved
                 (Some {| Portfolio.id := Some (decimal now);
                          Portfolio.title := Portfolio.form_title form;
                          Portfolio.description :=
                            Portfolio.form_description form;
                          Portfolio.lang := Portfolio.form_lang form;
                          Portfolio.repo := Portfolio.form_repo form;
                          Portfolio.live := Portfolio.form_live form |}) f)
              = true)
      by (intros f; apply decimal_is_truthy).
    rewrite Hid. cbn [negb map Portfolio.id Portfolio.saved].
    rewrite same_id_refl. f_equal.
    apply (map_unless_absent
             (fun p => Browser.same_id (Portfolio.id p) (Some (decimal now)))).
    intros p Hp. apply same_id_false. exact (Hfresh p Hp). }
  split; [exact Hedit|].
  rewrite Hedit. unfold Portfolio.removeProject.
  cbn [filter Portfolio.id Portfolio.saved]. rewrite same_id_refl.
  cbn [negb]. apply filter_all.
  intros p Hp. rewrite same_id_false; [reflexivity|exact (Hfresh p Hp)].
Qed.

(** *** The languages offered and the projects shown *)

Lemma Set_add_in (s : list string) (x y : string) :
  In y (Portfolio.Set_add s x) <-> In y s \/ y = x.
Proof.
  unfold Portfolio.Set_add.
  destruct (existsb (String.eqb x) s) eqn:E.
  - split; [tauto|]. intros [Hy| ->]; [exact Hy|].
    apply existsb_exists in E. destruct E as (z & Hz & Hxz).
    apply String.eqb_eq in Hxz. subst. exact Hz.
  - rewrite in_app_iff. simpl. intuition congruence.
Qed.

Lemma Set_add_distinct (s : list string) (x : string) :
  NoDup s -> NoDup (Portfolio.Set_add s x).
Proof.
  intros Hs. unfold Portfolio.Set_add.
  destruct (existsb (String.eqb x) s) eqn:E; [exact Hs|].
  apply NoDup_snoc; [exact Hs|].
  intros Hx.
  assert (Htrue : existsb (String.eqb x) s = true).
  { apply existsb_exists. exists x. split; [exact Hx|apply String.eqb_refl]. }
  congruence.
Qed.

Lemma Set_from_spec (values acc : list string) :
  NoDup acc ->
  NoDup (fold_left Portfolio.Set_add values acc) /\
  (forall y, In y (fold_left Portfolio.Set_add values acc) <->
             In y acc \/ In y values).
Proof.
  revert acc. induction values as [|x values IH]; intros acc Hacc; simpl.
  - split; [exact Hacc|]. intros y. tauto.
  - destruct (IH (Portfolio.Set_add acc x) (Set_add_distinct acc x Hacc))
      as [Hdistinct Hin].
    split; [exact Hdistinct|].
    intros y. rewrite Hin, Set_add_in. intuition congruence.
Qed.

Lemma includes_empty (hay : string) : Portfolio.includes hay EmptyString = true.
Proof. destruct hay; reflexivity. Qed.

Lemma languages_offer (projects : list Portfolio.Project) (l : string) :
  In l (Portfolio.languages projects) ->
  l = "All"%string \/ exists p, In p projects /\ Portfolio.lang p = l.
Proof.
  intros [<-|Hl]; [left; reflexivity|right].
  destruct (Set_from_spec (map Portfolio.lang projects) [] (NoDup_nil _))
    as [_ Hin].
  apply Hin in Hl. destruct Hl as [[]|Hl].
  apply in_map_iff in Hl. destruct Hl as (p & Hlang & Hp).
  exists p. split; assumption.
Qed.

(** The choices of the language filter: ['All'] first, then each language
    some project has, once. *)
Theorem languages_are_All_then_each_once (projects : list Portfolio.Project) :
  exists rest : list string,
    Portfolio.languages projects = "All"%string :: rest /\
    NoDup rest /\
    (forall l, In l rest <->
               exists p, In p projects /\ Portfolio.lang p = l).
Proof.
  exists (Portfolio.Set_from (map Portfolio.lang projects)).
  split; [reflexivity|].
  destruct (Set_from_spec (map Portfolio.lang projects) [] (NoDup_nil _))
    as [Hdistinct Hin].
  split; [exact Hdistinct|].
  intros l. unfold Portfolio.Set_from. rewrite Hin, in_map_iff.
  split.
  - intros [[]|(p & Hlang & Hp)]. exists p. split; assumption.
  - intros (p & Hp & Hlang). right. exists p. split; assumption.
Qed.

Section Shown.

Variable toLowerCase : string -> string.

(** With nothing typed in the search box, the filter goes by language
    alone: 'All' shows every project, any other choice exactly the
    projects of that language, in the order of the list; and every choice
    the filter offers shows at least one project, unless there is none at
    all. *)
Theorem empty_query_filters_by_language
  (projects : list Portfolio.Project) :
  toLowerCase EmptyString = EmptyString ->
  Portfolio.filtered toLowerCase projects EmptyString "All" = projects /\
  (forall l, l <> "All"%string ->
             Portfolio.filtered toLowerCase projects EmptyString l =
             filter (fun p => String.eqb (Portfolio.lang p) l) projects) /\
  (forall l, In l (Portfolio.languages projects) -> projects <> [] ->
             Portfolio.filtered toLowerCase projects EmptyString l <> []).
Proof.
  intros Hlower.
  assert (Hshown : forall l p,
            Portfolio.shown toLowerCase EmptyString l p =
            String.eqb l "All" || String.eqb (Portfolio.lang p) l).
  { intros l p. unfold Portfolio.shown.
    rewrite Hlower, includes_empty. cbn [orb]. apply andb_true_r. }
  assert (Hall : Portfolio.filtered toLowerCase projects EmptyString "All" =
                 projects).
  { unfold Portfolio.filtered. apply filter_all. intros p _.
    rewrite Hshown. reflexivity. }
  split; [exact Hall|]. split.
  - intros l Hl. unfold Portfolio.filtered. apply filter_ext. intros p.
    rewrite Hshown. apply String.eqb_neq in Hl. rewrite Hl. reflexivity.
  - intros l Hl Hsome.
    destruct (String.eqb_spec l "All") as [->|Hother];
      [rewrite Hall; exact Hsome|].
    destruct (languages_offer projects l Hl) as [Heq|(p & Hp & Hlang)];
      [contradiction|].
    intros Hempty.
    assert (Hin : In p (Portfolio.filtered toLowerCase projects EmptyString l)).
    { unfold Portfolio.filtered. apply filter_In. split; [exact Hp|].
      rewrite Hshown, Hlang, String.eqb_refl. apply orb_true_r. }
    rewrite Hempty in Hin. exact Hin.
Qed.

End Shown.

(** ** The theorems of the browser's lists at the samples *)

Lemma new_post_then_edit_sample :
  exists created : Browser.Post,
    Browser.save None edited 1704103200000 "2024-01-01T10:00:00.000Z"
      [welcome] = created :: [welcome] /\
    Browser.has_id created = true /\
    Browser.save (Some created) edited 1704103200001
      "2024-01-01T10:00:00.001Z"
      (Browser.save None edited 1704103200000 "2024-01-01T10:00:00.000Z"
         [welcome]) =
      {| Browser.id := Some (decimal 1704103200000);
         Browser.title := Browser.form_title edited;
         Browser.content := Browser.form_content edited;
         Browser.createdAt := Some "2024-01-01T10:00:00.000Z"%string |}
      :: [welcome].
Proof.
  apply (new_post_then_edit edited edited 1704103200000 1704103200001
           "2024-01-01T10:00:00.000Z" "2024-01-01T10:00:00.001Z" [welcome]).
  intros p [<-|[]]. vm_compute. discriminate.
Defined.

Lemma edit_keeps_ids_and_settles_sample :
  map Browser.id
    (Browser.save (Some welcome) edited 0 "2024-01-02T08:00:00.000Z"
       [other; welcome]) =
    [Browser.id other; Browser.id welcome] /\
  Browser.save (Some welcome) edited 1 "2024-01-02T09:00:00.000Z"
    (Browser.save (Some welcome) edited 0 "2024-01-02T08:00:00.000Z"
       [other; welcome]) =
    Browser.save (Some welcome) edited 0 "2024-01-02T08:00:00.000Z"
      [other; welcome].
Proof.
  apply (edit_keeps_ids_and_settles welcome edited 0 1
           "2024-01-02T08:00:00.000Z" "2024-01-02T09:00:00.000Z"
           "2024-01-01T10:00:00.000Z" [other; welcome]);
    reflexivity.
Defined.

Lemma saving_unchanged_post_is_noop_sample :
  Browser.save (Some welcome)
    {| Browser.form_title := Browser.title welcome;
       Browser.form_content := Browser.content welcome |}
    0 "2024-01-02T08:00:00.000Z" [other; welcome] = [other; welcome].
Proof.
  apply (saving_unchanged_post_is_noop welcome 0 "2024-01-02T08:00:00.000Z"
           "2024-01-01T10:00:00.000Z" [other; welcome]).
  - right. left. reflexivity.
  - reflexivity.
  - reflexivity.
  - constructor; [intros [H|[]]; discriminate H|].
    constructor; [intros []|constructor].
Defined.

Lemma project_save_edits_in_place_or_prepends_sample :
  length (Portfolio.save (Some gym) gym_edit 0 Portfolio.sampleProjects) =
    2%nat /\
  nth_error (Portfolio.save (Some gym)
               gym_edit 0 Portfolio.sampleProjects) 0 =
    Some {| Portfolio.id := Some "p1"%string; Portfolio.title := "Gym";
            Portfolio.description := "Landing page";
            Portfolio.lang := "React"; Portfolio.repo := "#";
            Portfolio.live := "#" |} /\
  nth_error (Portfolio.save (Some gym)
               gym_edit 0 Portfolio.sampleProjects) 1 =
    nth_error Portfolio.sampleProjects 1 /\
  Portfolio.save None gym_edit 0 Portfolio.sampleProjects =
    {| Portfolio.id := Some "0"%string; Portfolio.title := "Gym";
       Portfolio.description := "Landing page";
       Portfolio.lang := "React"; Portfolio.repo := "#";
       Portfolio.live := "#" |} :: Portfolio.sampleProjects.
Proof.
  destruct (project_save_edits_in_place_or_prepends
              gym gym_edit 0
              Portfolio.sampleProjects eq_refl)
    as (Hlen & Hother & Hsame & Hnew).
  split; [exact Hlen|].
  split; [exact (Hsame 0%nat _ eq_refl eq_refl)|].
  split; [|exact Hnew].
  apply (Hother 1%nat); [reflexivity|discriminate].
Defined.

Lemma project_saved_edited_removed_sample :
  exists created : Portfolio.Project,
    Portfolio.save None Portfolio.blank 1704103200000
      Portfolio.sampleProjects = created :: Portfolio.sampleProjects /\
    Portfolio.id created = Some (decimal 1704103200000) /\
    Portfolio.save (Some created) gym_edit 1704103200001
      (created :: Portfolio.sampleProjects) =
      Portfolio.saved (Some created) gym_edit :: Portfolio.sampleProjects /\
    Portfolio.removeProject (Portfolio.id created)
      (Portfolio.save (Some created) gym_edit 1704103200001
         (created :: Portfolio.sampleProjects)) = Portfolio.sampleProjects.
Proof.
  apply (project_saved_edited_removed Portfolio.blank gym_edit
           1704103200000 1704103200001 Portfolio.sampleProjects).
  intros p [<-|[<-|[]]]; vm_compute; discriminate.
Defined.

Lemma empty_query_filters_by_language_sample :
  Portfolio.filtered lower Portfolio.sampleProjects EmptyString "All" =
    Portfolio.sampleProjects /\
  (forall l, l <> "All"%string ->
             Portfolio.filtered lower Portfolio.sampleProjects EmptyString l =
             filter (fun p => String.eqb (Portfolio.lang p) l)
               Portfolio.sampleProjects) /\
  (forall l, In l (Portfolio.languages Portfolio.sampleProjects) ->
             Portfolio.sampleProjects <> [] ->
             Portfolio.filtered lower Portfolio.sampleProjects EmptyString l
             <> []).
Proof.
  apply (empty_query_filters_by_language lower Portfolio.sampleProjects).
  reflexivity.
Defined.
